(** * StatsMan: the chart renderer and the dashboard controller

    A shallow embedding of [statsman/ui/charts.py] (class [ChartRenderer]) and
    [statsman/ui/dashboard.py] (class [Dashboard]).

    Python values are modelled as follows.
    - [float] is IEEE 754 binary64: Rocq's primitive [float], whose operations
      are specified by [SpecFloat] through the axioms of [FloatAxioms].
    - [int] is [Z].
    - [str] is a list of Unicode code points, so that [len] counts characters
      (the block glyphs are single code points outside ASCII).
    - a [dict] is an association list in insertion order.
    - a raised exception is the [Raise] case of [result].
    Memory limits of the interpreter are not modelled. *)

From Stdlib Require Import String Ascii.
From Stdlib Require Import ZArith NArith List Bool Lia.
From Stdlib Require Import DecimalString DecimalPos.
From Stdlib Require Import Floats.
From Stdlib Require Import Permutation Sorted.
Import ListNotations.
Local Open Scope Z_scope.

(** ** The Python runtime the two modules rely on *)

Module Py.

Definition codepoint := N.
Definition str := list codepoint.

(** An ASCII literal as a [str]. *)
Definition lit (s : string) : str := map N_of_ascii (list_ascii_of_string s).

Definition space : codepoint := 32%N.
Definition newline : codepoint := 10%N.

Inductive exn := ZeroDivisionError | ValueError | OverflowError | KeyError.

Inductive result (A : Type) : Type :=
| Ok (a : A)
| Raise (e : exn).
Arguments Ok {A} a.
Arguments Raise {A} e.

Definition bind {A B} (r : result A) (k : A -> result B) : result B :=
  match r with
  | Ok a => k a
  | Raise e => Raise e
  end.

Notation "x <- r ;; k" := (bind r (fun x => k))
  (at level 61, r at next level, right associativity).

(** A [for] loop that builds a list, stopping at the first exception. *)
Fixpoint mapM {A B} (f : A -> result B) (l : list A) : result (list B) :=
  match l with
  | [] => Ok []
  | a :: l' => b <- f a ;; bs <- mapM f l' ;; Ok (b :: bs)
  end.

Definition len {A} (l : list A) : Z := Z.of_nat (length l).

(** [l[i:]] and [l[:j]], with Python's treatment of negative and
    out-of-range indices. *)
Definition slice_index {A} (l : list A) (i : Z) : nat :=
  Z.to_nat (if i <? 0 then Z.max 0 (len l + i) else Z.min i (len l)).

Definition slice_from {A} (l : list A) (i : Z) : list A := skipn (slice_index l i) l.
Definition slice_to {A} (l : list A) (j : Z) : list A := firstn (slice_index l j) l.

(** [s * n]: the empty string when [n <= 0]. The limits of the interpreter
    on the size of the result are not modelled: CPython raises
    [OverflowError] for a count beyond the index size of the machine and
    [MemoryError] when the string cannot be allocated. What is proved about
    a call that repeats a string is about the runs in which the string
    fits. *)
Definition str_mul (s : str) (n : Z) : str := concat (repeat s (Z.to_nat n)).

Definition ljust (s : str) (w : Z) : str := s ++ repeat space (Z.to_nat (w - len s)).
Definition rjust (s : str) (w : Z) : str := repeat space (Z.to_nat (w - len s)) ++ s.

(** [sep.join(lines)] *)
Fixpoint join (sep : str) (lines : list str) : str :=
  match lines with
  | [] => []
  | [l] => l
  | l :: ls => l ++ sep ++ join sep ls
  end.

(** *** Numbers *)

(** [int(x)] truncates toward zero; it raises on NaN and on the infinities. *)
Definition py_int (x : float) : result Z :=
  match Prim2SF x with
  | S754_nan => Raise ValueError
  | S754_infinity _ => Raise OverflowError
  | S754_zero _ => Ok 0
  | S754_finite s m e => Ok (cond_Zopp s (Z.shiftl (Zpos m) e))
  end.

(** [float(n)], the conversion applied to an [int] operand of mixed
    arithmetic: correctly rounded, [OverflowError] beyond the float range. *)
Definition float_of_int (n : Z) : result float :=
  match binary_normalize prec emax n 0 false with
  | S754_infinity _ => Raise OverflowError
  | r => Ok (SF2Prim r)
  end.

(** [x / y] on floats raises when [y == 0.0]. *)
Definition float_div (x y : float) : result float :=
  if (y =? 0)%float then Raise ZeroDivisionError else Ok (x / y)%float.

(** [a / b] on ints: the correctly rounded quotient. *)
Definition int_truediv (a b : Z) : result float :=
  if b =? 0 then Raise ZeroDivisionError
  else
    let s := xorb (a <? 0) (b <? 0) in
    if a =? 0 then Ok (SF2Prim (S754_zero s))
    else
      let '(q, e, l) := SFdiv_core_binary prec emax (Z.abs a) 0 (Z.abs b) 0 in
      match binary_round_aux prec emax s q e l with
      | S754_infinity _ => Raise OverflowError
      | r => Ok (SF2Prim r)
      end.

(** [n >= x] for an int [n] and a float [x]: Python compares the exact values. *)
Definition int_ge_float (n : Z) (x : float) : bool :=
  match Prim2SF x with
  | S754_nan => false
  | S754_infinity s => s
  | S754_zero _ => 0 <=? n
  | S754_finite s m e =>
      let v := cond_Zopp s (Zpos m) in
      if 0 <=? e then Z.shiftl v e <=? n else v <=? Z.shiftl n (- e)
  end.

(** [min] and [max] over a sequence: keep the first element, replace it by a
    later one only when that one is strictly smaller (greater). *)
Definition min_from (x : float) (xs : list float) : float :=
  fold_left (fun cur item => if (item <? cur)%float then item else cur) xs x.
Definition max_from (x : float) (xs : list float) : float :=
  fold_left (fun cur item => if (cur <? item)%float then item else cur) xs x.

Definition py_min (l : list float) : result float :=
  match l with
  | [] => Raise ValueError
  | x :: xs => Ok (min_from x xs)
  end.
Definition py_max (l : list float) : result float :=
  match l with
  | [] => Raise ValueError
  | x :: xs => Ok (max_from x xs)
  end.

(** *** Format specifications *)

Definition fmt_int (n : Z) : str := lit (NilZero.string_of_int (Z.to_int n)).

(** [{n:0wd}]: sign first, then zeros up to the field width. *)
Definition fmt_int_zero_pad (n w : Z) : str :=
  let sign := if n <? 0 then lit "-" else [] in
  let digits := fmt_int (Z.abs n) in
  sign ++ repeat 48%N (Z.to_nat (w - len sign - len digits)) ++ digits.

(** The value of [m * 2^e] in tenths, rounded to nearest, ties to even. *)
Definition tenths (m : positive) (e : Z) : Z :=
  if 0 <=? e then 10 * Z.shiftl (Zpos m) e
  else
    let d := Z.shiftl 1 (- e) in
    let n := 10 * Zpos m in
    let q := n / d in
    match 2 * (n mod d) ?= d with
    | Lt => q
    | Gt => q + 1
    | Eq => if Z.even q then q else q + 1
    end.

(** [{x:.1f}] *)
Definition fmt_float_1f (x : float) : str :=
  match Prim2SF x with
  | S754_nan => lit "nan"
  | S754_infinity s => if s then lit "-inf" else lit "inf"
  | S754_zero s => (if s then lit "-" else []) ++ lit "0.0"
  | S754_finite s m e =>
      let t := tenths m e in
      (if s then lit "-" else []) ++ fmt_int (t / 10) ++ lit "." ++ fmt_int (t mod 10)
  end.

(** *** Sorting *)

(** [sorted(l, key=key, reverse=True)] for a float key. Python's sort is
    stable, also with [reverse=True], and compares keys with [<] only; where
    [<] orders the keys (no NaN among them) the result of a stable sort is
    determined, and it is computed here by insertion. With a NaN among the
    keys [<] is not an order and what CPython returns depends on the runs
    and merges of its sort: there the list computed here is a permutation of
    the input, as CPython's is, but not necessarily the same one; the
    properties of the order below assume keys without NaN. *)
Fixpoint insert_desc {A} (key : A -> float) (x : A) (l : list A) : list A :=
  match l with
  | [] => [x]
  | y :: l' => if (key x <? key y)%float then y :: insert_desc key x l' else x :: l
  end.

Definition sorted_desc {A} (key : A -> float) (l : list A) : list A :=
  fold_right (insert_desc key) [] l.

(** [range(n, 0, -1)] *)
Definition range_down (n : Z) : list Z :=
  map (fun k => n - Z.of_nat k) (seq 0 (Z.to_nat n)).

(** [enumerate(l)] *)
Definition enumerate {A} (l : list A) : list (Z * A) :=
  combine (map Z.of_nat (seq 0 (length l))) l.

(** *** Dictionaries: association lists in insertion order *)

Definition dict (V : Type) := list (str * V).

Definition str_eqb (a b : str) : bool :=
  if list_eq_dec N.eq_dec a b then true else false.

(** [d[k] = v]: overwrite in place, or append a new key. *)
Fixpoint dict_set {V} (d : dict V) (k : str) (v : V) : dict V :=
  match d with
  | [] => [(k, v)]
  | (k', v') :: d' => if str_eqb k' k then (k', v) :: d' else (k', v') :: dict_set d' k v
  end.

Definition keys {V} (d : dict V) : list str := map fst d.
Definition values {V} (d : dict V) : list V := map snd d.

End Py.
Import Py.

(** ** The part of [rich] the two modules build their output from *)

Module Rich.

#[warnings="-register-all"]
Inductive Renderable :=
| Str (s : str)
| Text (s : str) (style : option str)
| Markup (s : str)
| AlignCenter (r : Renderable)
| Group (rs : list Renderable)
| Panel (r : Renderable) (title : option str) (border_style : str) (height : option Z).

End Rich.
Import Rich.

(** ** The telemetry records read by the renderer *)

Module CpuInfo.
Record t := { percent : float; percent_per_core : list float }.
End CpuInfo.

Module MemoryInfo.
Record t := { percent : float; used : Z; total : Z }.
End MemoryInfo.

Module DiskInfo.
Record t := { percent : float }.
End DiskInfo.

Module NetworkInfo.
Record t := { bytes_sent : Z; bytes_recv : Z }.
End NetworkInfo.

Record Process := {
  pid : Z;
  name : str;
  cpu_percent : float;
  memory_percent : float
}.

(** ** charts.py *)

Module Charts.

Definition full_block : codepoint := 9608%N.
Definition light_shade : codepoint := 9617%N.

Definition spark_chars : list codepoint :=
  [32; 9601; 9602; 9603; 9604; 9605; 9606; 9607; 9608]%N.

(** The body of the loop of [create_sparkline]: the glyph of one sample. *)
Definition sparkline_glyph (min_val range_val value : float) : result codepoint :=
  normalized <- float_div (value - min_val) range_val ;;
  n <- float_of_int (len spark_chars) ;;
  i <- py_int (normalized * n) ;;
  let char_index := Z.min i (len spark_chars - 1) in
  Ok (nth (Z.to_nat (Z.max 0 char_index)) spark_chars space).

Definition sparkline_range (min_val max_val : float) : float :=
  if negb (max_val =? min_val)%float then (max_val - min_val)%float else 1%float.

Definition sparkline_window (data : list float) (width : Z) : list float :=
  if len data >? width then slice_from data (- width) else data.

Definition create_sparkline (data : list float) (width height : Z) : result str :=
  match data with
  | [] => Ok (str_mul [space] width)
  | _ =>
      min_val <- py_min data ;;
      max_val <- py_max data ;;
      let range_val := sparkline_range min_val max_val in
      let recent_data := sparkline_window data width in
      mapM (sparkline_glyph min_val range_val) recent_data
  end.

(** [int((v / max_val) * width) if max_val > 0 else 0] *)
Definition scaled_width (max_val : float) (width : Z) (v : float) : result Z :=
  if (0 <? max_val)%float then
    q <- float_div v max_val ;;
    w <- float_of_int width ;;
    py_int (q * w)
  else Ok 0.

(** One text row of [create_vertical_bars], for one [level]. *)
Definition vertical_bars_line (height width : Z) (bar_widths : list Z) (level : Z)
  : result str :=
  cells <- mapM (fun bar_width =>
             r <- int_truediv level height ;;
             w <- float_of_int width ;;
             let threshold := (r * w)%float in
             Ok ((if int_ge_float bar_width threshold then full_block else space)
                   :: lit "  ")) bar_widths ;;
  Ok (concat cells).

Definition vertical_bars_label_line (labels : list str) : str :=
  concat (map (fun label => ljust (slice_to label 8) 8 ++ lit "  ") labels).

Definition vertical_bars_text (data : dict float) (height width : Z) : result (list str) :=
  max_val <- match values data with [] => Ok 1%float | vs => py_max vs end ;;
  let labels := keys data in
  bar_widths <- mapM (scaled_width max_val width) (values data) ;;
  lines <- mapM (vertical_bars_line height width bar_widths) (range_down height) ;;
  Ok (lines ++ [vertical_bars_label_line labels]).

Definition create_vertical_bars (data : dict float) (height width : Z) : result Renderable :=
  match data with
  | [] => Ok (Panel (Str (lit "No data")) None (lit "red") None)
  | _ =>
      chart <- vertical_bars_text data height width ;;
      Ok (Panel (Str (join [newline] chart)) None (lit "blue") None)
  end.

(** One row of [create_horizontal_bars]. *)
Definition horizontal_bar_line (max_val : float) (max_width : Z) (item : str * float)
  : result str :=
  let '(label, value) := item in
  bar_width <- scaled_width max_val max_width value ;;
  let bar := str_mul [full_block] bar_width ++ str_mul [light_shade] (max_width - bar_width) in
  Ok (ljust label 6 ++ lit " " ++ bar ++ lit " " ++ rjust (fmt_float_1f value) 5 ++ lit "%").

Definition horizontal_bars_lines (data : dict float) (max_width : Z) : result (list str) :=
  max_val <- match values data with [] => Ok 1%float | vs => py_max vs end ;;
  mapM (horizontal_bar_line max_val max_width) data.

Definition create_horizontal_bars (data : dict float) (max_width : Z) : result Renderable :=
  match data with
  | [] => Ok (Panel (Str (lit "No data")) None (lit "red") None)
  | _ =>
      lines <- horizontal_bars_lines data max_width ;;
      Ok (Panel (Str (join [newline] lines)) None (lit "green") None)
  end.

Definition _create_mini_bar (percentage : float) (width : Z) : result str :=
  w <- float_of_int width ;;
  filled <- py_int ((percentage / 100) * w) ;;
  Ok (str_mul [full_block] filled ++ str_mul [light_shade] (width - filled)).

Definition process_table_header : str :=
  ljust (lit "PID") 7 ++ lit " " ++ ljust (lit "PROCESS") 20 ++ lit " "
    ++ ljust (lit "CPU") 12 ++ lit " " ++ ljust (lit "MEM") 12.

(** One data row of [create_mini_process_table]. *)
Definition process_row (bar_width : Z) (proc : Process) : result str :=
  cpu_bar <- _create_mini_bar (cpu_percent proc) bar_width ;;
  mem_bar <- _create_mini_bar (memory_percent proc) bar_width ;;
  let name := if len (name proc) >? 20
              then slice_to (name proc) 18 ++ lit ".."
              else ljust (name proc) 20 in
  Ok (ljust (fmt_int (pid proc)) 7 ++ lit " " ++ name ++ lit " " ++ cpu_bar ++ lit " " ++ mem_bar).

(** The processes the table shows, in row order. *)
Definition process_table_selection (processes : list Process) (limit : Z) : list Process :=
  slice_to (sorted_desc cpu_percent processes) limit.

Definition process_bar_width (console_width : Z) : Z :=
  Z.max 5 (Z.min 10 ((console_width - 25) / 4)).

Definition process_table_rows (processes : list Process) (limit console_width : Z)
  : result (list str) :=
  let bar_width := process_bar_width console_width in
  mapM (process_row bar_width) (process_table_selection processes limit).

Definition create_mini_process_table (processes : list Process) (limit console_width : Z)
  : result Renderable :=
  match processes with
  | [] => Ok (Panel (Str (lit "No processes")) None (lit "red") None)
  | _ =>
      let max_name_width := Z.max 10 (Z.min 20 ((console_width - 35) / 2)) in
      let separator := str_mul (lit "=") (Z.min (console_width - 4) 75) in
      rows <- process_table_rows processes limit console_width ;;
      let lines := [process_table_header; separator] ++ rows in
      Ok (Panel (Str (join [newline] lines)) (Some (lit "Top Processes")) (lit "magenta") None)
  end.

Definition _create_gauge (percentage : float) (label : str) (width : Z) : result Renderable :=
  w <- float_of_int width ;;
  filled <- py_int ((percentage / 100) * w) ;;
  let bar := str_mul [full_block] filled ++ str_mul [light_shade] (width - filled) in
  Ok (Markup (lit "[bold]" ++ label ++ lit ":[/bold] " ++ bar ++ lit " "
                ++ rjust (fmt_float_1f percentage) 5 ++ lit "%")).

Definition create_system_gauges (cpu_info : CpuInfo.t) (memory_info : MemoryInfo.t)
  (disk_info : DiskInfo.t) (console_width : Z) : result Renderable :=
  let gauge_width := Z.max 15 (Z.min 30 (console_width / 4)) in
  cpu_gauge <- _create_gauge (CpuInfo.percent cpu_info) (lit "CPU") gauge_width ;;
  mem_gauge <- _create_gauge (MemoryInfo.percent memory_info) (lit "MEM") gauge_width ;;
  disk_gauge <- _create_gauge (DiskInfo.percent disk_info) (lit "DSK") gauge_width ;;
  Ok (Panel (Group [cpu_gauge; mem_gauge; disk_gauge]) None (lit "cyan") None).

(** [min(x * 10, 100)] *)
Definition activity (mb : float) : float :=
  let x := (mb * 10)%float in if (100 <? x)%float then 100%float else x.

Definition create_network_visualization (network_info : NetworkInfo.t) (console_width : Z)
  : result Renderable :=
  sent_mb <- int_truediv (NetworkInfo.bytes_sent network_info) (1024 * 1024) ;;
  recv_mb <- int_truediv (NetworkInfo.bytes_recv network_info) (1024 * 1024) ;;
  let network_data :=
    dict_set (dict_set [] (lit "UPLOAD") (activity sent_mb)) (lit "DOWNLOAD") (activity recv_mb) in
  let bar_width := Z.max 15 (Z.min 70 (console_width / 2)) in
  create_horizontal_bars network_data bar_width.

Definition core_label (i : Z) : str := lit "C" ++ fmt_int_zero_pad i 2.

Definition core_data (percent_per_core : list float) : dict float :=
  fold_left (fun d '(i, core_percent) => dict_set d (core_label i) core_percent)
    (enumerate percent_per_core) [].

Definition core_bar_width (console_width : Z) : Z :=
  Z.max 20 (Z.min 40 (console_width / 8)).

Definition create_cpu_core_visualization (cpu_info : CpuInfo.t) (console_width : Z)
  : result Renderable :=
  match CpuInfo.percent_per_core cpu_info with
  | [] => Ok (Panel (Str (lit "No core data")) None (lit "red") None)
  | cores => create_vertical_bars (core_data cores) 8 (core_bar_width console_width)
  end.

Definition create_memory_breakdown (memory_info : MemoryInfo.t) (console_width : Z)
  : result Renderable :=
  used_gb <- int_truediv (MemoryInfo.used memory_info) (1024 ^ 3) ;;
  total_gb <- int_truediv (MemoryInfo.total memory_info) (1024 ^ 3) ;;
  used_share <- float_div used_gb total_gb ;;
  free_share <- float_div (total_gb - used_gb) total_gb ;;
  let memory_data :=
    dict_set (dict_set [] (lit "USED") (used_share * 100)%float)
      (lit "FREE") (free_share * 100)%float in
  let bar_width := Z.max 15 (Z.min 70 (console_width / 2)) in
  create_horizontal_bars memory_data bar_width.

Fixpoint format_bytes_loop (units : list str) (bytes_float : float) : str :=
  match units with
  | [] => fmt_float_1f bytes_float ++ lit " PB"
  | unit :: units' =>
      if (bytes_float <? 1024)%float then fmt_float_1f bytes_float ++ lit " " ++ unit
      else format_bytes_loop units' (bytes_float / 1024)
  end.

Definition format_bytes (bytes_value : Z) : result str :=
  bytes_float <- float_of_int bytes_value ;;
  Ok (format_bytes_loop [lit "B"; lit "KB"; lit "MB"; lit "GB"; lit "TB"] bytes_float).

End Charts.
Import Charts.

(** ** The layout tree of [rich.layout] *)

Module Layout.

Inductive splitter := RowSplitter | ColumnSplitter.

#[warnings="-register-all"]
Inductive t :=
| Node (name : option str) (size : option Z) (ratio : Z)
       (renderable : option Renderable) (split : splitter) (children : list t).

(** [Layout(name=..., size=..., ratio=...)]: a new layout has no children
    and the column splitter, which [split_row] replaces. *)
Definition make (name : option str) (size : option Z) (ratio : Z) : t :=
  Node name size ratio None ColumnSplitter [].

Definition has_name (n : str) (l : t) : bool :=
  match l with
  | Node (Some n') _ _ _ _ _ => str_eqb n' n
  | Node None _ _ _ _ _ => false
  end.

(** [layout.get(name)]: the node itself, else the first match among the
    children, depth first. *)
Fixpoint get (n : str) (l : t) : option t :=
  if has_name n l then Some l
  else
    match l with
    | Node _ _ _ _ _ children =>
        (fix first (cs : list t) : option t :=
           match cs with
           | [] => None
           | c :: cs' => match get n c with Some r => Some r | None => first cs' end
           end) children
    end.

(** The tree after the node that [layout[name]] denotes has been mutated by
    [f]; [None] when there is no such node. *)
Fixpoint modify (n : str) (f : t -> result t) (l : t) : option (result t) :=
  if has_name n l then Some (f l)
  else
    match l with
    | Node nm sz ra re sp children =>
        match
          (fix first (cs : list t) : option (result (list t)) :=
             match cs with
             | [] => None
             | c :: cs' =>
                 match modify n f c with
                 | Some r => Some (c' <- r ;; Ok (c' :: cs'))
                 | None =>
                     match first cs' with
                     | Some r => Some (cs'' <- r ;; Ok (c :: cs''))
                     | None => None
                     end
                 end
             end) children
        with
        | Some r => Some (children' <- r ;; Ok (Node nm sz ra re sp children'))
        | None => None
        end
    end.

(** [layout[name]] raises [KeyError] when no node has that name. *)
Definition at_name (n : str) (f : t -> result t) (l : t) : result t :=
  match modify n f l with
  | Some r => r
  | None => Raise KeyError
  end.

Definition split_column (children : list t) (l : t) : result t :=
  match l with
  | Node nm sz ra re _ _ => Ok (Node nm sz ra re ColumnSplitter children)
  end.

Definition split_row (children : list t) (l : t) : result t :=
  match l with
  | Node nm sz ra re _ _ => Ok (Node nm sz ra re RowSplitter children)
  end.

Definition update (r : Renderable) (l : t) : result t :=
  match l with
  | Node nm sz ra _ sp children => Ok (Node nm sz ra (Some r) sp children)
  end.

Definition renderable (l : t) : option Renderable :=
  match l with
  | Node _ _ _ re _ _ => re
  end.

End Layout.

(** ** dashboard.py *)

(** Modelled from the spec: [SystemMonitor] (statsman/system_monitor.py) is
    not among the sources. It is taken as the data provider capability of the
    spec, section 6; the getters read telemetry that is already materialised
    (section 5) and [update_history] advances the rolling buffers. *)
Class DataProvider (M : Type) := {
  update_history : M -> M;
  get_cpu_info : M -> CpuInfo.t;
  get_memory_info : M -> MemoryInfo.t;
  get_disk_info : M -> DiskInfo.t;
  get_network_info : M -> NetworkInfo.t;
  get_process_info : M -> Z -> list Process;
  get_cpu_history : M -> list float;
  get_memory_history : M -> list float
}.

Module Dashboard.

Section WithMonitor.

Context {M : Type} `{DataProvider M}.

(** The attributes of a [Dashboard]; of [self.console] only the terminal
    height is read. *)
Record t := {
  console_height : Z;
  monitor : M;
  layout : Layout.t;
  sort_processes_by : str
}.

(** [Dashboard.__init__], on a console of the given height and a fresh monitor. *)
Definition init (height : Z) (m : M) : t :=
  {| console_height := height;
     monitor := m;
     layout := Layout.make None None 1;
     sort_processes_by := lit "cpu" |}.

(** A method: it may raise, and it may mutate [self] before it does. *)
Definition method (A : Type) : Type := t -> result A * t.

Definition ret {A} (a : A) : method A := fun self => (Ok a, self).

Definition bindM {A B} (m : method A) (k : A -> method B) : method B :=
  fun self =>
    match m self with
    | (Ok a, self') => k a self'
    | (Raise e, self') => (Raise e, self')
    end.

Notation "x <~ m ;; k" := (bindM m (fun x => k))
  (at level 61, m at next level, right associativity).
Notation "m ;;; k" := (bindM m (fun _ => k))
  (at level 61, right associativity).

Definition lift {A} (r : result A) : method A := fun self => (r, self).
Definition read {A} (f : t -> A) : method A := fun self => (Ok (f self), self).

Definition with_layout (self : t) (l : Layout.t) : t :=
  {| console_height := console_height self; monitor := monitor self;
     layout := l; sort_processes_by := sort_processes_by self |}.

Definition with_monitor (self : t) (m : M) : t :=
  {| console_height := console_height self; monitor := m;
     layout := layout self; sort_processes_by := sort_processes_by self |}.

Definition with_sort_processes_by (self : t) (s : str) : t :=
  {| console_height := console_height self; monitor := monitor self;
     layout := layout self; sort_processes_by := s |}.

Definition set_layout (l : Layout.t) : method unit :=
  fun self => (Ok tt, with_layout self l).

Definition set_monitor (m : M) : method unit :=
  fun self => (Ok tt, with_monitor self m).

Definition set_sort_processes_by (s : str) : method unit :=
  fun self => (Ok tt, with_sort_processes_by self s).

(** [self.layout[n1][n2]....update(r)] *)
Fixpoint update_at (path : list str) (r : Renderable) (l : Layout.t) : result Layout.t :=
  match path with
  | [] => Layout.update r l
  | n :: path' => Layout.at_name n (update_at path' r) l
  end.

Definition update_region (path : list str) (r : Renderable) : method unit :=
  l <~ read layout ;;
  l' <~ lift (update_at path r l) ;;
  set_layout l'.

Definition _make_layout : result Layout.t :=
  let named (n : string) size ratio := Layout.make (Some (lit n)) size ratio in
  l <- Layout.split_column
         [ named "header"%string (Some 3) 1;
           named "body"%string None 1;
           named "footer"%string (Some 3) 1 ]
         (Layout.make None None 1) ;;
  l <- Layout.at_name (lit "body")
         (Layout.split_column
            [ named "top"%string None 2;
              named "middle"%string None 1;
              named "processes"%string None 2 ]) l ;;
  l <- Layout.at_name (lit "top")
         (Layout.split_row
            [ named "gauges"%string None 1; named "cores"%string None 1 ]) l ;;
  Layout.at_name (lit "middle")
    (Layout.split_row
       [ named "memory"%string None 1; named "network"%string None 1 ]) l.

Definition _create_header : Renderable :=
  Panel (AlignCenter (Text (lit "StatsMan - System Monitor") (Some (lit "bold blue"))))
    None (lit "bright_blue") (Some 3).

Definition footer_text : str :=
  lit "[bold cyan]q[/] quit " ++ [9474%N] ++ lit " "
    ++ lit "[bold cyan]p[/] pause " ++ [9474%N] ++ lit " "
    ++ lit "[bold cyan]c[/] sort CPU " ++ [9474%N] ++ lit " "
    ++ lit "[bold cyan]m[/] sort MEM".

Definition _create_footer : Renderable :=
  Panel (AlignCenter (Markup footer_text)) None (lit "bright_black") (Some 3).

Definition _create_system_gauges : method Renderable :=
  m <~ read monitor ;;
  let cpu := get_cpu_info m in
  let mem := get_memory_info m in
  let disk := get_disk_info m in
  lift (create_system_gauges cpu mem disk 80).

Definition _create_cpu_cores : method Renderable :=
  m <~ read monitor ;;
  let cpu := get_cpu_info m in
  let history := get_cpu_history m in
  spark <~ lift (create_sparkline history 80 6) ;;
  cores <~ lift (create_cpu_core_visualization cpu 80) ;;
  let usage := lit "CPU Usage: " ++ fmt_float_1f (CpuInfo.percent cpu) ++ lit "%" in
  ret (Panel (Group [Text usage None; Str spark; cores])
         (Some (lit "CPU Cores")) (lit "red") None).

Definition _create_memory_visual : method Renderable :=
  m <~ read monitor ;;
  let mem := get_memory_info m in
  let history := get_memory_history m in
  spark <~ lift (create_sparkline history 80 5) ;;
  breakdown <~ lift (create_memory_breakdown mem 80) ;;
  let usage := lit "Memory: " ++ fmt_float_1f (MemoryInfo.percent mem) ++ lit "%" in
  ret (Panel (Group [Text usage None; Str spark; breakdown])
         (Some (lit "Memory & Swap")) (lit "green") None).

Definition _create_network_visual : method Renderable :=
  m <~ read monitor ;;
  lift (create_network_visualization (get_network_info m) 80).

(** [max(8, height // 3, 20)] *)
Definition process_limit (height : Z) : Z := Z.max (Z.max 8 (height / 3)) 20.

(** The list handed to [create_mini_process_table]: [procs[:limit]] after
    the optional in-place sort by memory. *)
Definition visible_processes (self : t) : list Process :=
  let limit := process_limit (console_height self) in
  let procs := get_process_info (monitor self) (limit + 5) in
  let procs := if str_eqb (sort_processes_by self) (lit "memory")
               then sorted_desc memory_percent procs else procs in
  slice_to procs limit.

Definition _create_processes_visual : method Renderable :=
  procs <~ read visible_processes ;;
  lift (create_mini_process_table procs 12 80).

Definition render : method Layout.t :=
  l <~ lift _make_layout ;;
  set_layout l ;;;
  m <~ read monitor ;;
  set_monitor (update_history m) ;;;
  update_region [lit "header"] _create_header ;;;
  update_region [lit "footer"] _create_footer ;;;
  p <~ _create_system_gauges ;; update_region [lit "top"; lit "gauges"] p ;;;
  p <~ _create_cpu_cores ;; update_region [lit "top"; lit "cores"] p ;;;
  p <~ _create_memory_visual ;; update_region [lit "middle"; lit "memory"] p ;;;
  p <~ _create_network_visual ;; update_region [lit "middle"; lit "network"] p ;;;
  p <~ _create_processes_visual ;; update_region [lit "processes"] p ;;;
  read layout.

Definition set_process_sort (sort_by : str) : method unit :=
  if str_eqb sort_by (lit "cpu") || str_eqb sort_by (lit "memory")
  then set_sort_processes_by sort_by
  else ret tt.

End WithMonitor.

Arguments t M : clear implicits.

End Dashboard.

(** Modelled from the spec: a data provider holding one telemetry snapshot
    and the two rolling histories (section 3: a bounded history buffer, the
    oldest sample evicted on overflow). It serves the concrete runs below. *)
Module Snapshot.

Record t := {
  cpu : CpuInfo.t;
  memory : MemoryInfo.t;
  disk : DiskInfo.t;
  network : NetworkInfo.t;
  processes : list Process;
  cpu_history : list float;
  memory_history : list float;
  history_size : Z
}.

Definition push (size : Z) (history : list float) (sample : float) : list float :=
  let h := history ++ [sample] in
  if len h >? size then slice_from h (len h - size) else h.

Definition advance (s : t) : t :=
  {| cpu := cpu s; memory := memory s; disk := disk s; network := network s;
     processes := processes s;
     cpu_history := push (history_size s) (cpu_history s) (CpuInfo.percent (cpu s));
     memory_history := push (history_size s) (memory_history s) (MemoryInfo.percent (memory s));
     history_size := history_size s |}.

#[global] Instance provider : DataProvider t := {|
  update_history := advance;
  get_cpu_info := cpu;
  get_memory_info := memory;
  get_disk_info := disk;
  get_network_info := network;
  get_process_info := fun s limit => slice_to (processes s) limit;
  get_cpu_history := cpu_history;
  get_memory_history := memory_history
|}.

(** A host with three cores, 8 GiB of memory of which 2 GiB are used, and
    two processes. *)
Definition host : t :=
  {| cpu := {| CpuInfo.percent := 50; CpuInfo.percent_per_core := [10; 50; 90]%float |};
     memory := {| MemoryInfo.percent := 25; MemoryInfo.used := 2 * 1024 ^ 3;
                  MemoryInfo.total := 8 * 1024 ^ 3 |};
     disk := {| DiskInfo.percent := 40 |};
     network := {| NetworkInfo.bytes_sent := 1024 * 1024; NetworkInfo.bytes_recv := 0 |};
     processes := [ {| pid := 1; name := lit "init"; cpu_percent := 90; memory_percent := 10 |};
                    {| pid := 2; name := lit "db"; cpu_percent := 10; memory_percent := 90 |} ];
     cpu_history := [];
     memory_history := [];
     history_size := 120 |}.

End Snapshot.

(** * Properties *)

(** ** The runtime on examples *)

Example slices_as_in_python :
  slice_from [1; 2; 3; 4; 5] (-2) = [4; 5] /\ slice_to [1; 2; 3] 5 = [1; 2; 3] /\
  slice_to [1; 2; 3] (-1) = [1; 2] /\ slice_from [1; 2; 3] (-5) = [1; 2; 3].
Proof. repeat split. Qed.

Example float_format_rounds_to_even :
  rjust (fmt_float_1f 0.25) 5 = lit "  0.2" /\ rjust (fmt_float_1f 0.75) 5 = lit "  0.8" /\
  rjust (fmt_float_1f 100) 5 = lit "100.0" /\ rjust (fmt_float_1f (-0)) 5 = lit " -0.0".
Proof. repeat split. Qed.

Example int_of_a_rounded_product : py_int (29 / 100 * 100) = Ok 28.
Proof. reflexivity. Qed.

Example true_division_of_ints :
  int_truediv 7 8 = Ok 0.875%float /\ int_truediv (-7) 2 = Ok (-3.5)%float /\
  int_truediv 1 0 = Raise ZeroDivisionError.
Proof. repeat split. Qed.

Example sort_is_descending_and_stable :
  map fst (sorted_desc snd [(1, 10%float); (2, 90%float); (3, 10%float); (4, 90%float)])
  = [2; 4; 1; 3].
Proof. reflexivity. Qed.

Example format_bytes_units :
  format_bytes 1023 = Ok (lit "1023.0 B") /\ format_bytes 1024 = Ok (lit "1.0 KB") /\
  format_bytes (1024 * 1024) = Ok (lit "1.0 MB").
Proof. repeat split. Qed.

(** ** Loops in the exception monad *)

Section MapM.

Context {A B : Type} (f : A -> result B).

Lemma mapM_Forall2 (l : list A) (r : list B) :
  mapM f l = Ok r <-> Forall2 (fun a b => f a = Ok b) l r.
Proof.
  revert r. induction l as [|a l IH]; intros r; simpl.
  - split.
    + intros E. injection E as <-. constructor.
    + intros F. inversion F. reflexivity.
  - split.
    + destruct (f a) as [b|e] eqn:Ea; simpl; [|discriminate].
      destruct (mapM f l) as [bs|e] eqn:El; simpl; [|discriminate].
      intros E. injection E as <-. constructor; [assumption|]. now apply IH.
    + intros F. inversion F as [|a' b l' bs Ea Fl]; subst.
      rewrite Ea. simpl. apply IH in Fl. rewrite Fl. reflexivity.
Qed.

Lemma mapM_length (l : list A) (r : list B) :
  mapM f l = Ok r -> length r = length l.
Proof.
  intros E. apply mapM_Forall2 in E. symmetry. eapply Forall2_length. exact E.
Qed.

Lemma mapM_total (l : list A) :
  Forall (fun a => exists b, f a = Ok b) l -> exists r, mapM f l = Ok r.
Proof.
  induction 1 as [|a l [b Eb] _ [r Er]]; simpl.
  - now exists [].
  - exists (b :: r). rewrite Eb. simpl. rewrite Er. reflexivity.
Qed.

End MapM.

Lemma mapM_ext {A B} (f g : A -> result B) (l : list A) :
  (forall a, In a l -> f a = g a) -> mapM f l = mapM g l.
Proof.
  induction l as [|a l IH]; simpl; intros E; [reflexivity|].
  rewrite (E a) by now left. rewrite IH by (intros; apply E; now right). reflexivity.
Qed.

Lemma mapM_const {A B} (f : A -> result B) (b : B) (l : list A) :
  (forall a, In a l -> f a = Ok b) -> mapM f l = Ok (repeat b (length l)).
Proof.
  induction l as [|a l IH]; simpl; intros E; [reflexivity|].
  rewrite (E a) by now left. simpl. rewrite IH by (intros; apply E; now right).
  reflexivity.
Qed.

Lemma mapM_Forall2_total {A B} (f : A -> result B) (Q : A -> B -> Prop) (l : list A) :
  Forall (fun a => exists b, f a = Ok b /\ Q a b) l ->
  exists r, mapM f l = Ok r /\ Forall2 Q l r.
Proof.
  induction 1 as [|a l (b & Eb & Qb) _ (r & Er & Fr)]; cbn [mapM].
  - exists []. split; [reflexivity|constructor].
  - exists (b :: r). rewrite Eb. cbn [bind]. rewrite Er. cbn [bind].
    split; [reflexivity|now constructor].
Qed.

(** ** Slices and repetition *)

Lemma len_nonneg {A} (l : list A) : 0 <= len l.
Proof. unfold len. lia. Qed.

Lemma str_mul_char (c : codepoint) (n : Z) : str_mul [c] n = repeat c (Z.to_nat n).
Proof.
  unfold str_mul. induction (Z.to_nat n) as [|k IH]; simpl; [reflexivity|].
  now rewrite IH.
Qed.

Lemma len_str_mul_char (c : codepoint) (n : Z) : len (str_mul [c] n) = Z.max 0 n.
Proof. rewrite str_mul_char. unfold len. rewrite repeat_length. lia. Qed.

Lemma In_skipn {A} (n : nat) (l : list A) (a : A) : In a (skipn n l) -> In a l.
Proof.
  intros Ha. rewrite <- (firstn_skipn n l). apply in_or_app. now right.
Qed.

Lemma In_firstn {A} (n : nat) (l : list A) (a : A) : In a (firstn n l) -> In a l.
Proof.
  intros Ha. rewrite <- (firstn_skipn n l). apply in_or_app. now left.
Qed.

Lemma len_slice_to {A} (l : list A) (j : Z) :
  0 <= j -> len (slice_to l j) = Z.min j (len l).
Proof.
  intros Hj. unfold slice_to, slice_index, len.
  destruct (Z.ltb_spec j 0); [lia|]. rewrite length_firstn. unfold len. lia.
Qed.

Lemma slice_from_last {A} (l : list A) (w : Z) :
  1 <= w -> slice_from l (- w) = skipn (length l - Z.to_nat w) l.
Proof.
  intros Hw. unfold slice_from, slice_index, len.
  destruct (Z.ltb_spec (- w) 0); [|lia]. f_equal. lia.
Qed.

Lemma StronglySorted_firstn {A} (R : A -> A -> Prop) (n : nat) (l : list A) :
  StronglySorted R l -> StronglySorted R (firstn n l).
Proof.
  intros S. revert n. induction S as [|a l S IH Ha]; intros [|n]; cbn [firstn];
    try constructor.
  - apply IH.
  - rewrite Forall_forall in *. intros x Hx. apply Ha. eapply In_firstn. exact Hx.
Qed.

(** ** IEEE facts, read off the specification of the operations *)

Lemma finite_cases (v : float) :
  is_finite v = true ->
  (exists s, Prim2SF v = S754_zero s) \/ (exists s m e, Prim2SF v = S754_finite s m e).
Proof.
  unfold is_finite, is_nan, is_infinity. rewrite !eqb_spec, abs_spec.
  change (Prim2SF infinity) with (S754_infinity false).
  destruct (Prim2SF v) as [s|s| |s m e].
  - intros _. left. now exists s.
  - now destruct s.
  - discriminate.
  - intros _. right. now exists s, m, e.
Qed.

Lemma finite_not_nan (v : float) : is_finite v = true -> is_nan v = false.
Proof.
  unfold is_finite. destruct (is_nan v); [discriminate|reflexivity].
Qed.

Lemma SFcompare_refl (x : spec_float) :
  x <> S754_nan -> SFcompare x x = Some Eq.
Proof.
  destruct x as [s|s| |s m e]; simpl; intros Hx; try reflexivity.
  - now destruct s.
  - congruence.
  - rewrite Z.compare_refl. change (Pos.compare_cont Eq m m) with (Pos.compare m m).
    rewrite Pos.compare_refl. now destruct s.
Qed.

Lemma ltb_irrefl (v : float) : (v <? v)%float = false.
Proof.
  rewrite ltb_spec. unfold SFltb.
  destruct (Prim2SF v) as [s|s| |s m e] eqn:E; try reflexivity;
    rewrite SFcompare_refl by discriminate; reflexivity.
Qed.

Lemma eqb_refl_finite (v : float) : is_finite v = true -> (v =? v)%float = true.
Proof.
  intros Hv. rewrite eqb_spec. unfold SFeqb.
  destruct (finite_cases v Hv) as [[s E]|(s & m & e & E)]; rewrite E;
    rewrite SFcompare_refl by discriminate; reflexivity.
Qed.

Lemma sub_self (v : float) : is_finite v = true -> (v - v)%float = 0%float.
Proof.
  intros Hv. apply Prim2SF_inj. rewrite sub_spec.
  change (Prim2SF 0) with (S754_zero false).
  destruct (finite_cases v Hv) as [[s E]|(s & m & e & E)]; rewrite E.
  - now destruct s.
  - unfold SF64sub, SFsub, shl_align. rewrite Z.min_id, Z.sub_diag.
    destruct s; simpl; reflexivity.
Qed.

(** ** The order of the floats *)

(** [SFcompare] orders the floats other than NaN as the lexicographic order
    of three integers: the class (negative infinity, negative, zero,
    positive, positive infinity), then exponent and mantissa, both negated
    for the negative numbers. *)
Definition ord1 (x : spec_float) : Z :=
  match x with
  | S754_infinity true => -2
  | S754_finite true _ _ => -1
  | S754_zero _ => 0
  | S754_finite false _ _ => 1
  | S754_infinity false => 2
  | S754_nan => 3
  end.

Definition ord2 (x : spec_float) : Z :=
  match x with
  | S754_finite true _ e => - e
  | S754_finite false _ e => e
  | _ => 0
  end.

Definition ord3 (x : spec_float) : Z :=
  match x with
  | S754_finite true m _ => Zneg m
  | S754_finite false m _ => Zpos m
  | _ => 0
  end.

Definition ord_lt (x y : spec_float) : Prop :=
  ord1 x < ord1 y \/
  (ord1 x = ord1 y /\ (ord2 x < ord2 y \/ (ord2 x = ord2 y /\ ord3 x < ord3 y))).

Definition ord_eq (x y : spec_float) : Prop :=
  ord1 x = ord1 y /\ ord2 x = ord2 y /\ ord3 x = ord3 y.

Lemma SFcompare_ord (x y : spec_float) :
  match SFcompare x y with
  | Some Lt => ord_lt x y
  | Some Eq => ord_eq x y
  | Some Gt => ord_lt y x
  | None => x = S754_nan \/ y = S754_nan
  end.
Proof.
  unfold ord_lt, ord_eq.
  destruct x as [[]|[]| |[] m1 e1], y as [[]|[]| |[] m2 e2]; simpl;
    try lia; try (now left); try (now right);
    change (Pos.compare_cont Eq m1 m2) with (Pos.compare m1 m2);
    destruct (Z.compare_spec e1 e2); destruct (Pos.compare_spec m1 m2); simpl; lia.
Qed.

Lemma SFcompare_nan_l (y : spec_float) : SFcompare S754_nan y = None.
Proof. reflexivity. Qed.

Lemma SFcompare_nan_r (x : spec_float) : SFcompare x S754_nan = None.
Proof. now destruct x as [[]|[]| |[]]. Qed.

Lemma is_nan_false (v : float) : is_nan v = false <-> Prim2SF v <> S754_nan.
Proof.
  unfold is_nan. rewrite eqb_spec. unfold SFeqb. split.
  - intros E N. rewrite N in E. discriminate.
  - intros N. now rewrite SFcompare_refl.
Qed.

Ltac float_order :=
  rewrite ?ltb_spec, ?leb_spec, ?eqb_spec in *;
  unfold SFltb, SFleb, SFeqb, ord_lt, ord_eq in *.

Lemma ltb_false_leb (x y : float) :
  is_nan x = false -> is_nan y = false -> (x <? y)%float = false -> (y <=? x)%float = true.
Proof.
  intros Nx%is_nan_false Ny%is_nan_false. float_order.
  pose proof (SFcompare_ord (Prim2SF x) (Prim2SF y)) as Hxy.
  pose proof (SFcompare_ord (Prim2SF y) (Prim2SF x)) as Hyx.
  unfold ord_lt, ord_eq in *.
  destruct (SFcompare (Prim2SF x) (Prim2SF y)) as [[]|],
           (SFcompare (Prim2SF y) (Prim2SF x)) as [[]|];
    intros E; try reflexivity; try discriminate; try lia; tauto.
Qed.

Lemma ltb_leb (x y : float) : (x <? y)%float = true -> (x <=? y)%float = true.
Proof.
  float_order. now destruct (SFcompare (Prim2SF x) (Prim2SF y)) as [[]|].
Qed.

Lemma leb_trans (x y z : float) :
  (x <=? y)%float = true -> (y <=? z)%float = true -> (x <=? z)%float = true.
Proof.
  float_order.
  pose proof (SFcompare_ord (Prim2SF x) (Prim2SF y)) as Hxy.
  pose proof (SFcompare_ord (Prim2SF y) (Prim2SF z)) as Hyz.
  pose proof (SFcompare_ord (Prim2SF x) (Prim2SF z)) as Hxz.
  pose proof (SFcompare_nan_l (Prim2SF y)) as Nl.
  pose proof (SFcompare_nan_r (Prim2SF y)) as Nr.
  unfold ord_lt, ord_eq in *.
  destruct (SFcompare (Prim2SF x) (Prim2SF y)) as [[]|] eqn:Exy; try discriminate;
    destruct (SFcompare (Prim2SF y) (Prim2SF z)) as [[]|] eqn:Eyz; try discriminate;
    destruct (SFcompare (Prim2SF x) (Prim2SF z)) as [[]|]; intros _ _;
    try reflexivity; try lia;
    destruct Hxz as [N|N]; rewrite N in *; congruence.
Qed.

Lemma eqb_class_not_ltb (k x y : float) :
  (x =? k)%float = true -> (y =? k)%float = true -> (x <? y)%float = false.
Proof.
  float_order.
  pose proof (SFcompare_ord (Prim2SF x) (Prim2SF k)) as Hxk.
  pose proof (SFcompare_ord (Prim2SF y) (Prim2SF k)) as Hyk.
  pose proof (SFcompare_ord (Prim2SF x) (Prim2SF y)) as Hxy.
  unfold ord_lt, ord_eq in *.
  destruct (SFcompare (Prim2SF x) (Prim2SF k)) as [[]|]; try discriminate;
    destruct (SFcompare (Prim2SF y) (Prim2SF k)) as [[]|]; try discriminate;
    destruct (SFcompare (Prim2SF x) (Prim2SF y)) as [[]|]; intros _ _;
    try reflexivity; lia.
Qed.

Lemma leb_refl (v : float) : is_nan v = false -> (v <=? v)%float = true.
Proof. intros N. apply ltb_false_leb; try assumption. apply ltb_irrefl. Qed.

Lemma positive_not_zero (d : float) : (0 <? d)%float = true -> (d =? 0)%float = false.
Proof.
  float_order.
  pose proof (SFcompare_ord (Prim2SF 0) (Prim2SF d)) as H0d.
  pose proof (SFcompare_ord (Prim2SF d) (Prim2SF 0)) as Hd0.
  unfold ord_lt, ord_eq in *.
  destruct (SFcompare (Prim2SF 0) (Prim2SF d)) as [[]|]; try discriminate.
  destruct (SFcompare (Prim2SF d) (Prim2SF 0)) as [[]|]; intros _; try reflexivity; lia.
Qed.

Lemma min_from_repeat (v : float) (n : nat) : min_from v (repeat v n) = v.
Proof.
  unfold min_from. induction n as [|n IH]; simpl; [reflexivity|].
  now rewrite ltb_irrefl.
Qed.

Lemma max_from_repeat (v : float) (n : nat) : max_from v (repeat v n) = v.
Proof.
  unfold max_from. induction n as [|n IH]; simpl; [reflexivity|].
  now rewrite ltb_irrefl.
Qed.

(** [max] returns an element of the sequence that no element exceeds. *)
Lemma max_from_spec (xs : list float) (x : float) :
  Forall (fun v => is_nan v = false) (x :: xs) ->
  In (max_from x xs) (x :: xs) /\
  Forall (fun v => (v <=? max_from x xs)%float = true) (x :: xs).
Proof.
  revert x. induction xs as [|y ys IH]; intros x Hn.
  - inversion Hn; subst. split; [now left|]. constructor; [|constructor].
    now apply leb_refl.
  - inversion Hn as [|x' l' Nx Nl]; subst. inversion Nl as [|y' l'' Ny Nys]; subst.
    change (max_from x (y :: ys)) with (max_from (if (x <? y)%float then y else x) ys).
    destruct (x <? y)%float eqn:Exy.
    + destruct (IH y ltac:(now constructor)) as [Hin Hall].
      inversion Hall as [|y' l' Hy Hys]; subst.
      split; [now right|]. constructor; [|assumption].
      eapply leb_trans; [apply ltb_leb; exact Exy|exact Hy].
    + destruct (IH x ltac:(now constructor)) as [Hin Hall].
      inversion Hall as [|x' l' Hx Hys]; subst.
      split; [destruct Hin as [<-|Hin]; [now left|now right; right]|].
      constructor; [assumption|]. constructor; [|assumption].
      eapply leb_trans; [|exact Hx]. now apply ltb_false_leb.
Qed.

Lemma min_from_spec (xs : list float) (x : float) :
  Forall (fun v => is_nan v = false) (x :: xs) ->
  In (min_from x xs) (x :: xs) /\
  Forall (fun v => (min_from x xs <=? v)%float = true) (x :: xs).
Proof.
  revert x. induction xs as [|y ys IH]; intros x Hn.
  - inversion Hn; subst. split; [now left|]. constructor; [|constructor].
    now apply leb_refl.
  - inversion Hn as [|x' l' Nx Nl]; subst. inversion Nl as [|y' l'' Ny Nys]; subst.
    change (min_from x (y :: ys)) with (min_from (if (y <? x)%float then y else x) ys).
    destruct (y <? x)%float eqn:Exy.
    + destruct (IH y ltac:(now constructor)) as [Hin Hall].
      inversion Hall as [|y' l' Hy Hys]; subst.
      split; [now right|]. constructor; [|assumption].
      eapply leb_trans; [exact Hy|apply ltb_leb; exact Exy].
    + destruct (IH x ltac:(now constructor)) as [Hin Hall].
      inversion Hall as [|x' l' Hx Hys]; subst.
      split; [destruct Hin as [<-|Hin]; [now left|now right; right]|].
      constructor; [assumption|]. constructor; [|assumption].
      eapply leb_trans; [exact Hx|]. now apply ltb_false_leb.
Qed.

(** ** Rounding stays below a representable bound

    The operations of [SpecFloat] round with [binary_round_aux]. The lemmas
    of this part follow it through its two right shifts and show that a
    value no greater than a float is rounded to a float no greater. *)

Definition inexact (mrs : shr_record) : bool := shr_r mrs || shr_s mrs.

Lemma loc_of_shr_record_exact (mrs : shr_record) :
  loc_of_shr_record mrs = loc_Exact <-> inexact mrs = false.
Proof. destruct mrs as [m [] []]; cbn; split; congruence. Qed.

Lemma inexact_of_loc (m : Z) (l : location) :
  inexact (shr_record_of_loc m l) = false <-> l = loc_Exact.
Proof. destruct l as [|[]]; cbn; split; congruence. Qed.

Lemma shr_m_of_loc (m : Z) (l : location) : shr_m (shr_record_of_loc m l) = m.
Proof. now destruct l as [|[]]. Qed.

Lemma loc_of_shr_record_of_loc (m : Z) (l : location) :
  loc_of_shr_record (shr_record_of_loc m l) = l.
Proof. now destruct l as [|[]]. Qed.

Definition shifted (k : Z) (x y : shr_record) : Prop :=
  0 <= shr_m y /\
  shr_m y * 2 ^ k <= shr_m x < (shr_m y + 1) * 2 ^ k /\
  (inexact y = false <-> shr_m y * 2 ^ k = shr_m x /\ inexact x = false).

Lemma shr_1_shifted (x : shr_record) : 0 <= shr_m x -> shifted 1 x (shr_1 x).
Proof.
  destruct x as [m r s]. unfold shifted, inexact. cbn [shr_m shr_r shr_s shr_1].
  intros Hm. destruct m as [|[p|p|]|p]; cbn [shr_m shr_r shr_s]; try lia;
    (split; [lia|]); (split; [lia|]); cbn [orb]; split; try discriminate; try lia;
    try (intros E; split; [lia|exact E]); try tauto.
Qed.

Lemma shifted_trans (a b : Z) (x y z : shr_record) :
  0 <= a -> 0 <= b -> shifted a x y -> shifted b y z -> shifted (a + b) x z.
Proof.
  unfold shifted. intros Ha Hb (Hy & Hxy & Exy) (Hz & Hyz & Eyz).
  rewrite Z.pow_add_r by assumption.
  assert (0 < 2 ^ a) by (apply Z.pow_pos_nonneg; lia).
  assert (0 < 2 ^ b) by (apply Z.pow_pos_nonneg; lia).
  split; [assumption|]. split; [nia|].
  rewrite Eyz, Exy. split.
  - intros (E1 & E2 & E3). split; [nia|assumption].
  - intros (E1 & E2). split; [|split]; try assumption; nia.
Qed.

Lemma iter_pos_shifted (p : positive) (x : shr_record) :
  0 <= shr_m x -> shifted (Zpos p) x (iter_pos shr_1 p x).
Proof.
  revert x. induction p as [p IH|p IH|]; intros x Hx; cbn [iter_pos].
  - pose proof (shr_1_shifted x Hx) as H1.
    assert (H2 := IH (shr_1 x) (proj1 H1)).
    assert (H3 := IH _ (proj1 H2)).
    replace (Zpos p~1) with (1 + (Zpos p + Zpos p)) by lia.
    eapply shifted_trans; [lia|lia|exact H1|].
    eapply shifted_trans; [lia|lia|exact H2|exact H3].
  - assert (H2 := IH x Hx).
    assert (H3 := IH _ (proj1 H2)).
    replace (Zpos p~0) with (Zpos p + Zpos p) by lia.
    eapply shifted_trans; [lia|lia|exact H2|exact H3].
  - now apply shr_1_shifted.
Qed.

Lemma digits2_pos_size (p : positive) : digits2_pos p = Pos.size p.
Proof. induction p as [p IH|p IH|]; cbn; now rewrite ?IH. Qed.

Lemma Zdigits2_log2 (m : Z) : 0 < m -> Zdigits2 m = Z.log2 m + 1.
Proof.
  destruct m as [|p|p]; try lia. intros _. cbn [Zdigits2].
  rewrite digits2_pos_size. destruct p as [p|p|]; cbn [Z.log2 Pos.size]; lia.
Qed.

Lemma Zdigits2_bounds (m : Z) :
  0 < m -> 2 ^ (Zdigits2 m - 1) <= m < 2 ^ Zdigits2 m.
Proof.
  intros Hm. rewrite Zdigits2_log2 by assumption.
  replace (Z.log2 m + 1 - 1) with (Z.log2 m) by lia.
  pose proof (Z.log2_spec m Hm). unfold Z.succ in *. lia.
Qed.

Lemma Zdigits2_nonneg (m : Z) : 0 <= Zdigits2 m.
Proof. destruct m; cbn; lia. Qed.

(** Magnitudes compare as values do. *)
Lemma Zdigits2_le_scaled (m b k : Z) :
  0 < m -> 0 < b -> 0 <= k -> m <= b * 2 ^ k -> Zdigits2 m <= Zdigits2 b + k.
Proof.
  intros Hm Hb Hk Hle.
  pose proof (Zdigits2_bounds m Hm) as [Lm _].
  pose proof (Zdigits2_bounds b Hb) as [_ Ub].
  pose proof (Zdigits2_nonneg b) as Nb.
  destruct (Z.le_gt_cases (Zdigits2 m) (Zdigits2 b + k)) as [|Hgt]; [assumption|].
  exfalso.
  assert (2 ^ (Zdigits2 b + k) <= 2 ^ (Zdigits2 m - 1)) by (apply Z.pow_le_mono_r; lia).
  rewrite Z.pow_add_r in * by lia.
  assert (0 < 2 ^ k) by (apply Z.pow_pos_nonneg; lia).
  nia.
Qed.

Lemma Zdigits2_mul_pow2 (m k : Z) :
  0 < m -> 0 <= k -> Zdigits2 (m * 2 ^ k) = Zdigits2 m + k.
Proof.
  intros Hm Hk. assert (0 < 2 ^ k) by (apply Z.pow_pos_nonneg; lia).
  rewrite !Zdigits2_log2 by nia. rewrite Z.log2_mul_pow2 by lia. lia.
Qed.

Definition fexp64 (e : Z) : Z := fexp prec emax e.

Lemma fexp64_eq (e : Z) : fexp64 e = Z.max (e - 53) (-1074).
Proof. reflexivity. Qed.

Lemma shr_fexp_spec (m e : Z) (l : location) :
  0 <= m ->
  let '(mrs, e1) := shr_fexp prec emax m e l in
  let k := e1 - e in
  0 <= k /\ shifted k (shr_record_of_loc m l) mrs /\
  ((k = 0 /\ mrs = shr_record_of_loc m l) \/ (0 < k /\ e1 = fexp64 (Zdigits2 m + e))).
Proof.
  intros Hm. unfold shr_fexp, shr. fold (fexp64 (Zdigits2 m + e)).
  destruct (fexp64 (Zdigits2 m + e) - e) as [|p|p] eqn:En.
  - replace (e - e) with 0 by lia. split; [lia|]. split; [|now left].
    unfold shifted. rewrite shr_m_of_loc. cbn. repeat split; try lia; tauto.
  - replace (e + Z.pos p - e) with (Zpos p) by lia. split; [lia|].
    split; [apply iter_pos_shifted; now rewrite shr_m_of_loc|]. right. lia.
  - replace (e - e) with 0 by lia. split; [lia|]. split; [|now left].
    unfold shifted. rewrite shr_m_of_loc. cbn. repeat split; try lia; tauto.
Qed.

Definition slack (l : location) : Z := match l with loc_Exact => 0 | _ => 1 end.

Lemma round_nearest_even_bounds (m : Z) (l : location) :
  m <= round_nearest_even m l <= m + slack l.
Proof.
  destruct l as [|[]]; cbn; try lia. destruct (Z.even m); lia.
Qed.

Lemma slack_exact (l : location) : slack l = 0 <-> l = loc_Exact.
Proof. destruct l; cbn; split; congruence || lia. Qed.

Lemma slack_cases (l : location) : slack l = 0 \/ slack l = 1.
Proof. destruct l; cbn; lia. Qed.

Lemma bounded_canonical (b : positive) (eb : Z) :
  bounded prec emax b eb = true ->
  fexp64 (Zdigits2 (Zpos b) + eb) = eb /\ eb <= 971.
Proof.
  unfold bounded, canonical_mantissa. intros [E%Z.eqb_eq L%Z.leb_le]%andb_prop.
  split; [exact E|exact L].
Qed.

Lemma bounded_intro (b : positive) (eb : Z) :
  fexp64 (Zdigits2 (Zpos b) + eb) = eb -> eb <= 971 -> bounded prec emax b eb = true.
Proof.
  intros C L. unfold bounded, canonical_mantissa.
  apply andb_true_intro. split; [now apply Z.eqb_eq|now apply Z.leb_le].
Qed.

Lemma canonical_digits (m : positive) (e : Z) :
  bounded prec emax m e = true ->
  Zdigits2 (Zpos m) <= 53 /\ (e = -1074 \/ Zdigits2 (Zpos m) = 53) /\ -1074 <= e <= 971.
Proof.
  intros [C L]%bounded_canonical. rewrite fexp64_eq in C. lia.
Qed.

(** Rounding never crosses a representable bound: when the exact value,
    which lies in [m * 2^e, (m + 1) * 2^e) and equals [m * 2^e] if the
    location is exact, is at most the float [b * 2^eb], so is the result,
    and the result is zero or finite. *)
Lemma round_aux_bounded (sx : bool) (m e : Z) (l : location) (b : positive) (eb : Z) :
  0 <= m -> e <= eb ->
  m + slack l <= Zpos b * 2 ^ (eb - e) ->
  bounded prec emax b eb = true ->
  binary_round_aux prec emax sx m e l = S754_zero sx \/
  exists m' e',
    binary_round_aux prec emax sx m e l = S754_finite sx m' e' /\
    e <= e' <= eb /\ Zpos m' * 2 ^ (e' - e) <= Zpos b * 2 ^ (eb - e).
Proof.
  intros Hm Heb Hle Hb. destruct (bounded_canonical b eb Hb) as [Cb Lb].
  unfold binary_round_aux.
  pose proof (shr_fexp_spec m e l Hm) as S1.
  destruct (shr_fexp prec emax m e l) as [mrs1 e1].
  destruct S1 as (Hk1 & (Hm1 & Hsh1 & Hex1) & C1).
  rewrite shr_m_of_loc in Hsh1, Hex1. rewrite inexact_of_loc in Hex1.
  pose proof (round_nearest_even_bounds (shr_m mrs1) (loc_of_shr_record mrs1)) as Hr.
  set (m2 := round_nearest_even (shr_m mrs1) (loc_of_shr_record mrs1)) in *.
  pose proof (slack_cases l) as Hsl.
  pose proof (slack_cases (loc_of_shr_record mrs1)) as Hsl1.
  pose proof (slack_exact (loc_of_shr_record mrs1)) as Hse1.
  rewrite loc_of_shr_record_exact in Hse1.
  pose proof (slack_exact l) as Hse.
  assert (HA : e1 <= eb /\ m2 * 2 ^ (e1 - e) <= Zpos b * 2 ^ (eb - e)).
  { destruct C1 as [[K ->]|[K E1]].
    - assert (e1 = e) as -> by lia. rewrite shr_m_of_loc, loc_of_shr_record_of_loc in *.
      replace (e - e) with 0 by lia. cbn [Z.pow]. lia.
    - assert (He1 : e1 <= eb).
      { destruct (Z.eq_dec m 0) as [->|Hm0].
        - cbn [Zdigits2] in E1. rewrite fexp64_eq in *. lia.
        - assert (Zdigits2 m <= Zdigits2 (Zpos b) + (eb - e))
            by (apply Zdigits2_le_scaled; lia).
          rewrite fexp64_eq in *. lia. }
      split; [assumption|].
      replace (eb - e) with ((eb - e1) + (e1 - e)) in * by lia.
      rewrite Z.pow_add_r in * by lia.
      assert (0 < 2 ^ (e1 - e)) by (apply Z.pow_pos_nonneg; lia).
      assert (0 < 2 ^ (eb - e1)) by (apply Z.pow_pos_nonneg; lia).
      destruct Hsl1 as [Z1|Z1].
      + nia.
      + assert (shr_m mrs1 + 1 <= Zpos b * 2 ^ (eb - e1)); [|nia].
        destruct (Z.le_gt_cases (shr_m mrs1 + 1) (Zpos b * 2 ^ (eb - e1))) as [|Hgt];
          [assumption|exfalso].
        assert (shr_m mrs1 * 2 ^ (e1 - e) = m /\ slack l = 0) as [Em Es] by nia.
        assert (Hin : inexact mrs1 = false)
          by (apply Hex1; split; [exact Em|now apply Hse]).
        apply Hse1 in Hin. lia. }
  destruct HA as [He1 Hm2].
  assert (Hm2' : 0 <= m2) by lia.
  pose proof (shr_fexp_spec m2 e1 loc_Exact Hm2') as S2.
  destruct (shr_fexp prec emax m2 e1 loc_Exact) as [mrs2 e2].
  destruct S2 as (Hk2 & (Hm3 & Hsh2 & _) & C2).
  rewrite shr_m_of_loc in Hsh2.
  assert (0 < 2 ^ (e1 - e)) by (apply Z.pow_pos_nonneg; lia).
  assert (0 < 2 ^ (e2 - e1)) by (apply Z.pow_pos_nonneg; lia).
  assert (HB : shr_m mrs2 * 2 ^ (e2 - e) <= Zpos b * 2 ^ (eb - e)).
  { replace (e2 - e) with ((e2 - e1) + (e1 - e)) by lia.
    rewrite Z.pow_add_r by lia. nia. }
  destruct (shr_m mrs2) as [|m3|m3] eqn:Em3; [now left| |lia].
  right. exists m3, e2.
  assert (He2 : e2 <= eb).
  { destruct C2 as [[K _]|[K E2]]; [lia|].
    assert (0 < m2) by nia.
    assert (0 < 2 ^ (eb - e1)) by (apply Z.pow_pos_nonneg; lia).
    assert (m2 <= Zpos b * 2 ^ (eb - e1)).
    { replace (eb - e) with ((eb - e1) + (e1 - e)) in Hm2 by lia.
      rewrite Z.pow_add_r in Hm2 by lia. nia. }
    assert (Zdigits2 m2 <= Zdigits2 (Zpos b) + (eb - e1))
      by (apply Zdigits2_le_scaled; lia).
    rewrite fexp64_eq in *. lia. }
  replace (e2 <=? emax - prec) with true by (symmetry; apply Z.leb_le; cbn; lia).
  repeat split; try lia; exact HB.
Qed.

(** A float in canonical form rounds to itself. *)
Lemma round_aux_canonical (sx : bool) (b : positive) (eb : Z) :
  bounded prec emax b eb = true ->
  binary_round_aux prec emax sx (Zpos b) eb loc_Exact = S754_finite sx b eb.
Proof.
  intros Hb. destruct (bounded_canonical b eb Hb) as [C L].
  unfold binary_round_aux, shr_fexp. cbn [shr_record_of_loc].
  fold (fexp64 (Zdigits2 (Zpos b) + eb)). rewrite C, Z.sub_diag.
  cbn [shr shr_m loc_of_shr_record round_nearest_even].
  fold (fexp64 (Zdigits2 (Zpos b) + eb)). rewrite C, Z.sub_diag.
  cbn [shr shr_m]. replace (eb <=? emax - prec) with true; [reflexivity|].
  symmetry. apply Z.leb_le. exact L.
Qed.

Lemma slack_new_location (n r : Z) :
  slack (new_location n r) = if r =? 0 then 0 else 1.
Proof.
  unfold new_location, new_location_even, new_location_odd.
  destruct (Z.even n), (r =? 0); reflexivity.
Qed.

Definition one_m : positive := 4503599627370496.

(** The quotient of two positive floats [x <= y] is zero or a float of
    value at most 1. *)
Lemma SFdiv_le_one (mx my : positive) (ex ey : Z) :
  bounded prec emax mx ex = true -> bounded prec emax my ey = true ->
  ex < ey \/ (ex = ey /\ (mx <= my)%positive) ->
  let r := SF64div (S754_finite false mx ex) (S754_finite false my ey) in
  r = S754_zero false \/
  exists m e, r = S754_finite false m e /\ e <= -52 /\ Zpos m <= 2 ^ (- e).
Proof.
  intros Bx By Hxy.
  destruct (canonical_digits mx ex Bx) as (Dx & Nx & Rx).
  destruct (canonical_digits my ey By) as (Dy & Ny & Ry).
  pose proof (Zdigits2_bounds (Zpos mx) ltac:(lia)) as [Lx Ux].
  pose proof (Zdigits2_bounds (Zpos my) ltac:(lia)) as [Ly Uy].
  assert (Hmag : Zdigits2 (Zpos mx) + ex <= Zdigits2 (Zpos my) + ey).
  { destruct Hxy as [Hlt|[-> Hle]]; [lia|].
    assert (Zdigits2 (Zpos mx) <= Zdigits2 (Zpos my) + 0)
      by (apply Zdigits2_le_scaled; lia).
    lia. }
  cbv zeta. unfold SF64div, SFdiv, SFdiv_core_binary. cbn [xorb].
  fold (fexp64 (Zdigits2 (Zpos mx) + ex - (Zdigits2 (Zpos my) + ey))).
  set (e' := Z.min (fexp64 (Zdigits2 (Zpos mx) + ex - (Zdigits2 (Zpos my) + ey))) (ex - ey)).
  assert (He' : e' <= -53 /\ e' <= ex - ey).
  { unfold e'. rewrite fexp64_eq. lia. }
  set (s := ex - ey - e').
  assert (Hs : 0 <= s) by (unfold s; lia).
  set (m' := match s with Z.pos _ => Z.shiftl (Zpos mx) s | 0 => Zpos mx | Z.neg _ => 0 end).
  assert (Hm' : m' = Zpos mx * 2 ^ s).
  { unfold m'. destruct s as [|p|p]; [cbn; lia| |lia].
    now rewrite Z.shiftl_mul_pow2 by lia. }
  pose proof (Z_div_mod m' (Zpos my) ltac:(lia)) as Hdiv.
  destruct (Z.div_eucl m' (Zpos my)) as [q r]. destruct Hdiv as [Eq Hr].
  assert (P52 : 2 ^ 52 = 4503599627370496) by reflexivity.
  assert (P53 : 2 ^ 53 = 9007199254740992) by reflexivity.
  assert (Hpow : 0 < 2 ^ s) by (apply Z.pow_pos_nonneg; lia).
  assert (Hkey : Zpos mx * 2 ^ s <= Zpos my * 2 ^ (- e')).
  { destruct Hxy as [Hlt|[-> Hle]].
    - replace (- e') with (s + (ey - ex)) by (unfold s; lia).
      rewrite Z.pow_add_r by lia.
      assert (2 ^ 1 <= 2 ^ (ey - ex)) by (apply Z.pow_le_mono_r; lia).
      assert (Zdigits2 (Zpos my) = 53) as Ey by lia. rewrite Ey in Ly.
      assert (2 ^ Zdigits2 (Zpos mx) <= 2 ^ 53) by (apply Z.pow_le_mono_r; lia).
      replace (53 - 1) with 52 in Ly by lia. change (2 ^ 1) with 2 in *.
      assert (Hm2 : Zpos mx <= 2 * Zpos my) by lia.
      apply Z.le_trans with (Zpos my * (2 ^ s * 2)).
      + clear - Hm2 Hpow. nia.
      + apply Z.mul_le_mono_nonneg_l; [lia|].
        apply Z.mul_le_mono_nonneg_l; lia.
    - replace (- e') with s by (unfold s; lia). nia. }
  assert (Hq : 0 <= q) by nia.
  destruct (round_aux_bounded false q e' (new_location (Zpos my) r) one_m (-52))
    as [Hz|(m & e & Hf & He & Hv)].
  - exact Hq.
  - lia.
  - rewrite slack_new_location. change (Zpos one_m) with (2 ^ 52).
    rewrite <- Z.pow_add_r by lia. replace (52 + (-52 - e')) with (- e') by lia.
    destruct (Z.eqb_spec r 0); nia.
  - reflexivity.
  - now left.
  - right. exists m, e. split; [exact Hf|]. split; [lia|].
    change (Zpos one_m) with (2 ^ 52) in Hv.
    rewrite <- Z.pow_add_r in Hv by lia.
    replace (52 + (-52 - e')) with ((- e) + (e - e')) in Hv by lia.
    rewrite Z.pow_add_r in Hv by lia.
    assert (0 < 2 ^ (e - e')) by (apply Z.pow_pos_nonneg; lia).
    nia.
Qed.

(** The product of a float of value at most 1 and a positive float [w] is
    zero or a float of value at most [w]. *)
Lemma SFmul_le (m : positive) (e : Z) (b : positive) (eb : Z) :
  e <= 0 -> Zpos m <= 2 ^ (- e) -> bounded prec emax b eb = true ->
  let r := SF64mul (S754_finite false m e) (S754_finite false b eb) in
  r = S754_zero false \/
  exists m' e', r = S754_finite false m' e' /\
    e + eb <= e' <= eb /\ Zpos m' * 2 ^ (e' - (e + eb)) <= Zpos b * 2 ^ (- e).
Proof.
  intros He Hm Hb. cbv zeta. unfold SF64mul, SFmul. cbn [xorb].
  destruct (round_aux_bounded false (Zpos (m * b)) (e + eb) loc_Exact b eb)
    as [Hz|(m' & e' & Hf & He' & Hv)].
  - lia.
  - lia.
  - cbn [slack]. replace (eb - (e + eb)) with (- e) by lia. nia.
  - exact Hb.
  - now left.
  - right. exists m', e'. replace (eb - (e + eb)) with (- e) in Hv by lia. auto.
Qed.

Lemma pos_iter_xO (p d : positive) : Zpos (Pos.iter xO p d) = Zpos p * 2 ^ Zpos d.
Proof.
  induction d as [|d IH] using Pos.peano_ind.
  - cbn. lia.
  - rewrite Pos.iter_succ, Pos2Z.inj_succ, Z.pow_succ_r by lia.
    rewrite Pos2Z.inj_xO, IH. lia.
Qed.

(** An integer below [2^53] converts to a float without rounding. *)
Lemma binary_normalize_exact (W : Z) :
  1 <= W < 2 ^ 53 ->
  exists b eb,
    binary_normalize prec emax W 0 false = S754_finite false b eb /\
    bounded prec emax b eb = true /\ eb <= 0 /\ Zpos b = W * 2 ^ (- eb).
Proof.
  intros [HW1 HW2]. destruct W as [|p|p]; try lia.
  pose proof (Zdigits2_bounds (Zpos p) ltac:(lia)) as [Lp Up].
  assert (Hd : 1 <= Zdigits2 (Zpos p) <= 53).
  { split; [cbn; lia|].
    destruct (Z.le_gt_cases (Zdigits2 (Zpos p)) 53) as [|Hgt]; [assumption|].
    assert (2 ^ 53 <= 2 ^ (Zdigits2 (Zpos p) - 1)) by (apply Z.pow_le_mono_r; lia).
    lia. }
  unfold binary_normalize, binary_round, shl_align.
  change (Zpos (digits2_pos p)) with (Zdigits2 (Zpos p)).
  fold (fexp64 (Zdigits2 (Zpos p) + 0)). rewrite fexp64_eq.
  replace (Z.max (Zdigits2 (Zpos p) + 0 - 53) (-1074) - 0)
    with (Zdigits2 (Zpos p) - 53) by lia.
  destruct (Zdigits2 (Zpos p) - 53) as [|k|k] eqn:Ek; [|lia|].
  - assert (Hb : bounded prec emax p 0 = true).
    { apply bounded_intro; [rewrite fexp64_eq|]; lia. }
    exists p, 0. rewrite round_aux_canonical by exact Hb.
    repeat split; try assumption; cbn; lia.
  - replace (Z.max (Zdigits2 (Zpos p) + 0 - 53) (-1074)) with (Zneg k) by lia.
    assert (Hb : bounded prec emax (Pos.iter xO p k) (Zneg k) = true).
    { apply bounded_intro; [|lia]. rewrite pos_iter_xO, Zdigits2_mul_pow2 by lia.
      rewrite fexp64_eq. lia. }
    exists (Pos.iter xO p k), (Zneg k). rewrite round_aux_canonical by exact Hb.
    repeat split; try assumption; [lia|]. now rewrite pos_iter_xO.
Qed.

(** ** Rounding to nearest, as a function of the integer it rounds *)

Lemma iter_pos_nat {A} (f : A -> A) (p : positive) (x : A) :
  iter_pos f p x = Nat.iter (Pos.to_nat p) f x.
Proof.
  revert x. induction p as [p IH|p IH|]; intros x; cbn [iter_pos].
  - rewrite !IH, Pos2Nat.inj_xI. cbn [Nat.mul]. rewrite Nat.add_0_r.
    rewrite <- Nat.iter_add. now rewrite <- Nat.iter_succ_r.
  - rewrite !IH, Pos2Nat.inj_xO. cbn [Nat.mul]. rewrite Nat.add_0_r.
    now rewrite <- Nat.iter_add.
  - reflexivity.
Qed.

(** The record after [n >= 1] right shifts of the exact integer [m]: the
    quotient, whether the remainder reaches the half, and whether it is
    neither zero nor the half. *)
Definition shr_exact (m : Z) (n : Z) (mrs : shr_record) : Prop :=
  let rest := m mod 2 ^ n in
  let half := 2 ^ (n - 1) in
  shr_m mrs = m / 2 ^ n /\
  (shr_r mrs = true <-> half <= rest) /\
  (shr_s mrs = true <-> rest <> 0 /\ rest <> half).

Lemma shr_1_m (mrs : shr_record) :
  0 <= shr_m mrs ->
  shr_m (shr_1 mrs) = shr_m mrs / 2 /\
  shr_r (shr_1 mrs) = Z.odd (shr_m mrs) /\
  shr_s (shr_1 mrs) = shr_r mrs || shr_s mrs.
Proof.
  destruct mrs as [m r s]. cbn [shr_m shr_r shr_s shr_1]. intros Hm.
  destruct m as [|[p|p|]|p]; cbn [shr_m shr_r shr_s]; try lia; repeat split.
  - rewrite Pos2Z.inj_xI. apply Z.div_unique with 1; lia.
  - rewrite Pos2Z.inj_xO. apply Z.div_unique with 0; lia.
Qed.

Lemma pow2_pos (n : Z) : 0 <= n -> 0 < 2 ^ n.
Proof. intros Hn. apply Z.pow_pos_nonneg; lia. Qed.

(** Splitting off one more bit of the remainder. *)
Lemma mod_pow2_succ (m n : Z) :
  0 <= m -> 0 <= n ->
  m mod 2 ^ (n + 1) = (m / 2 ^ n) mod 2 * 2 ^ n + m mod 2 ^ n /\
  m / 2 ^ (n + 1) = m / 2 ^ n / 2.
Proof.
  intros Hm Hn. pose proof (pow2_pos n Hn) as Hp.
  rewrite Z.pow_add_r, Z.pow_1_r by lia. split.
  - rewrite Z.rem_mul_r by lia. lia.
  - now rewrite Z.div_div by lia.
Qed.

Lemma shr_exact_first (m : Z) :
  0 <= m -> shr_exact m 1 (shr_1 (shr_record_of_loc m loc_Exact)).
Proof.
  intros Hm. unfold shr_exact. cbn [shr_record_of_loc].
  destruct (shr_1_m {| shr_m := m; shr_r := false; shr_s := false |} Hm) as (E1 & E2 & E3).
  cbn [shr_m shr_r shr_s] in *. rewrite E1, E2, E3. cbn [orb Z.sub Z.pow Z.pow_pos Pos.iter Z.mul Pos.mul].
  change (2 ^ 1) with 2. change (2 ^ (1 - 1)) with 1.
  pose proof (Z.mod_pos_bound m 2 ltac:(lia)).
  rewrite Zodd_mod. split; [reflexivity|]. split.
  - destruct (Z.eqb_spec (m mod 2) 1); split; intros; try lia; try discriminate; reflexivity.
  - split; [discriminate|]. lia.
Qed.

Lemma shr_exact_step (m n : Z) (mrs : shr_record) :
  0 <= m -> 1 <= n -> shr_exact m n mrs -> shr_exact m (n + 1) (shr_1 mrs).
Proof.
  unfold shr_exact. intros Hm Hn (Em & Er & Es).
  pose proof (pow2_pos n ltac:(lia)) as Hp.
  pose proof (pow2_pos (n - 1) ltac:(lia)) as Hp'.
  assert (Hpp : 2 ^ n = 2 * 2 ^ (n - 1)).
  { replace n with (n - 1 + 1) at 1 by lia. rewrite Z.pow_add_r by lia. lia. }
  assert (Hm1 : 0 <= shr_m mrs) by (rewrite Em; apply Z.div_pos; lia).
  destruct (shr_1_m mrs Hm1) as (E1 & E2 & E3).
  destruct (mod_pow2_succ m n Hm ltac:(lia)) as [Hmod Hdiv].
  pose proof (Z.mod_pos_bound m (2 ^ n) Hp) as Hrest.
  pose proof (Z.mod_pos_bound (m / 2 ^ n) 2 ltac:(lia)) as Hbit.
  replace (n + 1 - 1) with n by lia.
  rewrite E1, E2, E3, Em, Hmod, Hdiv. split; [reflexivity|].
  rewrite Zodd_mod, orb_true_iff, Er, Es.
  set (b := (m / 2 ^ n) mod 2) in *. set (rest := m mod 2 ^ n) in *.
  set (P := 2 ^ n) in *. set (h := 2 ^ (n - 1)) in *.
  clearbody b rest P h. clear - Hbit Hrest Hpp Hp'.
  assert (Hb : b = 0 \/ b = 1) by lia.
  destruct Hb as [-> | ->].
  - change (0 =? 1) with false. split; [split; [discriminate|lia]|lia].
  - change (1 =? 1) with true. split; [split; [lia|reflexivity]|lia].
Qed.

Lemma shr_exact_iter (m : Z) (n : nat) :
  0 <= m ->
  shr_exact m (Z.of_nat (S n)) (Nat.iter (S n) shr_1 (shr_record_of_loc m loc_Exact)).
Proof.
  intros Hm. induction n as [|n IH].
  - now apply shr_exact_first.
  - replace (Z.of_nat (S (S n))) with (Z.of_nat (S n) + 1) by lia.
    apply shr_exact_step; [assumption|lia|exact IH].
Qed.

(** [m / 2^k] rounded to nearest, ties to even. *)
Definition rne (m k : Z) : Z :=
  let q := m / 2 ^ k in
  match 2 * (m mod 2 ^ k) ?= 2 ^ k with
  | Lt => q
  | Eq => if Z.even q then q else q + 1
  | Gt => q + 1
  end.

Lemma rne_0 (m : Z) : rne m 0 = m.
Proof. unfold rne. cbn [Z.pow]. rewrite Z.mod_1_r, Z.div_1_r. reflexivity. Qed.

Lemma rne_bounds (m k : Z) : m / 2 ^ k <= rne m k <= m / 2 ^ k + 1.
Proof.
  unfold rne. destruct (2 * (m mod 2 ^ k) ?= 2 ^ k); try lia.
  destruct (Z.even (m / 2 ^ k)); lia.
Qed.

Lemma round_shr_exact (m n : Z) (mrs : shr_record) :
  0 <= m -> 1 <= n -> shr_exact m n mrs ->
  round_nearest_even (shr_m mrs) (loc_of_shr_record mrs) = rne m n.
Proof.
  unfold shr_exact, rne. intros Hm Hn (Em & Er & Es).
  pose proof (pow2_pos (n - 1) ltac:(lia)) as Hh.
  assert (Hpp : 2 ^ n = 2 * 2 ^ (n - 1)).
  { replace n with (n - 1 + 1) at 1 by lia. rewrite Z.pow_add_r by lia. lia. }
  pose proof (Z.mod_pos_bound m (2 ^ n) ltac:(lia)) as Hrest.
  destruct mrs as [mm r s]. cbn [shr_m shr_r shr_s] in *. subst mm.
  set (rest := m mod 2 ^ n) in *. set (h := 2 ^ (n - 1)) in *.
  destruct r, s; cbn [loc_of_shr_record round_nearest_even].
  - assert (h < rest) by (destruct Er as [Er _], Es as [Es _]; specialize (Er eq_refl);
      specialize (Es eq_refl); lia).
    replace (2 * rest ?= 2 ^ n) with Gt; [reflexivity|]. symmetry. apply Z.compare_gt_iff. lia.
  - assert (rest = h).
    { destruct Er as [Er _]. specialize (Er eq_refl).
      destruct (Z.eq_dec rest h) as [|N]; [assumption|].
      assert (false = true) by (apply Es; lia). discriminate. }
    replace (2 * rest ?= 2 ^ n) with Eq; [reflexivity|]. symmetry. apply Z.compare_eq_iff. lia.
  - assert (0 < rest < h).
    { destruct Es as [Es _]. specialize (Es eq_refl).
      destruct (Z.le_gt_cases h rest) as [Hle|]; [|lia].
      assert (false = true) by (apply Er; lia). discriminate. }
    replace (2 * rest ?= 2 ^ n) with Lt; [reflexivity|]. symmetry. apply Z.compare_lt_iff. lia.
  - assert (rest = 0).
    { destruct (Z.eq_dec rest 0) as [|N]; [assumption|].
      destruct (Z.le_gt_cases h rest) as [Hle|].
      - assert (false = true) by (apply Er; lia). discriminate.
      - assert (false = true) by (apply Es; lia). discriminate. }
    replace (2 * rest ?= 2 ^ n) with Lt; [reflexivity|]. symmetry. apply Z.compare_lt_iff. lia.
Qed.

(** The first shift of [binary_round_aux] on an exact integer whose
    exponent is at most the canonical one. *)
Lemma shr_fexp_exact (m e : Z) :
  0 <= m -> e <= fexp64 (Zdigits2 m + e) ->
  let E := fexp64 (Zdigits2 m + e) in
  let '(mrs, e1) := shr_fexp prec emax m e loc_Exact in
  e1 = E /\ round_nearest_even (shr_m mrs) (loc_of_shr_record mrs) = rne m (E - e).
Proof.
  intros Hm He. cbv zeta. unfold shr_fexp, shr. fold (fexp64 (Zdigits2 m + e)).
  destruct (fexp64 (Zdigits2 m + e) - e) as [|p|p] eqn:Ek; [| |lia].
  - split; [lia|]. now rewrite rne_0.
  - split; [lia|]. rewrite iter_pos_nat.
    destruct (Pos2Nat.is_succ p) as [n En]. rewrite En.
    replace (Zpos p) with (Z.of_nat (S n)) by lia.
    apply round_shr_exact; [assumption|lia|now apply shr_exact_iter].
Qed.

Lemma rne_mono (m m' k : Z) : 0 <= k -> m <= m' -> rne m k <= rne m' k.
Proof.
  intros Hk Hm. pose proof (pow2_pos k Hk) as HP.
  pose proof (Z.div_le_mono m m' (2 ^ k) HP Hm) as Hq.
  destruct (Z.eq_dec (m / 2 ^ k) (m' / 2 ^ k)) as [Eq|Nq].
  - pose proof (Z.div_mod m (2 ^ k) ltac:(lia)) as Dm.
    pose proof (Z.div_mod m' (2 ^ k) ltac:(lia)) as Dm'.
    assert (Hr : m mod 2 ^ k <= m' mod 2 ^ k) by (rewrite Eq in Dm; lia).
    unfold rne. rewrite Eq.
    destruct (Z.compare_spec (2 * (m mod 2 ^ k)) (2 ^ k)),
             (Z.compare_spec (2 * (m' mod 2 ^ k)) (2 ^ k)); try lia;
      destruct (Z.even (m' / 2 ^ k)); lia.
  - pose proof (rne_bounds m k). pose proof (rne_bounds m' k). lia.
Qed.

Lemma rne_scale (m j k : Z) : 0 <= j -> 0 <= k -> rne (m * 2 ^ j) (k + j) = rne m k.
Proof.
  intros Hj Hk. pose proof (pow2_pos j Hj) as Pj. pose proof (pow2_pos k Hk) as Pk.
  unfold rne. rewrite Z.pow_add_r by assumption.
  rewrite Z.div_mul_cancel_r by lia. rewrite Z.mul_mod_distr_r by lia.
  replace (2 * (m mod 2 ^ k * 2 ^ j)) with (2 * (m mod 2 ^ k) * 2 ^ j) by lia.
  rewrite <- Zmult_compare_compat_r by lia. reflexivity.
Qed.

(** Rounding to a float, on the scale of the least subnormal: [n] stands for
    the real [n * 2^-1074]. *)
Definition kexp (n : Z) : Z := Z.max (Zdigits2 n - 53) 0.
Definition rnd (n : Z) : Z := rne n (kexp n) * 2 ^ kexp n.

Lemma kexp_nonneg (n : Z) : 0 <= kexp n.
Proof. unfold kexp. lia. Qed.

Lemma Zdigits2_mono (n n' : Z) : 0 < n -> n <= n' -> Zdigits2 n <= Zdigits2 n'.
Proof.
  intros Hn Hle. pose proof (Zdigits2_le_scaled n n' 0 Hn ltac:(lia) ltac:(lia)) as H.
  cbn [Z.pow] in H. lia.
Qed.

Lemma rnd_0 : rnd 0 = 0.
Proof. reflexivity. Qed.

Lemma rnd_lower (n : Z) : 0 < n -> 2 ^ (Zdigits2 n - 1) <= rnd n.
Proof.
  intros Hn. unfold rnd. pose proof (kexp_nonneg n) as Hk.
  pose proof (Zdigits2_bounds n Hn) as [Lo Hi].
  pose proof (Zdigits2_nonneg n) as Hd.
  assert (Hd1 : 1 <= Zdigits2 n).
  { destruct (Z.le_gt_cases 1 (Zdigits2 n)) as [|G]; [assumption|].
    replace (Zdigits2 n) with 0 in Hi by lia. cbn in Hi. lia. }
  assert (Hkd : kexp n <= Zdigits2 n - 1) by (unfold kexp; lia).
  pose proof (rne_bounds n (kexp n)) as [Hq _].
  pose proof (pow2_pos (kexp n) Hk) as Pk.
  assert (2 ^ (Zdigits2 n - 1 - kexp n) <= n / 2 ^ kexp n).
  { apply Z.div_le_lower_bound; [assumption|].
    rewrite <- Z.pow_add_r by lia.
    replace (kexp n + (Zdigits2 n - 1 - kexp n)) with (Zdigits2 n - 1) by lia. exact Lo. }
  assert (Ep : 2 ^ (Zdigits2 n - 1) = 2 ^ (Zdigits2 n - 1 - kexp n) * 2 ^ kexp n).
  { rewrite <- Z.pow_add_r by lia. f_equal. lia. }
  rewrite Ep. nia.
Qed.

Lemma rnd_upper (n : Z) : 0 < n -> rnd n <= 2 ^ Zdigits2 n.
Proof.
  intros Hn. unfold rnd. pose proof (kexp_nonneg n) as Hk.
  pose proof (Zdigits2_bounds n Hn) as [Lo Hi].
  pose proof (Zdigits2_nonneg n) as Hd.
  assert (Hd1 : 1 <= Zdigits2 n).
  { destruct (Z.le_gt_cases 1 (Zdigits2 n)) as [|G]; [assumption|].
    replace (Zdigits2 n) with 0 in Hi by lia. cbn in Hi. lia. }
  assert (Hkd : kexp n <= Zdigits2 n - 1) by (unfold kexp; lia).
  pose proof (rne_bounds n (kexp n)) as [_ Hq].
  pose proof (pow2_pos (kexp n) Hk) as Pk.
  assert (n / 2 ^ kexp n < 2 ^ (Zdigits2 n - kexp n)).
  { apply Z.div_lt_upper_bound; [assumption|].
    rewrite <- Z.pow_add_r by lia.
    replace (kexp n + (Zdigits2 n - kexp n)) with (Zdigits2 n) by lia. exact Hi. }
  assert (Ep : 2 ^ Zdigits2 n = 2 ^ (Zdigits2 n - kexp n) * 2 ^ kexp n).
  { rewrite <- Z.pow_add_r by lia. f_equal. lia. }
  rewrite Ep. nia.
Qed.

Lemma rnd_pos (n : Z) : 0 < n -> 0 < rnd n.
Proof.
  intros Hn. pose proof (rnd_lower n Hn).
  pose proof (Zdigits2_bounds n Hn) as [_ Hi].
  assert (0 < 2 ^ (Zdigits2 n - 1)); [|lia].
  apply pow2_pos. pose proof (Zdigits2_nonneg n).
  destruct (Z.le_gt_cases 1 (Zdigits2 n)) as [|G]; [lia|].
  replace (Zdigits2 n) with 0 in Hi by lia. cbn in Hi. lia.
Qed.

(** Rounding is monotone. *)
Lemma rnd_mono (n n' : Z) : 0 <= n -> n <= n' -> rnd n <= rnd n'.
Proof.
  intros Hn Hle. destruct (Z.eq_dec n 0) as [->|N0].
  - rewrite rnd_0. destruct (Z.eq_dec n' 0) as [->|]; [reflexivity|].
    pose proof (rnd_pos n'). lia.
  - pose proof (Zdigits2_mono n n' ltac:(lia) Hle) as Hd.
    destruct (Z.eq_dec (kexp n) (kexp n')) as [Ek|Nk].
    + unfold rnd. rewrite Ek. pose proof (kexp_nonneg n') as Hk.
      pose proof (rne_mono n n' (kexp n') Hk Hle).
      pose proof (pow2_pos (kexp n') Hk). nia.
    + assert (Zdigits2 n <= Zdigits2 n' - 1) by (unfold kexp in Nk; lia).
      pose proof (rnd_upper n ltac:(lia)). pose proof (rnd_lower n' ltac:(lia)).
      pose proof (Zdigits2_nonneg n).
      pose proof (Z.pow_le_mono_r 2 (Zdigits2 n) (Zdigits2 n' - 1) ltac:(lia) ltac:(lia)).
      lia.
Qed.

(** What [binary_round_aux] computes from an exact integer whose exponent is
    at most the canonical one. *)
Lemma round_aux_exact (s : bool) (m e : Z) :
  0 <= m -> e <= fexp64 (Zdigits2 m + e) ->
  let E := fexp64 (Zdigits2 m + e) in
  match binary_round_aux prec emax s m e loc_Exact with
  | S754_zero _ => rne m (E - e) = 0
  | S754_finite _ m3 e3 => E <= e3 /\ Zpos m3 * 2 ^ (e3 - E) = rne m (E - e)
  | _ => True
  end.
Proof.
  intros Hm He E. unfold binary_round_aux.
  pose proof (shr_fexp_exact m e Hm He) as S1. cbv zeta in S1. fold E in S1.
  destruct (shr_fexp prec emax m e loc_Exact) as [mrs1 e1].
  destruct S1 as [-> ->].
  set (m2 := rne m (E - e)).
  assert (HE : -1074 <= E /\ Zdigits2 m + e - 53 <= E) by (unfold E; rewrite fexp64_eq; lia).
  assert (Hm2 : 0 <= m2 <= 2 ^ 53).
  { pose proof (rne_bounds m (E - e)) as [Lo Hi]. fold m2 in Lo, Hi.
    pose proof (pow2_pos (E - e) ltac:(lia)) as Pk.
    pose proof (Z.div_pos m (2 ^ (E - e)) Hm Pk).
    split; [lia|].
    assert (m / 2 ^ (E - e) < 2 ^ 53); [|lia].
    apply Z.div_lt_upper_bound; [assumption|].
    rewrite <- Z.pow_add_r by lia.
    destruct (Z.eq_dec m 0) as [->|N0]; [apply pow2_pos; lia|].
    pose proof (Zdigits2_bounds m ltac:(lia)) as [_ Hi'].
    pose proof (Zdigits2_nonneg m).
    pose proof (Z.pow_le_mono_r 2 (Zdigits2 m) (E - e + 53) ltac:(lia) ltac:(lia)).
    lia. }
  pose proof (shr_fexp_spec m2 E loc_Exact ltac:(lia)) as S2.
  destruct (shr_fexp prec emax m2 E loc_Exact) as [mrs2 e2].
  destruct S2 as (Hk2 & (Hm3 & Hsh2 & _) & C2).
  rewrite shr_m_of_loc in Hsh2.
  destruct C2 as [[K ->]|[K E2]].
  - assert (e2 = E) as -> by lia. rewrite shr_m_of_loc.
    destruct m2 as [|p|p] eqn:Em2; [reflexivity| |lia].
    destruct (E <=? emax - prec); [|exact I].
    split; [lia|]. replace (E - E) with 0 by lia. cbn [Z.pow]. lia.
  - assert (Hd : 54 <= Zdigits2 m2) by (rewrite fexp64_eq in E2; lia).
    assert (Hpos : 0 < m2).
    { destruct (Z.eq_dec m2 0) as [Z0|]; [|lia]. rewrite Z0 in Hd. cbn in Hd. lia. }
    pose proof (Zdigits2_bounds m2 Hpos) as [Lo _].
    pose proof (Z.pow_le_mono_r 2 53 (Zdigits2 m2 - 1) ltac:(lia) ltac:(lia)) as Hp.
    assert (Em2 : m2 = 2 ^ 53) by lia.
    rewrite Em2 in E2. change (Zdigits2 (2 ^ 53)) with 54 in E2.
    rewrite fexp64_eq in E2.
    assert (e2 = E + 1) as -> by lia.
    replace (E + 1 - E) with 1 in Hsh2 by lia. rewrite Em2 in Hsh2.
    change (2 ^ 1) with 2 in Hsh2.
    assert (Em3 : shr_m mrs2 = 2 ^ 52).
    { change (2 ^ 53) with (2 * 2 ^ 52) in Hsh2. lia. }
    rewrite Em3. change (2 ^ 52) with (Zpos 4503599627370496).
    destruct (E + 1 <=? emax - prec); [|exact I].
    split; [lia|]. replace (E + 1 - E) with 1 by lia. rewrite Em2. reflexivity.
Qed.

(** The value of a non-negative float, in units of [2^-1074]. *)
Definition val (x : spec_float) : Z :=
  match x with
  | S754_finite false m e => Zpos m * 2 ^ (e + 1074)
  | _ => 0
  end.

Definition valid_nonneg (x : spec_float) : bool :=
  match x with
  | S754_zero _ => true
  | S754_finite false m e => bounded prec emax m e
  | _ => false
  end.

Lemma kexp_scaled (m : positive) (e : Z) :
  -1074 <= e -> kexp (Zpos m * 2 ^ (e + 1074)) = fexp64 (Zdigits2 (Zpos m) + e) + 1074.
Proof.
  intros He. unfold kexp. rewrite Zdigits2_mul_pow2 by lia. rewrite fexp64_eq. lia.
Qed.

(** [binary_round] aligns the mantissa to the canonical exponent first. *)
Lemma shl_align_fexp (m : positive) (e : Z) :
  let E := fexp64 (Zdigits2 (Zpos m) + e) in
  let '(m1, e1) := shl_align m e E in
  e1 <= E /\ fexp64 (Zdigits2 (Zpos m1) + e1) = E /\ e1 <= e /\
  Zpos m1 = Zpos m * 2 ^ (e - e1) /\ (e1 = e \/ e1 = E).
Proof.
  cbv zeta. unfold shl_align.
  destruct (fexp64 (Zdigits2 (Zpos m) + e) - e) as [|d|d] eqn:Ed.
  - replace (e - e) with 0 by lia. cbn [Z.pow]. repeat split; lia.
  - replace (e - e) with 0 by lia. cbn [Z.pow]. repeat split; lia.
  - rewrite pos_iter_xO.
    replace (e - fexp64 (Zdigits2 (Zpos m) + e)) with (Zpos d) by lia.
    rewrite Zdigits2_mul_pow2 by lia.
    replace (Zdigits2 (Zpos m) + Zpos d + fexp64 (Zdigits2 (Zpos m) + e))
      with (Zdigits2 (Zpos m) + e) by lia.
    repeat split; lia.
Qed.

Lemma binary_round_exact (s : bool) (m : positive) (e : Z) :
  -1074 <= e ->
  match binary_round prec emax s m e with
  | S754_zero _ => False
  | S754_finite _ m3 e3 =>
      -1074 <= e3 /\ Zpos m3 * 2 ^ (e3 + 1074) = rnd (Zpos m * 2 ^ (e + 1074))
  | _ => True
  end.
Proof.
  intros He. unfold binary_round. fold (fexp64 (Zpos (digits2_pos m) + e)).
  change (Zpos (digits2_pos m)) with (Zdigits2 (Zpos m)).
  pose proof (shl_align_fexp m e) as HA. cbv zeta in HA.
  set (E := fexp64 (Zdigits2 (Zpos m) + e)) in *.
  destruct (shl_align m e E) as [m1 e1]. destruct HA as (H1 & H2 & H3 & H4 & H5).
  assert (HE : -1074 <= E) by (unfold E; rewrite fexp64_eq; lia).
  pose proof (round_aux_exact s (Zpos m1) e1 ltac:(lia) ltac:(lia)) as HR.
  cbv zeta in HR. rewrite H2 in HR.
  assert (Hn : rnd (Zpos m * 2 ^ (e + 1074)) = rne (Zpos m1) (E - e1) * 2 ^ (E + 1074)).
  { unfold rnd. rewrite kexp_scaled by assumption. fold E.
    f_equal. rewrite H4.
    replace (Zpos m * 2 ^ (e + 1074)) with (Zpos m * 2 ^ (e - e1) * 2 ^ (e1 + 1074)).
    - replace (E + 1074) with ((E - e1) + (e1 + 1074)) by lia.
      apply rne_scale; lia.
    - rewrite <- Z.mul_assoc, <- Z.pow_add_r by lia. do 2 f_equal. lia. }
  pose proof (rnd_pos (Zpos m * 2 ^ (e + 1074))) as Hpos.
  assert (0 < 2 ^ (e + 1074)) by (apply pow2_pos; lia).
  assert (0 < 2 ^ (E + 1074)) by (apply pow2_pos; lia).
  destruct (binary_round_aux prec emax s (Zpos m1) e1 loc_Exact) as [z|i| |s3 m3 e3];
    try exact I.
  - rewrite HR in Hn. nia.
  - destruct HR as [G1 G2]. split; [lia|]. rewrite Hn, <- G2.
    rewrite <- Z.mul_assoc, <- Z.pow_add_r by lia. do 2 f_equal. lia.
Qed.

(** A positive value no greater than a float rounds to a float: it does not
    overflow, and its value is the rounding of the exact one. *)
Lemma binary_round_finite (m : positive) (e : Z) (b : positive) (eb : Z) :
  -1074 <= e -> bounded prec emax b eb = true ->
  Zpos m * 2 ^ (e + 1074) <= Zpos b * 2 ^ (eb + 1074) ->
  exists m3 e3,
    binary_round prec emax false m e = S754_finite false m3 e3 /\
    val (S754_finite false m3 e3) = rnd (Zpos m * 2 ^ (e + 1074)).
Proof.
  intros He Hb Hle. pose proof (binary_round_exact false m e He) as HX.
  destruct (canonical_digits b eb Hb) as (Db & _ & Hbe).
  destruct (bounded_canonical b eb Hb) as [Cb _].
  unfold binary_round in *. fold (fexp64 (Zpos (digits2_pos m) + e)) in *.
  change (Zpos (digits2_pos m)) with (Zdigits2 (Zpos m)) in *.
  pose proof (shl_align_fexp m e) as HA. cbv zeta in HA.
  set (E := fexp64 (Zdigits2 (Zpos m) + e)) in *.
  destruct (shl_align m e E) as [m1 e1]. destruct HA as (H1 & H2 & H3 & H4 & H5).
  assert (HE : -1074 <= E) by (unfold E; rewrite fexp64_eq; lia).
  assert (Hmag : Zdigits2 (Zpos m) + e <= Zdigits2 (Zpos b) + eb).
  { assert (0 < 2 ^ (e + 1074)) by (apply pow2_pos; lia).
    pose proof (Zdigits2_le_scaled (Zpos m * 2 ^ (e + 1074)) (Zpos b) (eb + 1074)
                  ltac:(nia) ltac:(lia) ltac:(lia) Hle) as Hd.
    rewrite Zdigits2_mul_pow2 in Hd by lia. lia. }
  assert (HEb : E <= eb) by (unfold E; rewrite fexp64_eq in *; lia).
  assert (Hle1 : Zpos m1 + slack loc_Exact <= Zpos b * 2 ^ (eb - e1)).
  { cbn [slack]. rewrite Z.add_0_r, H4.
    assert (0 < 2 ^ (e1 + 1074)) by (apply pow2_pos; lia).
    apply (Z.mul_le_mono_pos_r _ _ (2 ^ (e1 + 1074))); [assumption|].
    rewrite <- !Z.mul_assoc, <- !Z.pow_add_r by lia.
    replace (e - e1 + (e1 + 1074)) with (e + 1074) by lia.
    replace (eb - e1 + (e1 + 1074)) with (eb + 1074) by lia. exact Hle. }
  destruct (round_aux_bounded false (Zpos m1) e1 loc_Exact b eb
              ltac:(lia) ltac:(lia) Hle1 Hb) as [Ez|(m3 & e3 & Ef & _)].
  - rewrite Ez in HX. destruct HX.
  - rewrite Ef in HX. exists m3, e3. split; [exact Ef|]. cbn [val]. apply HX.
Qed.

(** A float is its own rounding. *)
Lemma rnd_val (m : positive) (e : Z) :
  bounded prec emax m e = true -> rnd (Zpos m * 2 ^ (e + 1074)) = Zpos m * 2 ^ (e + 1074).
Proof.
  intros Hb. destruct (canonical_digits m e Hb) as (_ & _ & He).
  destruct (bounded_canonical m e Hb) as [C _].
  unfold rnd. rewrite kexp_scaled by lia. rewrite C.
  replace (e + 1074) with (0 + (e + 1074)) at 2 by lia.
  rewrite rne_scale by lia. now rewrite rne_0.
Qed.

(** The order of the non-negative floats is the order of their values. *)
Lemma val_lt_lex (m m' : positive) (e e' : Z) :
  bounded prec emax m e = true -> bounded prec emax m' e' = true ->
  e < e' \/ (e = e' /\ (m < m')%positive) ->
  Zpos m * 2 ^ (e + 1074) < Zpos m' * 2 ^ (e' + 1074).
Proof.
  intros Hb Hb' [Hlt|[-> Hlt]].
  - destruct (canonical_digits m e Hb) as (D & _ & He).
    destruct (canonical_digits m' e' Hb') as (_ & [G|D'] & He'); [lia|].
    pose proof (Zdigits2_bounds (Zpos m) ltac:(lia)) as [_ Hi].
    pose proof (Zdigits2_bounds (Zpos m') ltac:(lia)) as [Lo _].
    rewrite D' in Lo. change (2 ^ (53 - 1)) with (2 ^ 52) in Lo.
    pose proof (Z.pow_le_mono_r 2 (Zdigits2 (Zpos m)) 53 ltac:(lia) D) as Hp.
    assert (0 < 2 ^ (e + 1074)) by (apply pow2_pos; lia).
    assert (0 < 2 ^ (e' + 1074)) by (apply pow2_pos; lia).
    pose proof (Z.pow_le_mono_r 2 (53 + (e + 1074)) (52 + (e' + 1074)) ltac:(lia) ltac:(lia))
      as Hq.
    rewrite (Z.pow_add_r 2 53), (Z.pow_add_r 2 52) in Hq by lia.
    apply Z.lt_le_trans with (2 ^ 53 * 2 ^ (e + 1074)); [nia|].
    apply Z.le_trans with (2 ^ 52 * 2 ^ (e' + 1074)); [exact Hq|nia].
  - destruct (canonical_digits m e' Hb) as (_ & _ & He).
    assert (0 < 2 ^ (e' + 1074)) by (apply pow2_pos; lia). nia.
Qed.

Lemma val_nonneg (x : spec_float) : 0 <= val x.
Proof.
  destruct x as [s|s| |[] m e]; cbn [val]; lia.
Qed.

Lemma val_leb (x y : spec_float) :
  valid_nonneg x = true -> valid_nonneg y = true ->
  (SFleb x y = true <-> val x <= val y).
Proof.
  intros Hx Hy. pose proof (SFcompare_ord x y) as Ho. unfold SFleb.
  destruct x as [sx|sx| |[] mx ex]; try discriminate;
    destruct y as [sy|sy| |[] my ey]; try discriminate;
    cbn [valid_nonneg] in Hx, Hy.
  - cbn. split; [lia|reflexivity].
  - cbn [SFcompare val]. destruct (canonical_digits my ey Hy) as (_ & _ & He).
    pose proof (pow2_pos (ey + 1074) ltac:(lia)). split; [nia|reflexivity].
  - cbn [SFcompare val]. destruct (canonical_digits mx ex Hx) as (_ & _ & He).
    pose proof (pow2_pos (ex + 1074) ltac:(lia)). split; [discriminate|nia].
  - cbn [val]. unfold ord_lt, ord_eq in Ho. cbn [ord1 ord2 ord3] in Ho.
    pose proof (val_lt_lex mx my ex ey Hx Hy) as L1.
    pose proof (val_lt_lex my mx ey ex Hy Hx) as L2.
    destruct (SFcompare (S754_finite false mx ex) (S754_finite false my ey)) as [[]|].
    + destruct Ho as (_ & -> & Em). injection Em as ->. split; [lia|reflexivity].
    + split; [intros _|reflexivity].
      assert (ex < ey \/ ex = ey /\ (mx < my)%positive) as G by lia.
      specialize (L1 G). lia.
    + split; [discriminate|]. intros Hle.
      assert (ey < ex \/ ey = ex /\ (my < mx)%positive) as G by lia.
      specialize (L2 G). lia.
    + destruct Ho; discriminate.
Qed.

Lemma val_eqb (x y : spec_float) :
  valid_nonneg x = true -> valid_nonneg y = true ->
  (SFeqb x y = true <-> val x = val y).
Proof.
  intros Hx Hy. pose proof (SFcompare_ord x y) as Ho. unfold SFeqb.
  destruct x as [sx|sx| |[] mx ex]; try discriminate;
    destruct y as [sy|sy| |[] my ey]; try discriminate;
    cbn [valid_nonneg] in Hx, Hy.
  - cbn. split; reflexivity.
  - cbn [SFcompare val]. destruct (canonical_digits my ey Hy) as (_ & _ & He).
    pose proof (pow2_pos (ey + 1074) ltac:(lia)). split; [discriminate|nia].
  - cbn [SFcompare val]. destruct (canonical_digits mx ex Hx) as (_ & _ & He).
    pose proof (pow2_pos (ex + 1074) ltac:(lia)). split; [discriminate|nia].
  - cbn [val]. unfold ord_lt, ord_eq in Ho. cbn [ord1 ord2 ord3] in Ho.
    pose proof (val_lt_lex mx my ex ey Hx Hy) as L1.
    pose proof (val_lt_lex my mx ey ex Hy Hx) as L2.
    destruct (SFcompare (S754_finite false mx ex) (S754_finite false my ey)) as [[]|].
    + destruct Ho as (_ & -> & Em). injection Em as ->. split; reflexivity.
    + split; [discriminate|]. intros E.
      assert (ex < ey \/ ex = ey /\ (mx < my)%positive) as G by lia.
      specialize (L1 G). lia.
    + split; [discriminate|]. intros E.
      assert (ey < ex \/ ey = ex /\ (my < mx)%positive) as G by lia.
      specialize (L2 G). lia.
    + destruct Ho; discriminate.
Qed.

Lemma shl_align_val (m : positive) (e e' : Z) :
  e' <= e -> Zpos (fst (shl_align m e e')) = Zpos m * 2 ^ (e - e').
Proof.
  intros He. unfold shl_align. destruct (e' - e) as [|d|d] eqn:Ed; cbn [fst].
  - replace (e - e') with 0 by lia. cbn [Z.pow]. lia.
  - lia.
  - rewrite pos_iter_xO. do 2 f_equal. lia.
Qed.

(** The difference of two non-negative floats [y <= x]: zero when they are
    equal, and otherwise the float that the exact difference rounds to. *)
Lemma SFsub_val (x y : spec_float) :
  valid_nonneg x = true -> valid_nonneg y = true -> val y <= val x ->
  (exists s, SF64sub x y = S754_zero s /\ val x = val y) \/
  (exists m e, SF64sub x y = S754_finite false m e /\
     val (S754_finite false m e) = rnd (val x - val y) /\ 0 < val x - val y).
Proof.
  intros Hx Hy Hle.
  destruct x as [sx|sx| |[] mx ex]; try discriminate;
    destruct y as [sy|sy| |[] my ey]; try discriminate;
    cbn [valid_nonneg] in Hx, Hy.
  - left. destruct sx, sy; eexists; split; reflexivity.
  - exfalso. cbn [val] in Hle. destruct (canonical_digits my ey Hy) as (_ & _ & He).
    pose proof (pow2_pos (ey + 1074) ltac:(lia)). nia.
  - right. exists mx, ex. split; [reflexivity|].
    cbn [val]. rewrite Z.sub_0_r. rewrite rnd_val by assumption.
    destruct (canonical_digits mx ex Hx) as (_ & _ & He).
    pose proof (pow2_pos (ex + 1074) ltac:(lia)). split; [reflexivity|nia].
  - destruct (canonical_digits mx ex Hx) as (_ & _ & Hex).
    destruct (canonical_digits my ey Hy) as (_ & _ & Hey).
    cbn [val] in *. unfold SF64sub, SFsub. cbn [cond_Zopp].
    set (ez := Z.min ex ey).
    rewrite !shl_align_val by (unfold ez; lia).
    assert (Hz : -1074 <= ez) by (unfold ez; lia).
    assert (Ev : (Zpos mx * 2 ^ (ex - ez) - Zpos my * 2 ^ (ey - ez)) * 2 ^ (ez + 1074)
                 = Zpos mx * 2 ^ (ex + 1074) - Zpos my * 2 ^ (ey + 1074)).
    { rewrite Z.mul_sub_distr_r, <- !Z.mul_assoc, <- !Z.pow_add_r by (unfold ez; lia).
      replace (ex - ez + (ez + 1074)) with (ex + 1074) by lia.
      replace (ey - ez + (ez + 1074)) with (ey + 1074) by lia. reflexivity. }
    pose proof (pow2_pos (ez + 1074) ltac:(lia)) as Pz.
    destruct (Zpos mx * 2 ^ (ex - ez) - Zpos my * 2 ^ (ey - ez)) as [|p|p] eqn:Ep;
      cbn [binary_normalize].
    + left. exists false. split; [reflexivity|]. lia.
    + right. rewrite <- Ev.
      destruct (binary_round_finite p ez mx ex Hz Hx ltac:(lia)) as (m3 & e3 & E3 & V3).
      exists m3, e3. split; [exact E3|]. split; [exact V3|nia].
    + exfalso. nia.
Qed.

(** ** Scaling a share of a total to a number of cells *)

Lemma float_of_int_exact (W : Z) :
  1 <= W < 2 ^ 53 ->
  exists w b eb,
    float_of_int W = Ok w /\ Prim2SF w = S754_finite false b eb /\
    bounded prec emax b eb = true /\ eb <= 0 /\ Zpos b = W * 2 ^ (- eb).
Proof.
  intros HW. destruct (binary_normalize_exact W HW) as (b & eb & E & Hb & He & Hv).
  exists (SF2Prim (S754_finite false b eb)), b, eb.
  unfold float_of_int. rewrite E.
  rewrite Prim2SF_SF2Prim by exact Hb. auto.
Qed.

Lemma nonneg_cases (v : float) :
  (0 <=? v)%float = true ->
  (exists s, Prim2SF v = S754_zero s) \/
  (exists m e, Prim2SF v = S754_finite false m e /\ bounded prec emax m e = true) \/
  Prim2SF v = S754_infinity false.
Proof.
  rewrite leb_spec. change (Prim2SF 0) with (S754_zero false).
  pose proof (Prim2SF_valid v) as Hv.
  destruct (Prim2SF v) as [s|[]| |[] m e]; cbn; try discriminate; intros _.
  - left. now exists s.
  - now right; right.
  - right; left. now exists m, e.
Qed.

Lemma positive_finite (d : float) :
  (0 <? d)%float = true -> is_finite d = true ->
  exists m e, Prim2SF d = S754_finite false m e /\ bounded prec emax m e = true.
Proof.
  rewrite ltb_spec. change (Prim2SF 0) with (S754_zero false).
  intros Hpos Hfin. pose proof (Prim2SF_valid d) as Hv.
  destruct (finite_cases d Hfin) as [[s E]|(s & m & e & E)]; rewrite E in *.
  - discriminate.
  - destruct s; [discriminate|]. now exists m, e.
Qed.

Lemma shiftl_le_scaled (m' : positive) (e' t W : Z) :
  e' <= 0 -> 0 <= t -> 0 <= W ->
  Zpos m' * 2 ^ t <= W * (2 ^ (- e') * 2 ^ t) ->
  0 <= Z.shiftl (Zpos m') e' <= W.
Proof.
  intros He Ht HW Hv.
  assert (0 < 2 ^ t) by (apply Z.pow_pos_nonneg; lia).
  assert (0 < 2 ^ (- e')) by (apply Z.pow_pos_nonneg; lia).
  rewrite Z.shiftl_div_pow2 by lia. split.
  - apply Z.div_pos; lia.
  - apply Z.div_le_upper_bound; [lia|]. nia.
Qed.

(** For [0 <= v <= d] with [d] positive and finite, and a width [W] below
    [2^53], [int((v / d) * W)] is defined and lies in [0, W]. *)
Lemma fill_bounded (v d : float) (W : Z) :
  (0 <=? v)%float = true -> (v <=? d)%float = true ->
  (0 <? d)%float = true -> is_finite d = true ->
  1 <= W < 2 ^ 53 ->
  exists w k,
    float_of_int W = Ok w /\ py_int ((v / d) * w) = Ok k /\ 0 <= k <= W.
Proof.
  intros Hv Hvd Hd Hfin HW.
  destruct (float_of_int_exact W HW) as (w & b & eb & Ew & Pw & Bw & Heb & Hbv).
  destruct (positive_finite d Hd Hfin) as (md & ed & Pd & Bd).
  exists w. unfold py_int. rewrite mul_spec, div_spec, Pw, Pd.
  rewrite leb_spec, Pd in Hvd.
  destruct (nonneg_cases v Hv) as [[s Pv]|[(mv & ev & Pv & Bv)|Pv]]; rewrite Pv in *.
  - exists 0. cbn. split; [exact Ew|]. split; [reflexivity|lia].
  - pose proof (SFcompare_ord (S754_finite false mv ev) (S754_finite false md ed)) as Ho.
    unfold SFleb in Hvd.
    assert (Hord : ev < ed \/ (ev = ed /\ (mv <= md)%positive)).
    { unfold ord_lt, ord_eq in Ho. cbn [ord1 ord2 ord3] in Ho.
      destruct (SFcompare (S754_finite false mv ev) (S754_finite false md ed)) as [[]|];
        try discriminate; lia. }
    destruct (SFdiv_le_one mv md ev ed Bv Bd Hord) as [Ez|(m & e & Ef & He & Hm)].
    + rewrite Ez. exists 0. cbn. split; [exact Ew|]. split; [reflexivity|lia].
    + rewrite Ef.
      destruct (SFmul_le m e b eb ltac:(lia) Hm Bw) as [Ez|(m' & e' & Ef' & He' & Hm')].
      * rewrite Ez. exists 0. split; [exact Ew|]. split; [reflexivity|lia].
      * rewrite Ef'. exists (Z.shiftl (Zpos m') e'). split; [exact Ew|].
        split; [reflexivity|].
        apply (shiftl_le_scaled m' e' (e' - (e + eb)) W); try lia.
        rewrite Hbv in Hm'. rewrite <- Z.mul_assoc, <- Z.pow_add_r in Hm' by lia.
        rewrite <- Z.pow_add_r by lia.
        replace (- e' + (e' - (e + eb))) with (- eb + - e) by lia. exact Hm'.
  - discriminate.
Qed.

(** ** Stable sorting by a float key *)

Section SortedDesc.

Context {A : Type} (key : A -> float).

Lemma insert_desc_perm (x : A) (l : list A) : Permutation (insert_desc key x l) (x :: l).
Proof.
  induction l as [|y l IH]; simpl; [reflexivity|].
  destruct (key x <? key y)%float; [|reflexivity].
  rewrite IH. apply perm_swap.
Qed.

Lemma sorted_desc_perm (l : list A) : Permutation (sorted_desc key l) l.
Proof.
  induction l as [|x l IH]; simpl; [reflexivity|].
  rewrite insert_desc_perm. now constructor.
Qed.

Lemma sorted_desc_length (l : list A) : length (sorted_desc key l) = length l.
Proof. apply Permutation_length, sorted_desc_perm. Qed.

(** Sorting leaves alone the relative order of any class of elements no
    two of which are in the relation [<]. *)
Lemma insert_desc_filter (P : A -> bool) (x : A) (l : list A) :
  (forall a b, P a = true -> P b = true -> (key a <? key b)%float = false) ->
  filter P (insert_desc key x l) = filter P (x :: l).
Proof.
  intros HP. induction l as [|y l IH]; [reflexivity|].
  cbn [insert_desc]. destruct (key x <? key y)%float eqn:Exy; [|reflexivity].
  cbn [filter] in *. rewrite IH.
  destruct (P x) eqn:Px, (P y) eqn:Py; try reflexivity.
  rewrite (HP x y Px Py) in Exy. discriminate.
Qed.

Lemma sorted_desc_filter (P : A -> bool) (l : list A) :
  (forall a b, P a = true -> P b = true -> (key a <? key b)%float = false) ->
  filter P (sorted_desc key l) = filter P l.
Proof.
  intros HP. induction l as [|x l IH]; [reflexivity|].
  cbn [sorted_desc fold_right]. fold (sorted_desc key l).
  rewrite insert_desc_filter by assumption. cbn [filter]. now rewrite IH.
Qed.

End SortedDesc.

Section SortedDescOrder.

Context {A : Type} (key : A -> float).

(** [a] comes no later than [b] in descending order of the key. *)
Definition key_ge (a b : A) : Prop := (key b <=? key a)%float = true.

Lemma insert_desc_sorted (x : A) (l : list A) :
  is_nan (key x) = false -> Forall (fun a => is_nan (key a) = false) l ->
  StronglySorted key_ge l -> StronglySorted key_ge (insert_desc key x l).
Proof.
  intros Nx Nl Sl. induction Sl as [|y l Sl IH Hy]; cbn [insert_desc].
  - repeat constructor.
  - inversion Nl as [|y' l' Ny Nl']; subst.
    destruct (key x <? key y)%float eqn:Exy.
    + constructor; [now apply IH|].
      apply (Permutation_Forall (x := x :: l)).
      * symmetry. apply insert_desc_perm.
      * constructor; [|assumption]. now apply ltb_leb.
    + constructor; [now constructor|].
      assert (Hxy : key_ge x y) by now apply ltb_false_leb.
      constructor; [assumption|].
      eapply Forall_impl; [|exact Hy]. intros z Hz.
      unfold key_ge in *. eapply leb_trans; eassumption.
Qed.

Lemma sorted_desc_sorted (l : list A) :
  Forall (fun a => is_nan (key a) = false) l -> StronglySorted key_ge (sorted_desc key l).
Proof.
  induction 1 as [|x l Nx Nl IH]; [constructor|].
  cbn [sorted_desc fold_right]. fold (sorted_desc key l).
  apply insert_desc_sorted; try assumption.
  apply (Permutation_Forall (x := l)); [|assumption].
  symmetry. apply sorted_desc_perm.
Qed.

(** Stability: elements with equal keys come out in their input order. *)
Lemma sorted_desc_stable (k : float) (l : list A) :
  filter (fun a => (key a =? k)%float) (sorted_desc key l)
  = filter (fun a => (key a =? k)%float) l.
Proof.
  apply sorted_desc_filter. intros a b. apply eqb_class_not_ltb.
Qed.

End SortedDescOrder.

(** ** Sparklines *)

Lemma sparkline_window_last (data : list float) (width : Z) :
  1 <= width -> sparkline_window data width = skipn (length data - Z.to_nat width) data.
Proof.
  intros Hw. unfold sparkline_window.
  destruct (Z.gtb_spec (len data) width) as [Hgt|Hle].
  - now apply slice_from_last.
  - unfold len in Hle. replace (length data - Z.to_nat width)%nat with 0%nat by lia.
    reflexivity.
Qed.

Lemma len_sparkline_window (data : list float) (width : Z) :
  1 <= width -> len (sparkline_window data width) = Z.min (len data) width.
Proof.
  intros Hw. rewrite sparkline_window_last by assumption.
  unfold len. rewrite length_skipn. lia.
Qed.

Lemma is_finite_intro (v : float) :
  valid_nonneg (Prim2SF v) = true -> is_finite v = true.
Proof.
  intros Hv. unfold is_finite, is_nan, is_infinity. rewrite !eqb_spec, abs_spec.
  unfold SFeqb. destruct (Prim2SF v) as [s|s| |[] m e]; try discriminate.
  - reflexivity.
  - cbn [SFabs]. rewrite SFcompare_refl by discriminate. reflexivity.
Qed.

Lemma nonneg_finite_valid (v : float) :
  (0 <=? v)%float = true -> is_finite v = true -> valid_nonneg (Prim2SF v) = true.
Proof.
  intros H0 Hf.
  destruct (nonneg_cases v H0) as [[s E]|[(m & e & E & B)|E]]; rewrite E.
  - reflexivity.
  - exact B.
  - destruct (finite_cases v Hf) as [[s E']|(s & m & e & E')]; congruence.
Qed.

Lemma valid_nonneg_of_float (v : float) :
  (exists s, Prim2SF v = S754_zero s) \/ (exists m e, Prim2SF v = S754_finite false m e) ->
  valid_nonneg (Prim2SF v) = true.
Proof.
  pose proof (Prim2SF_valid v) as Hv.
  intros [[s E]|(m & e & E)]; rewrite E in *; [reflexivity|exact Hv].
Qed.

(** Subtracting the minimum: for non-negative finite [mn <= v <= mx] the
    differences are ordered as the samples are, and the range is positive
    and finite. *)
Lemma sub_range (mn v mx : float) :
  (0 <=? mn)%float = true -> is_finite mn = true ->
  (0 <=? v)%float = true -> is_finite v = true ->
  (0 <=? mx)%float = true -> is_finite mx = true ->
  (mn <=? v)%float = true -> (v <=? mx)%float = true ->
  (0 <=? v - mn)%float = true /\
  (v - mn <=? sparkline_range mn mx)%float = true /\
  (0 <? sparkline_range mn mx)%float = true /\
  is_finite (sparkline_range mn mx) = true.
Proof.
  intros Hn0 Hnf Hv0 Hvf Hx0 Hxf Hnv Hvx.
  pose proof (nonneg_finite_valid mn Hn0 Hnf) as Vn.
  pose proof (nonneg_finite_valid v Hv0 Hvf) as Vv.
  pose proof (nonneg_finite_valid mx Hx0 Hxf) as Vx.
  rewrite leb_spec in Hnv, Hvx.
  apply (val_leb _ _ Vn Vv) in Hnv. apply (val_leb _ _ Vv Vx) in Hvx.
  pose proof (SFsub_val _ _ Vv Vn Hnv) as S1.
  pose proof (SFsub_val _ _ Vx Vn ltac:(lia)) as S2.
  rewrite <- sub_spec in S1, S2.
  assert (V1 : valid_nonneg (Prim2SF (v - mn)) = true).
  { apply valid_nonneg_of_float.
    destruct S1 as [(s & E & _)|(m & e & E & _)]; [left|right]; eauto. }
  assert (V2 : valid_nonneg (Prim2SF (mx - mn)) = true).
  { apply valid_nonneg_of_float.
    destruct S2 as [(s & E & _)|(m & e & E & _)]; [left|right]; eauto. }
  assert (L12 : val (Prim2SF (v - mn)) <= val (Prim2SF (mx - mn))).
  { destruct S1 as [(s & E & _)|(m & e & E & R & P)]; rewrite E.
    - apply val_nonneg.
    - rewrite R. destruct S2 as [(s' & E' & Q)|(m' & e' & E' & R' & P')]; [lia|].
      rewrite E', R'. apply rnd_mono; lia. }
  split.
  { rewrite leb_spec. apply val_leb; [reflexivity|assumption|]. apply val_nonneg. }
  unfold sparkline_range. rewrite eqb_spec.
  destruct (SFeqb (Prim2SF mx) (Prim2SF mn)) eqn:Eq; cbn [negb].
  - apply (val_eqb _ _ Vx Vn) in Eq.
    destruct S2 as [(s & E & _)|(m & e & E & R & P)]; [|lia].
    split; [|split; reflexivity].
    rewrite leb_spec. apply val_leb; [assumption|reflexivity|].
    rewrite E in L12. cbn [val] in L12.
    pose proof (val_nonneg (Prim2SF 1)). lia.
  - assert (Hne : val (Prim2SF mx) <> val (Prim2SF mn)).
    { intros E. apply (val_eqb _ _ Vx Vn) in E. congruence. }
    destruct S2 as [(s & E & Q)|(m & e & E & R & P)]; [congruence|].
    split; [|split].
    + rewrite leb_spec. now apply val_leb.
    + rewrite ltb_spec, E. reflexivity.
    + now apply is_finite_intro.
Qed.

(** The glyph of a sample between the minimum and the maximum is defined,
    and is one of the nine characters of the table. *)
Lemma sparkline_glyph_total (mn v mx : float) :
  (0 <=? mn)%float = true -> is_finite mn = true ->
  (0 <=? v)%float = true -> is_finite v = true ->
  (0 <=? mx)%float = true -> is_finite mx = true ->
  (mn <=? v)%float = true -> (v <=? mx)%float = true ->
  exists c, sparkline_glyph mn (sparkline_range mn mx) v = Ok c /\ In c spark_chars.
Proof.
  intros Hn0 Hnf Hv0 Hvf Hx0 Hxf Hnv Hvx.
  destruct (sub_range mn v mx Hn0 Hnf Hv0 Hvf Hx0 Hxf Hnv Hvx) as (H1 & H2 & H3 & H4).
  destruct (fill_bounded (v - mn) (sparkline_range mn mx) 9 H1 H2 H3 H4 ltac:(lia))
    as (w & k & Ew & Ek & Hk).
  unfold sparkline_glyph, float_div. rewrite (positive_not_zero _ H3). cbn [bind].
  change (len spark_chars) with 9. rewrite Ew. cbn [bind]. rewrite Ek. cbn [bind].
  eexists. split; [reflexivity|]. apply nth_In. cbn [spark_chars length]. lia.
Qed.

(** For samples that are finite and not negative, as percentages are, the
    call returns: no intermediate is NaN or infinite. *)
Lemma create_sparkline_total (data : list float) (width height : Z) :
  1 <= width -> data <> [] -> Forall (fun v => (0 <=? v)%float = true /\ is_finite v = true) data ->
  exists s, create_sparkline data width height = Ok s /\
            len s = Z.min (len data) width /\ Forall (fun c => In c spark_chars) s.
Proof.
  intros Hw Hne Hall. destruct data as [|x xs]; [congruence|].
  assert (Hnan : Forall (fun v => is_nan v = false) (x :: xs)).
  { eapply Forall_impl; [|exact Hall]. intros v [_ Hf]. now apply finite_not_nan. }
  destruct (min_from_spec xs x Hnan) as [Imn Lmn].
  destruct (max_from_spec xs x Hnan) as [Imx Lmx].
  rewrite Forall_forall in Hall, Lmn, Lmx.
  destruct (Hall _ Imn) as [Hn0 Hnf]. destruct (Hall _ Imx) as [Hx0 Hxf].
  assert (E : create_sparkline (x :: xs) width height =
              mapM (sparkline_glyph (min_from x xs)
                      (sparkline_range (min_from x xs) (max_from x xs)))
                (sparkline_window (x :: xs) width)) by reflexivity.
  destruct (mapM_Forall2_total
              (sparkline_glyph (min_from x xs)
                 (sparkline_range (min_from x xs) (max_from x xs)))
              (fun _ c => In c spark_chars) (sparkline_window (x :: xs) width))
    as (s & Es & Fs).
  { apply Forall_forall. intros v Hv.
    rewrite sparkline_window_last in Hv by assumption. apply In_skipn in Hv.
    destruct (Hall _ Hv) as [Hv0 Hvf].
    apply (sparkline_glyph_total _ v); auto. }
  exists s. rewrite E. split; [exact Es|]. split.
  - apply mapM_length in Es. unfold len at 1. rewrite Es.
    now apply len_sparkline_window.
  - clear - Fs. induction Fs; constructor; assumption.
Qed.

(** C1. For a width of at least 1, [create_sparkline] of the empty series is
    [width] spaces; of a non-empty series it returns exactly the strings that
    hold one glyph per sample of the last [width] samples, oldest first, and
    so every string it returns has length [min(len(series), width)]. When
    the samples are finite and not negative it does return, a string of that
    length made of the nine characters of the table. *)
Theorem create_sparkline_length (data : list float) (width height : Z) :
  1 <= width ->
  create_sparkline [] width height = Ok (repeat space (Z.to_nat width)) /\
  (data <> [] ->
   exists min_val max_val,
     py_min data = Ok min_val /\ py_max data = Ok max_val /\
     (forall s,
        create_sparkline data width height = Ok s <->
        Forall2 (fun v c => sparkline_glyph min_val (sparkline_range min_val max_val) v = Ok c)
          (skipn (length data - Z.to_nat width) data) s) /\
     (forall s,
        create_sparkline data width height = Ok s -> len s = Z.min (len data) width)) /\
  (data <> [] ->
   Forall (fun v => (0 <=? v)%float = true /\ is_finite v = true) data ->
   exists s,
     create_sparkline data width height = Ok s /\
     len s = Z.min (len data) width /\ Forall (fun c => In c spark_chars) s).
Proof.
  intros Hw. split; [|split].
  - unfold create_sparkline. now rewrite str_mul_char.
  - intros Hne. destruct data as [|x xs]; [congruence|].
    exists (min_from x xs), (max_from x xs).
    split; [reflexivity|]. split; [reflexivity|].
    assert (E : create_sparkline (x :: xs) width height =
                mapM (sparkline_glyph (min_from x xs)
                        (sparkline_range (min_from x xs) (max_from x xs)))
                  (sparkline_window (x :: xs) width)) by reflexivity.
    rewrite E. split; intros s.
    + rewrite sparkline_window_last by assumption. apply mapM_Forall2.
    + intros Hs. apply mapM_length in Hs. unfold len at 1. rewrite Hs.
      now apply len_sparkline_window.
  - intros Hne Hall. now apply create_sparkline_total.
Qed.

Lemma create_sparkline_length_witness :
  exists s,
    create_sparkline [10; 50; 90; 30; 90; 10]%float 4 8 = Ok s /\
    len s = Z.min (len [10; 50; 90; 30; 90; 10]%float) 4 /\
    Forall (fun c => In c spark_chars) s.
Proof.
  destruct (create_sparkline_length [10; 50; 90; 30; 90; 10]%float 4 8 ltac:(lia))
    as (_ & _ & Htotal).
  apply Htotal; [discriminate|].
  repeat constructor.
Defined.

(** Outside that domain the call can raise: [int()] of the NaN a NaN sample
    leads to, or of the NaN that [inf / inf] is once the range overflows. *)
Example sparkline_raises_on_nan :
  create_sparkline [nan; 1%float] 80 8 = Raise ValueError /\
  create_sparkline [0x1p1023; -0x1p1023]%float 80 8 = Raise ValueError.
Proof. split; vm_compute; reflexivity. Qed.

Lemma flat_glyph (v : float) :
  is_finite v = true -> sparkline_glyph v 1 v = Ok space.
Proof.
  intros Hv. unfold sparkline_glyph. rewrite sub_self by assumption.
  vm_compute. reflexivity.
Qed.

(** C3, as the code has it. A flat series of finite samples has minimum and
    maximum equal to the sample, so the range falls back to 1 and nothing is
    divided by zero; every glyph is the blank at index 0 of the glyph table. *)
Theorem flat_sparkline_blank (v : float) (n : nat) (width height : Z) :
  is_finite v = true -> (1 <= n)%nat -> 1 <= width ->
  py_min (repeat v n) = Ok v /\ py_max (repeat v n) = Ok v /\
  sparkline_range v v = 1%float /\
  create_sparkline (repeat v n) width height
    = Ok (repeat (nth 0 spark_chars space) (Z.to_nat (Z.min (Z.of_nat n) width))).
Proof.
  intros Hv Hn Hw. destruct n as [|n]; [lia|]. cbn [repeat].
  assert (Hrange : sparkline_range v v = 1%float).
  { unfold sparkline_range. now rewrite eqb_refl_finite. }
  assert (Hmin : py_min (v :: repeat v n) = Ok v).
  { cbn [py_min]. now rewrite min_from_repeat. }
  assert (Hmax : py_max (v :: repeat v n) = Ok v).
  { cbn [py_max]. now rewrite max_from_repeat. }
  repeat split; try assumption.
  unfold create_sparkline. rewrite Hmin, Hmax. cbn [bind]. rewrite Hrange.
  rewrite (mapM_const _ space).
  - f_equal. f_equal. change (repeat v n) with (repeat v n).
    pose proof (len_sparkline_window (v :: repeat v n) width Hw) as Hl.
    unfold len in Hl. cbn [length] in Hl. rewrite repeat_length in Hl. lia.
  - intros a Ha. assert (a = v) as ->.
    { rewrite sparkline_window_last in Ha by assumption.
      apply In_skipn in Ha.
      change (v :: repeat v n) with (repeat v (S n)) in Ha.
      now apply repeat_spec in Ha. }
    now apply flat_glyph.
Qed.

Lemma flat_sparkline_blank_witness :
  create_sparkline (repeat 5%float 3) 80 8 = Ok [space; space; space].
Proof.
  exact (proj2 (proj2 (proj2
    (flat_sparkline_blank 5 3 80 8 eq_refl ltac:(lia) ltac:(lia))))).
Defined.

(** C3, counterexample to the claim as stated: the flat series [5, 5, 5]
    renders as blanks, not as the lowest block glyph. *)
Lemma flat_sparkline_not_lowest_block :
  exists s,
    create_sparkline [5; 5; 5]%float 80 8 = Ok s /\
    ~ Forall (fun c => c = nth 1 spark_chars space) s.
Proof.
  exists [space; space; space]. split; [reflexivity|].
  intros F. inversion F as [|c l Hc _]. discriminate Hc.
Qed.

(** ** Empty inputs *)

(** C6. On an empty collection each of the three renderers returns its
    placeholder panel; none of them raises. *)
Theorem empty_input_placeholders (height width max_width limit console_width : Z) :
  create_vertical_bars [] height width
    = Ok (Panel (Str (lit "No data")) None (lit "red") None) /\
  create_horizontal_bars [] max_width
    = Ok (Panel (Str (lit "No data")) None (lit "red") None) /\
  create_mini_process_table [] limit console_width
    = Ok (Panel (Str (lit "No processes")) None (lit "red") None).
Proof. repeat split. Qed.

(** ** Division by zero *)

(** The bar charts guard their denominator: scaling a value never raises
    [ZeroDivisionError]. *)
Lemma scaled_width_guarded (max_val : float) (width : Z) (v : float) :
  scaled_width max_val width v <> Raise ZeroDivisionError.
Proof.
  unfold scaled_width. destruct (0 <? max_val)%float eqn:Hpos; [|discriminate].
  unfold float_div. rewrite (positive_not_zero _ Hpos). cbn [bind].
  unfold float_of_int.
  destruct (binary_normalize prec emax width 0 false); cbn [bind]; try discriminate;
    unfold py_int;
    match goal with |- context [Prim2SF ?x] => destruct (Prim2SF x) end; discriminate.
Qed.

(** C2, the failing run: a memory snapshot whose [total] is 0 makes
    [create_memory_breakdown] raise [ZeroDivisionError], whatever the
    percentage and the console width; the bar charts, which it calls next,
    never raise it, their denominator being guarded (an all-zero chart has
    bars of width 0). *)
Theorem memory_breakdown_zero_total (percent : float) (console_width : Z) :
  create_memory_breakdown
    {| MemoryInfo.percent := percent; MemoryInfo.used := 0; MemoryInfo.total := 0 |}
    console_width
  = Raise ZeroDivisionError /\
  (forall max_val width v, scaled_width max_val width v <> Raise ZeroDivisionError) /\
  scaled_width 0 70 0 = Ok 0.
Proof.
  split; [reflexivity|]. split; [|reflexivity].
  intros max_val width v. apply scaled_width_guarded.
Qed.

(** ** Per-core bars *)

(** C5, as the code has it: the three cores are labelled C00, C01, C02 and
    drawn by [create_vertical_bars] at height 8 and width
    [max(20, min(40, 80 // 8)) = 20]; the panel has eight bar rows (core 0
    never filled, core 1 filled in the lower four, core 2 in all) and the
    label row below them. *)
Theorem cpu_core_visualization_three_cores (percent : float) :
  let cpu := {| CpuInfo.percent := percent;
                CpuInfo.percent_per_core := [10; 50; 90]%float |} in
  let data := [(lit "C00", 10%float); (lit "C01", 50%float); (lit "C02", 90%float)] in
  let row (a b c : codepoint) := [a] ++ lit "  " ++ [b] ++ lit "  " ++ [c] ++ lit "  " in
  let bars := repeat (row space space full_block) 4
                ++ repeat (row space full_block full_block) 4 in
  core_data [10; 50; 90]%float = data /\
  core_bar_width 80 = 20 /\
  create_cpu_core_visualization cpu 80 = create_vertical_bars data 8 20 /\
  create_cpu_core_visualization cpu 80
    = Ok (Panel (Str (join [newline] (bars ++ [lit "C00       C01       C02       "])))
            None (lit "blue") None).
Proof.
  cbv zeta. split; [reflexivity|]. split; [reflexivity|]. split; [reflexivity|].
  vm_compute. reflexivity.
Qed.

(** C5, counterexample to the claim as stated: at console width 80 the bar
    width is not 10. *)
Lemma core_bar_width_not_10 :
  core_bar_width 80 = Z.max 20 (Z.min 40 10) /\ core_bar_width 80 <> 10.
Proof. split; [reflexivity|discriminate]. Qed.

(** ** Horizontal bars *)

Definition bar (filled width : Z) : str :=
  repeat full_block (Z.to_nat filled) ++ repeat light_shade (Z.to_nat (width - filled)).

Lemma len_bar (filled width : Z) : 0 <= filled <= width -> len (bar filled width) = width.
Proof.
  intros Hf. unfold bar, len. rewrite length_app, !repeat_length. lia.
Qed.

Definition horizontal_row (label : str) (value : float) (filled max_width : Z) : str :=
  ljust label 6 ++ lit " " ++ bar filled max_width ++ lit " "
    ++ rjust (fmt_float_1f value) 5 ++ lit "%".

Lemma scaled_width_bounded (max_val value : float) (max_width : Z) :
  is_finite max_val = true ->
  (0 <=? value)%float = true -> (value <=? max_val)%float = true ->
  1 <= max_width < 2 ^ 53 ->
  exists filled,
    scaled_width max_val max_width value = Ok filled /\ 0 <= filled <= max_width.
Proof.
  intros Hfin H0 Hle Hw. unfold scaled_width.
  destruct (0 <? max_val)%float eqn:Hpos.
  - destruct (fill_bounded value max_val max_width H0 Hle Hpos Hfin Hw)
      as (w & k & Ew & Ek & Hk).
    exists k. unfold float_div. rewrite (positive_not_zero _ Hpos). cbn [bind].
    rewrite Ew. cbn [bind]. auto.
  - exists 0. split; [reflexivity|lia].
Qed.

(** ** The process table *)

(** A percentage within the range of the data model. *)
Definition percent_ok (x : float) : Prop :=
  (0 <=? x)%float = true /\ (x <=? 100)%float = true.

Lemma mini_bar_defined (percentage : float) (width : Z) :
  percent_ok percentage -> 1 <= width < 2 ^ 53 ->
  exists filled,
    _create_mini_bar percentage width = Ok (bar filled width) /\ 0 <= filled <= width.
Proof.
  intros [H0 H100] Hw.
  destruct (fill_bounded percentage 100 width H0 H100 eq_refl eq_refl Hw)
    as (w & k & Ew & Ek & Hk).
  exists k. unfold _create_mini_bar. rewrite Ew. cbn [bind]. rewrite Ek. cbn [bind].
  now rewrite !str_mul_char.
Qed.

Lemma process_bar_width_range (console_width : Z) :
  5 <= process_bar_width console_width <= 10.
Proof. unfold process_bar_width. lia. Qed.

Lemma process_row_defined (console_width : Z) (proc : Process) :
  percent_ok (cpu_percent proc) -> percent_ok (memory_percent proc) ->
  exists row, process_row (process_bar_width console_width) proc = Ok row.
Proof.
  intros Hc Hm. pose proof (process_bar_width_range console_width) as Hw.
  assert (Hw' : 1 <= process_bar_width console_width < 2 ^ 53).
  { split; [lia|]. apply Z.le_lt_trans with 10; [lia|reflexivity]. }
  destruct (mini_bar_defined _ _ Hc Hw') as (fc & Ec & _).
  destruct (mini_bar_defined _ _ Hm Hw') as (fm & Em & _).
  unfold process_row. rewrite Ec, Em. cbn [bind]. eauto.
Qed.

Lemma process_table_selection_firstn (processes : list Process) (limit : Z) :
  0 <= limit ->
  process_table_selection processes limit
  = firstn (Z.to_nat limit) (sorted_desc cpu_percent processes).
Proof.
  intros Hl. unfold process_table_selection, slice_to, slice_index.
  destruct (Z.ltb_spec limit 0); [lia|].
  destruct (Z.le_ge_cases limit (len (sorted_desc cpu_percent processes))) as [Hle|Hge].
  - now rewrite Z.min_l.
  - rewrite Z.min_r by assumption. unfold len in *. rewrite Nat2Z.id.
    rewrite !firstn_all2; [reflexivity| lia |lia].
Qed.

Lemma len_process_table_selection (processes : list Process) (limit : Z) :
  0 <= limit -> len (process_table_selection processes limit) = Z.min limit (len processes).
Proof.
  intros Hl. unfold process_table_selection. rewrite len_slice_to by assumption.
  unfold len. now rewrite sorted_desc_length.
Qed.

(** The panel is the header, the rule and the rows. *)
Lemma create_mini_process_table_rows (processes : list Process) (limit console_width : Z)
  (panel : Renderable) :
  processes <> [] ->
  (create_mini_process_table processes limit console_width = Ok panel <->
   exists rows,
     process_table_rows processes limit console_width = Ok rows /\
     panel = Panel (Str (join [newline]
                           ([process_table_header;
                             str_mul (lit "=") (Z.min (console_width - 4) 75)] ++ rows)))
               (Some (lit "Top Processes")) (lit "magenta") None).
Proof.
  intros Hne. destruct processes as [|p ps]; [congruence|].
  unfold create_mini_process_table.
  destruct (process_table_rows (p :: ps) limit console_width) as [rows|e]; cbn [bind].
  - split.
    + intros E. injection E as <-. now exists rows.
    + intros (rows' & E & ->). now injection E as <-.
  - split; [discriminate|]. now intros (rows' & E & _).
Qed.

Lemma len_process_table_rows (processes : list Process) (limit console_width : Z)
  (rows : list str) :
  0 <= limit ->
  process_table_rows processes limit console_width = Ok rows ->
  len rows = Z.min limit (len processes).
Proof.
  intros Hl E. unfold process_table_rows in E. apply mapM_length in E.
  unfold len at 1. rewrite E. now apply len_process_table_selection.
Qed.

(** C9. The table sorts a non-empty process list by [cpu_percent] (no NaN
    among the keys), descending and stably, and shows the first [limit]
    processes of that order, one row each: the rows are in descending order
    of [cpu_percent], processes of equal [cpu_percent] keep their input
    order, and there are at most [limit] rows. With percentages between 0 and
    100 the table is returned. On the two records of the example, pid 2
    comes before pid 1. *)
Theorem mini_process_table_order (processes : list Process) (limit console_width : Z) :
  processes <> [] -> 0 <= limit ->
  Forall (fun p => is_nan (cpu_percent p) = false) processes ->
  let sorted := sorted_desc cpu_percent processes in
  let shown := process_table_selection processes limit in
  Permutation sorted processes /\
  (forall k, filter (fun p => (cpu_percent p =? k)%float) sorted
             = filter (fun p => (cpu_percent p =? k)%float) processes) /\
  shown = firstn (Z.to_nat limit) sorted /\
  StronglySorted (key_ge cpu_percent) shown /\
  len shown <= limit /\
  (forall panel,
     create_mini_process_table processes limit console_width = Ok panel <->
     exists rows,
       Forall2 (fun p row => process_row (process_bar_width console_width) p = Ok row)
         shown rows /\
       panel = Panel (Str (join [newline]
                             ([process_table_header;
                               str_mul (lit "=") (Z.min (console_width - 4) 75)] ++ rows)))
                 (Some (lit "Top Processes")) (lit "magenta") None) /\
  (Forall (fun p => percent_ok (cpu_percent p) /\ percent_ok (memory_percent p)) processes ->
   exists panel, create_mini_process_table processes limit console_width = Ok panel) /\
  (forall n1 n2 m1 m2,
     let p1 := {| pid := 1; name := n1; cpu_percent := 10; memory_percent := m1 |} in
     let p2 := {| pid := 2; name := n2; cpu_percent := 90; memory_percent := m2 |} in
     process_table_selection [p1; p2] 12 = [p2; p1]).
Proof.
  intros Hne Hl Hnan. cbv zeta.
  pose proof (process_table_selection_firstn processes limit Hl) as Hsel.
  split; [apply sorted_desc_perm|].
  split; [intros k; apply sorted_desc_stable|].
  split; [exact Hsel|].
  split; [rewrite Hsel; apply StronglySorted_firstn; now apply sorted_desc_sorted|].
  split; [rewrite len_process_table_selection by assumption; lia|].
  split; [|split].
  - intros panel. rewrite create_mini_process_table_rows by assumption.
    unfold process_table_rows. split.
    + intros (rows & E & ->). exists rows. split; [now apply mapM_Forall2|reflexivity].
    + intros (rows & F & ->). exists rows. split; [now apply mapM_Forall2|reflexivity].
  - intros Hok.
    assert (Hshown : Forall (fun p => exists row,
                        process_row (process_bar_width console_width) p = Ok row)
                       (process_table_selection processes limit)).
    { rewrite Forall_forall in *. intros p Hp. rewrite Hsel in Hp.
      apply In_firstn in Hp.
      apply (Permutation_in _ (sorted_desc_perm cpu_percent processes)) in Hp.
      destruct (Hok p Hp) as [Hc Hm]. now apply process_row_defined. }
    apply mapM_total in Hshown. destruct Hshown as [rows Erows].
    eexists. apply create_mini_process_table_rows; [assumption|].
    exists rows. split; [exact Erows|reflexivity].
  - intros n1 n2 m1 m2. reflexivity.
Qed.

Lemma mini_process_table_order_witness :
  let p1 := {| pid := 1; name := lit "a"; cpu_percent := 10; memory_percent := 5 |} in
  let p2 := {| pid := 2; name := lit "b"; cpu_percent := 90; memory_percent := 7 |} in
  StronglySorted (key_ge cpu_percent) (process_table_selection [p1; p2] 12).
Proof.
  intros p1 p2.
  exact (proj1 (proj2 (proj2 (proj2
    (mini_process_table_order [p1; p2] 12 80 ltac:(discriminate) ltac:(lia)
       ltac:(repeat constructor)))))).
Defined.

(** ** The dashboard controller *)

Section DashboardFacts.

Context {M : Type} `{DataProvider M}.

Import Dashboard.

(** The top of the tree [_make_layout] builds: three bands, the body split
    into three rows, the first two of them split into two columns. The
    seven leaves are never split and keep the splitter they were made
    with. *)
Definition region (n : string) (size : option Z) (ratio : Z)
  (split : Layout.splitter) (children : list Layout.t) : Layout.t :=
  Layout.Node (Some (lit n)) size ratio None split children.

Definition fresh_layout : Layout.t :=
  Layout.Node None None 1 None Layout.ColumnSplitter
    [ region "header" (Some 3) 1 Layout.ColumnSplitter [];
      region "body" None 1 Layout.ColumnSplitter
        [ region "top" None 2 Layout.RowSplitter
            [ region "gauges" None 1 Layout.ColumnSplitter [];
              region "cores" None 1 Layout.ColumnSplitter [] ];
          region "middle" None 1 Layout.RowSplitter
            [ region "memory" None 1 Layout.ColumnSplitter [];
              region "network" None 1 Layout.ColumnSplitter [] ];
          region "processes" None 2 Layout.ColumnSplitter [] ];
      region "footer" (Some 3) 1 Layout.ColumnSplitter [] ].

Lemma make_layout_fresh : _make_layout = Ok fresh_layout.
Proof. reflexivity. Qed.

(** A method that touches nothing but [self.layout]. *)
Definition layout_only {A} (m : @method M A) : Prop :=
  forall self, exists l, snd (m self) = with_layout self l.

Lemma with_layout_twice (self : t M) (l l' : Layout.t) :
  with_layout (with_layout self l) l' = with_layout self l'.
Proof. reflexivity. Qed.

Lemma layout_only_ret {A} (a : A) : layout_only (ret a).
Proof. intros self. exists (layout self). now destruct self. Qed.

Lemma layout_only_lift {A} (r : result A) : layout_only (lift r).
Proof. intros self. exists (layout self). now destruct self. Qed.

Lemma layout_only_read {A} (f : t M -> A) : layout_only (read f).
Proof. intros self. exists (layout self). now destruct self. Qed.

Lemma layout_only_set_layout (l : Layout.t) : layout_only (set_layout l).
Proof. intros self. now exists l. Qed.

Lemma layout_only_bind {A B} (m : @method M A) (k : A -> @method M B) :
  layout_only m -> (forall a, layout_only (k a)) -> layout_only (bindM m k).
Proof.
  intros Hm Hk self. unfold bindM. destruct (Hm self) as [l El].
  destruct (m self) as [[a|e] self']; cbn [snd] in El; subst self'.
  - destruct (Hk a (with_layout self l)) as [l' El']. exists l'.
    now rewrite El', with_layout_twice.
  - now exists l.
Qed.

Ltac layout_only :=
  repeat first
    [ apply layout_only_bind; [|intro]
    | apply layout_only_ret
    | apply layout_only_lift
    | apply layout_only_read
    | apply layout_only_set_layout ].

Lemma layout_only_update_region (path : list str) (r : Renderable) :
  layout_only (update_region path r).
Proof. unfold update_region. layout_only. Qed.

Lemma layout_only_processes_visual : layout_only _create_processes_visual.
Proof. unfold _create_processes_visual. layout_only. Qed.

(** The part of [render] after the call of [update_history]. *)
Definition render_regions : @method M Layout.t :=
  bindM (update_region [lit "header"] _create_header) (fun _ =>
  bindM (update_region [lit "footer"] _create_footer) (fun _ =>
  bindM _create_system_gauges (fun p =>
  bindM (update_region [lit "top"; lit "gauges"] p) (fun _ =>
  bindM _create_cpu_cores (fun p =>
  bindM (update_region [lit "top"; lit "cores"] p) (fun _ =>
  bindM _create_memory_visual (fun p =>
  bindM (update_region [lit "middle"; lit "memory"] p) (fun _ =>
  bindM _create_network_visual (fun p =>
  bindM (update_region [lit "middle"; lit "network"] p) (fun _ =>
  bindM _create_processes_visual (fun p =>
  bindM (update_region [lit "processes"] p) (fun _ =>
  read layout)))))))))))).

Lemma layout_only_render_regions : layout_only render_regions.
Proof.
  unfold render_regions, _create_system_gauges, _create_cpu_cores,
    _create_memory_visual, _create_network_visual.
  repeat first [ apply layout_only_update_region
               | apply layout_only_processes_visual
               | progress layout_only ].
Qed.

Lemma render_unfold (self : t M) :
  render self
  = render_regions (with_monitor (with_layout self fresh_layout)
                      (update_history (monitor self))).
Proof. reflexivity. Qed.

(** Whatever the state, and whether or not a later step raises, [render]
    leaves the monitor advanced by exactly one [update_history]. *)
Lemma render_monitor (self : t M) :
  monitor (snd (render self)) = update_history (monitor self).
Proof.
  rewrite render_unfold.
  destruct (layout_only_render_regions
              (with_monitor (with_layout self fresh_layout)
                 (update_history (monitor self)))) as [l El].
  rewrite El. reflexivity.
Qed.

Lemma render_keeps_sort (self : t M) :
  sort_processes_by (snd (render self)) = sort_processes_by self.
Proof.
  rewrite render_unfold.
  destruct (layout_only_render_regions
              (with_monitor (with_layout self fresh_layout)
                 (update_history (monitor self)))) as [l El].
  rewrite El. reflexivity.
Qed.

(** C4, as the code has it. The state of a [Dashboard] is its console, its
    monitor, its layout and the sort key; there is no pause flag, and every
    call of [render] asks the monitor for one [update_history], in every
    state and also when a later step of the call raises. *)
Theorem render_always_updates_history (self : t M) :
  self = {| console_height := console_height self; monitor := monitor self;
            layout := layout self; sort_processes_by := sort_processes_by self |} /\
  monitor (snd (render self)) = update_history (monitor self).
Proof.
  split; [now destruct self|]. apply render_monitor.
Qed.

Lemma set_process_sort_other (sort_by : str) (self : t M) :
  sort_by <> lit "cpu" -> sort_by <> lit "memory" ->
  set_process_sort sort_by self = (Ok tt, self).
Proof.
  intros Hc Hm. unfold set_process_sort, str_eqb.
  destruct (list_eq_dec N.eq_dec sort_by (lit "cpu")); [contradiction|].
  destruct (list_eq_dec N.eq_dec sort_by (lit "memory")); [contradiction|].
  reflexivity.
Qed.

End DashboardFacts.

(** ** The process panel of the dashboard *)

Section DashboardProcesses.

Context {M : Type} `{DataProvider M}.

Import Dashboard.

Lemma process_limit_at_least_20 (height : Z) : 20 <= process_limit height.
Proof. unfold process_limit. lia. Qed.

Lemma len_visible_processes (self : t M) :
  len (visible_processes self) <= process_limit (console_height self).
Proof.
  pose proof (process_limit_at_least_20 (console_height self)).
  unfold visible_processes. rewrite len_slice_to by lia. lia.
Qed.

(** The panel [create_mini_process_table] returns with its default limit of
    12 and width of 80 has at most 12 rows. *)
Lemma default_table_rows (procs : list Process) (panel : Renderable) :
  create_mini_process_table procs 12 80 = Ok panel ->
  procs = [] \/
  exists rows,
    process_table_rows procs 12 80 = Ok rows /\
    len rows = Z.min 12 (len procs) /\
    panel = Panel (Str (join [newline]
                          ([process_table_header; str_mul (lit "=") 75] ++ rows)))
              (Some (lit "Top Processes")) (lit "magenta") None.
Proof.
  intros E. destruct procs as [|p ps]; [now left|right].
  apply create_mini_process_table_rows in E; [|discriminate].
  destruct E as (rows & Er & ->). exists rows. split; [exact Er|].
  split; [|reflexivity]. apply (len_process_table_rows _ 12 80); [lia|exact Er].
Qed.

(** Running [render_regions] on the fresh layout: every chart call that
    comes before the process panel returned, and the panel of the call of
    [create_mini_process_table] ends up in the region named processes. *)
Lemma render_regions_processes (self : t M) (l : Layout.t) :
  layout self = fresh_layout ->
  fst (render_regions self) = Ok l ->
  exists node panel,
    Layout.get (lit "processes") l = Some node /\
    Layout.renderable node = Some panel /\
    create_mini_process_table (visible_processes self) 12 80 = Ok panel.
Proof.
  destruct self as [h m lay srt]. cbn [layout]. intros -> Hl.
  unfold render_regions in Hl.
  cbv [bindM update_region read lift ret set_layout with_layout layout monitor
       console_height sort_processes_by _create_system_gauges _create_cpu_cores
       _create_memory_visual _create_network_visual _create_processes_visual] in Hl.
  repeat
    (match type of Hl with
     | context [update_at ?p ?r ?t] =>
         let x := fresh "r" in
         remember r as x in Hl;
         let v := eval vm_compute in (update_at p x t) in
         change (update_at p x t) with v in Hl
     | context [create_system_gauges ?a ?b ?c ?d] =>
         destruct (create_system_gauges a b c d) as [?p|?e] eqn:?E
     | context [create_sparkline ?a ?b ?c] =>
         destruct (create_sparkline a b c) as [?p|?e] eqn:?E
     | context [create_cpu_core_visualization ?a ?b] =>
         destruct (create_cpu_core_visualization a b) as [?p|?e] eqn:?E
     | context [create_memory_breakdown ?a ?b] =>
         destruct (create_memory_breakdown a b) as [?p|?e] eqn:?E
     | context [create_network_visualization ?a ?b] =>
         destruct (create_network_visualization a b) as [?p|?e] eqn:?E
     | context [create_mini_process_table ?a ?b ?c] =>
         destruct (create_mini_process_table a b c) as [?p|?e] eqn:?E
     end;
     cbv beta iota zeta delta [fst snd] in Hl;
     try discriminate Hl).
  injection Hl as <-.
  eexists _, _. split; [reflexivity|]. split; [reflexivity|]. subst. eassumption.
Qed.

(** C10. Whenever [render] returns a layout, its region named processes
    holds the panel of [create_mini_process_table(procs[:limit])] called
    with the default limit 12, where [limit = max(8, height // 3, 20)] is
    at least 20 and [procs] are the [limit + 5] records asked of the monitor
    (after its history update), re-sorted by memory when that is the sort
    key; the panel is the placeholder, or the header, the rule and at most
    12 rows, whatever the terminal height. *)
Theorem render_process_rows_at_most_12 (self : t M) (l : Layout.t) :
  fst (render self) = Ok l ->
  let limit := process_limit (console_height self) in
  let m := update_history (monitor self) in
  let fetched := get_process_info m (limit + 5) in
  let procs :=
    slice_to (if str_eqb (sort_processes_by self) (lit "memory")
              then sorted_desc memory_percent fetched else fetched) limit in
  20 <= limit /\
  len procs <= limit /\
  exists node panel,
    Layout.get (lit "processes") l = Some node /\
    Layout.renderable node = Some panel /\
    create_mini_process_table procs 12 80 = Ok panel /\
    (procs = [] \/
     exists rows,
       process_table_rows procs 12 80 = Ok rows /\
       len rows = Z.min 12 (len procs) /\
       len rows <= 12 /\
       panel = Panel (Str (join [newline]
                             ([process_table_header; str_mul (lit "=") 75] ++ rows)))
                 (Some (lit "Top Processes")) (lit "magenta") None).
Proof.
  intros Hl. cbv zeta. rewrite render_unfold in Hl.
  set (self' := with_monitor (with_layout self fresh_layout)
                  (update_history (monitor self))) in *.
  split; [apply process_limit_at_least_20|].
  split; [apply (len_visible_processes self')|].
  destruct (render_regions_processes self' l eq_refl Hl) as (node & panel & Hg & Hr & Ep).
  exists node, panel. split; [exact Hg|]. split; [exact Hr|]. split; [exact Ep|].
  destruct (default_table_rows _ _ Ep) as [E|(rows & Er & Hlen & Hp)]; [now left|right].
  exists rows. split; [exact Er|]. split; [exact Hlen|]. split; [lia|exact Hp].
Qed.

End DashboardProcesses.

(** ** Runs on the sample host *)

Definition sample_dashboard : Dashboard.t Snapshot.t := Dashboard.init 24 Snapshot.host.

Lemma render_process_rows_at_most_12_witness :
  exists l node panel,
    fst (Dashboard.render sample_dashboard) = Ok l /\
    Layout.get (lit "processes") l = Some node /\
    Layout.renderable node = Some panel.
Proof.
  destruct (fst (Dashboard.render sample_dashboard)) as [l|e] eqn:E;
    [|vm_compute in E; discriminate E].
  destruct (render_process_rows_at_most_12 sample_dashboard l E)
    as (_ & _ & node & panel & Hg & Hr & _).
  exists l, node, panel. auto.
Defined.

(** C4, counterexample to the claim as stated: on the sample host [render]
    appends the current reading to the empty history, and no state of the
    controller makes [render] leave the rolling history as it was, so no
    state is a paused one. *)
Lemma render_never_paused :
  Snapshot.cpu_history (Dashboard.monitor (snd (Dashboard.render sample_dashboard)))
  = [50%float] /\
  ~ exists self : Dashboard.t Snapshot.t,
      Dashboard.monitor self = Snapshot.host /\
      Snapshot.cpu_history (Dashboard.monitor (snd (Dashboard.render self)))
      = Snapshot.cpu_history (Dashboard.monitor self).
Proof.
  split; [now rewrite render_monitor|].
  intros (self & Hm & Hh). rewrite render_monitor, Hm in Hh. discriminate Hh.
Qed.

(** C7, the failing run. On the sample host (pid 1: cpu 90, memory 10;
    pid 2: cpu 10, memory 90) an unknown key leaves the sort key alone and
    the key memory is stored; the next [render] re-sorts the fetched
    processes by memory (pid 2, pid 1), but the rows of the panel it puts in
    the processes region are in the order of [cpu_percent] (pid 1, pid 2),
    because [create_mini_process_table] sorts again. *)
Theorem memory_sort_overridden_by_table :
  let d := snd (Dashboard.set_process_sort (lit "memory") sample_dashboard) in
  let d' := Dashboard.with_monitor d (update_history (Dashboard.monitor d)) in
  Dashboard.sort_processes_by sample_dashboard = lit "cpu" /\
  snd (Dashboard.set_process_sort (lit "bogus") sample_dashboard) = sample_dashboard /\
  Dashboard.sort_processes_by d = lit "memory" /\
  map pid (Dashboard.visible_processes d') = [2; 1] /\
  map pid (process_table_selection (Dashboard.visible_processes d') 12) = [1; 2] /\
  exists l node panel,
    fst (Dashboard.render d) = Ok l /\
    Layout.get (lit "processes") l = Some node /\
    Layout.renderable node = Some panel /\
    create_mini_process_table (Dashboard.visible_processes d') 12 80 = Ok panel.
Proof.
  cbv zeta. repeat (split; [reflexivity|]).
  destruct (fst (Dashboard.render
                   (snd (Dashboard.set_process_sort (lit "memory") sample_dashboard))))
    as [l|e] eqn:E; [|vm_compute in E; discriminate E].
  rewrite render_unfold in E.
  apply render_regions_processes in E; [|reflexivity].
  destruct E as (node & panel & Hg & Hr & Ep).
  exists l, node, panel. auto.
Qed.

(** * Further properties of the renderers and of the controller *)

(** ** Rounding returns a float *)

Lemma shr_fexp_cases (m e : Z) (l : location) :
  0 <= m ->
  let E := fexp64 (Zdigits2 m + e) in
  let '(mrs, e1) := shr_fexp prec emax m e l in
  (E <= e /\ mrs = shr_record_of_loc m l /\ e1 = e) \/
  (e < E /\ e1 = E /\ shifted (E - e) (shr_record_of_loc m l) mrs).
Proof.
  intros Hm. cbv zeta. unfold shr_fexp, shr. fold (fexp64 (Zdigits2 m + e)).
  destruct (fexp64 (Zdigits2 m + e) - e) as [|p|p] eqn:En.
  - left. repeat split; lia.
  - right. split; [lia|]. split; [lia|].
    apply iter_pos_shifted. now rewrite shr_m_of_loc.
  - left. repeat split; lia.
Qed.

Lemma Zdigits2_pos (m : Z) : 0 < m -> 1 <= Zdigits2 m.
Proof.
  intros Hm. pose proof (Zdigits2_bounds m Hm) as [_ Hi].
  pose proof (Zdigits2_nonneg m).
  destruct (Z.le_gt_cases 1 (Zdigits2 m)) as [|G]; [assumption|].
  replace (Zdigits2 m) with 0 in Hi by lia. cbn in Hi. lia.
Qed.

Lemma Zdigits2_lt_pow2 (m n : Z) : 0 <= m -> 0 <= n -> m < 2 ^ n -> Zdigits2 m <= n.
Proof.
  intros Hm Hn Hlt. destruct (Z.eq_dec m 0) as [->|N]; [cbn; lia|].
  pose proof (Zdigits2_bounds m ltac:(lia)) as [Lo _].
  destruct (Z.le_gt_cases (Zdigits2 m) n) as [|G]; [assumption|].
  pose proof (Z.pow_le_mono_r 2 n (Zdigits2 m - 1) ltac:(lia) ltac:(lia)). lia.
Qed.

Lemma Zdigits2_ge_pow2 (m n : Z) : 0 <= n -> 2 ^ n <= m -> n + 1 <= Zdigits2 m.
Proof.
  intros Hn Hle. pose proof (pow2_pos n Hn).
  pose proof (Zdigits2_bounds m ltac:(lia)) as [_ Hi].
  pose proof (Zdigits2_nonneg m).
  destruct (Z.le_gt_cases (n + 1) (Zdigits2 m)) as [|G]; [assumption|].
  pose proof (Z.pow_le_mono_r 2 (Zdigits2 m) n ltac:(lia) ltac:(lia)). lia.
Qed.

(** The two stages of [binary_round_aux], for a mantissa whose exponent is
    at most the canonical one: the first shift leaves a mantissa [m1] below
    [2^53], which is at least [2^52] unless the exponent is the least one. *)
Lemma round_first_stage (m e : Z) (l : location) :
  0 <= m -> e <= fexp64 (Zdigits2 m + e) ->
  let E := fexp64 (Zdigits2 m + e) in
  let '(mrs, e1) := shr_fexp prec emax m e l in
  e1 = E /\ 0 <= shr_m mrs < 2 ^ 53 /\ (E = -1074 \/ 2 ^ 52 <= shr_m mrs) /\
  shr_m mrs * 2 ^ (E - e) <= m < (shr_m mrs + 1) * 2 ^ (E - e).
Proof.
  intros Hm He. cbv zeta.
  pose proof (shr_fexp_cases m e l Hm) as S1. cbv zeta in S1.
  set (E := fexp64 (Zdigits2 m + e)) in *.
  assert (HE : -1074 <= E /\ Zdigits2 m + e - 53 <= E /\
               (E = -1074 \/ E = Zdigits2 m + e - 53))
    by (unfold E; rewrite fexp64_eq; lia).
  destruct (shr_fexp prec emax m e l) as [mrs e1].
  assert (S : e1 = E /\ 0 <= shr_m mrs /\
              shr_m mrs * 2 ^ (E - e) <= m < (shr_m mrs + 1) * 2 ^ (E - e)).
  { destruct S1 as [(H1 & -> & ->)|(H1 & -> & (H2 & H3 & _))].
    - assert (E = e) as -> by lia. rewrite shr_m_of_loc, Z.sub_diag. cbn [Z.pow]. lia.
    - rewrite shr_m_of_loc in H3. auto. }
  destruct S as (-> & Hm1 & Hsh). split; [reflexivity|].
  pose proof (pow2_pos (E - e) ltac:(lia)) as Pk.
  destruct (Z.eq_dec m 0) as [->|N0].
  - assert (shr_m mrs = 0) by nia.
    split; [lia|]. split; [|lia]. left. cbn [Zdigits2] in HE. lia.
  - pose proof (Zdigits2_bounds m ltac:(lia)) as [Lo Hi].
    pose proof (Zdigits2_pos m ltac:(lia)) as Hd.
    split; [|split; [|exact Hsh]].
    + split; [exact Hm1|].
      pose proof (Z.pow_le_mono_r 2 (Zdigits2 m) (53 + (E - e)) ltac:(lia) ltac:(lia)) as Hp.
      rewrite Z.pow_add_r in Hp by lia. nia.
    + destruct HE as (_ & _ & [HE|HE]); [now left|right].
      replace (Zdigits2 m - 1) with (52 + (E - e)) in Lo by lia.
      rewrite Z.pow_add_r in Lo by lia. nia.
Qed.

(** The second stage: a mantissa of at most [2^53] at a canonical exponent
    becomes a float in canonical form. *)
Lemma round_second_stage (s : bool) (m2 E : Z) :
  0 <= m2 <= 2 ^ 53 -> -1074 <= E -> (E = -1074 \/ 2 ^ 52 <= m2) ->
  let '(mrs, e2) := shr_fexp prec emax m2 E loc_Exact in
  (shr_m mrs = m2 /\ e2 = E /\ m2 < 2 ^ 53 /\ fexp64 (Zdigits2 m2 + E) = E) \/
  (shr_m mrs = 2 ^ 52 /\ e2 = E + 1 /\ m2 = 2 ^ 53).
Proof.
  intros Hm2 HE Hn.
  pose proof (shr_fexp_cases m2 E loc_Exact ltac:(lia)) as S2. cbv zeta in S2.
  destruct (shr_fexp prec emax m2 E loc_Exact) as [mrs e2].
  rewrite fexp64_eq in *.
  destruct S2 as [(H1 & -> & ->)|(H1 & -> & (H2 & H3 & _))].
  - left. cbn [shr_record_of_loc shr_m]. split; [reflexivity|]. split; [reflexivity|].
    assert (Hd : Zdigits2 m2 <= 53) by lia.
    split.
    + destruct (Z.eq_dec m2 (2 ^ 53)) as [->|]; [|lia].
      change (Zdigits2 (2 ^ 53)) with 54 in Hd. lia.
    + destruct Hn as [->|Hn]; [lia|].
      pose proof (Zdigits2_ge_pow2 m2 52 ltac:(lia) Hn). lia.
  - right. cbn [shr_record_of_loc shr_m] in H3.
    assert (Hd : 54 <= Zdigits2 m2) by lia.
    assert (0 < m2).
    { destruct (Z.eq_dec m2 0) as [Z0|]; [|lia]. rewrite Z0 in Hd. cbn in Hd. lia. }
    pose proof (Zdigits2_bounds m2 ltac:(lia)) as [Lo _].
    pose proof (Z.pow_le_mono_r 2 53 (Zdigits2 m2 - 1) ltac:(lia) ltac:(lia)).
    assert (Em : m2 = 2 ^ 53) by lia. rewrite Em in *.
    change (Zdigits2 (2 ^ 53)) with 54 in *.
    replace (Z.max (54 + E - 53) (-1074) - E) with 1 in H3 by lia.
    change (2 ^ 1) with 2 in H3. change (2 ^ 53) with (2 * 2 ^ 52) in H3.
    split; [lia|]. split; [lia|reflexivity].
Qed.

(** [binary_round_aux] returns a float in canonical form when the exponent
    it is given is at most the canonical one. *)
Lemma round_aux_valid (s : bool) (m e : Z) (l : location) :
  0 <= m -> e <= fexp64 (Zdigits2 m + e) ->
  valid_binary (binary_round_aux prec emax s m e l) = true.
Proof.
  intros Hm He. unfold binary_round_aux.
  pose proof (round_first_stage m e l Hm He) as S1. cbv zeta in S1.
  set (E := fexp64 (Zdigits2 m + e)) in *.
  assert (HE : -1074 <= E) by (unfold E; rewrite fexp64_eq; lia).
  destruct (shr_fexp prec emax m e l) as [mrs1 e1].
  destruct S1 as (-> & Hm1 & Hn1 & _).
  pose proof (round_nearest_even_bounds (shr_m mrs1) (loc_of_shr_record mrs1)) as Hr.
  pose proof (slack_cases (loc_of_shr_record mrs1)) as Hsl.
  set (m2 := round_nearest_even (shr_m mrs1) (loc_of_shr_record mrs1)) in *.
  pose proof (round_second_stage s m2 E ltac:(lia) HE ltac:(lia)) as S2.
  destruct (shr_fexp prec emax m2 E loc_Exact) as [mrs2 e2].
  destruct S2 as [(-> & -> & Hlt & C)|(-> & -> & _)].
  - destruct m2 as [|p|p]; try reflexivity.
    destruct (E <=? emax - prec) eqn:Hle; [|reflexivity].
    unfold valid_binary; cbn [SpecFloat.valid_binary]. apply bounded_intro; [exact C|].
    apply Z.leb_le in Hle. cbn in Hle. lia.
  - change (2 ^ 52) with (Zpos 4503599627370496).
    destruct (E + 1 <=? emax - prec) eqn:Hle; [|reflexivity].
    unfold valid_binary; cbn [SpecFloat.valid_binary]. apply bounded_intro.
    + change (Zdigits2 (Zpos 4503599627370496)) with 53. rewrite fexp64_eq. lia.
    + apply Z.leb_le in Hle. cbn in Hle. lia.
Qed.

(** It does not return a zero when the value is at least the least
    subnormal. *)
Lemma round_aux_nonzero (s : bool) (m e : Z) (l : location) :
  0 < m -> e <= fexp64 (Zdigits2 m + e) -> -1074 < Zdigits2 m + e ->
  forall z, binary_round_aux prec emax s m e l <> S754_zero z.
Proof.
  intros Hm He Hmag z. unfold binary_round_aux.
  pose proof (round_first_stage m e l ltac:(lia) He) as S1. cbv zeta in S1.
  set (E := fexp64 (Zdigits2 m + e)) in *.
  assert (HE : -1074 <= E /\ (E = -1074 \/ E = Zdigits2 m + e - 53))
    by (unfold E; rewrite fexp64_eq; lia).
  destruct (shr_fexp prec emax m e l) as [mrs1 e1].
  destruct S1 as (-> & Hm1 & Hn1 & Hsh).
  assert (Hpos1 : 1 <= shr_m mrs1).
  { destruct Hn1 as [E0|]; [|lia].
    pose proof (Zdigits2_bounds m Hm) as [Lo _].
    pose proof (pow2_pos (E - e) ltac:(lia)).
    pose proof (Z.pow_le_mono_r 2 (E - e) (Zdigits2 m - 1) ltac:(lia) ltac:(lia)).
    nia. }
  pose proof (round_nearest_even_bounds (shr_m mrs1) (loc_of_shr_record mrs1)) as Hr.
  pose proof (slack_cases (loc_of_shr_record mrs1)) as Hsl.
  set (m2 := round_nearest_even (shr_m mrs1) (loc_of_shr_record mrs1)) in *.
  pose proof (round_second_stage s m2 E ltac:(lia) ltac:(lia) ltac:(lia)) as S2.
  destruct (shr_fexp prec emax m2 E loc_Exact) as [mrs2 e2].
  destruct S2 as [(-> & -> & _)|(-> & -> & _)].
  - destruct m2 as [|p|p]; try lia. destruct (E <=? emax - prec); discriminate.
  - change (2 ^ 52) with (Zpos 4503599627370496).
    destruct (E + 1 <=? emax - prec); discriminate.
Qed.

(** The quotient that [SFdiv_core_binary] hands to the rounding is at an
    exponent no greater than the canonical one. *)
Lemma SFdiv_core_pre (m1 e1 m2 e2 : Z) :
  0 < m1 -> 0 < m2 ->
  let '(q, e', l) := SFdiv_core_binary prec emax m1 e1 m2 e2 in
  0 <= q /\ e' <= fexp64 (Zdigits2 q + e') /\
  e' = Z.min (fexp64 (Zdigits2 m1 + e1 - (Zdigits2 m2 + e2))) (e1 - e2) /\
  q * m2 <= m1 * 2 ^ (e1 - e2 - e') < (q + 1) * m2 /\
  slack l = (if q * m2 =? m1 * 2 ^ (e1 - e2 - e') then 0 else 1).
Proof.
  intros H1 H2. unfold SFdiv_core_binary.
  fold (fexp64 (Zdigits2 m1 + e1 - (Zdigits2 m2 + e2))).
  set (X := Zdigits2 m1 + e1 - (Zdigits2 m2 + e2)).
  set (e' := Z.min (fexp64 X) (e1 - e2)).
  set (s := e1 - e2 - e').
  assert (Hs : 0 <= s) by (unfold s, e'; lia).
  set (m' := match s with Z.pos _ => Z.shiftl m1 s | 0 => m1 | Z.neg _ => 0 end).
  assert (Hm' : m' = m1 * 2 ^ s).
  { unfold m'. destruct s as [|p|p]; [cbn; lia| |lia].
    now rewrite Z.shiftl_mul_pow2 by lia. }
  pose proof (Z_div_mod m' m2 ltac:(lia)) as Hdiv.
  destruct (Z.div_eucl m' m2) as [q r]. destruct Hdiv as [Eq Hr].
  pose proof (pow2_pos s Hs) as Ps.
  assert (Hq : 0 <= q) by nia.
  split; [exact Hq|]. split; [|split; [reflexivity|split]].
  - pose proof (Zdigits2_bounds m1 H1) as [L1 U1].
    pose proof (Zdigits2_bounds m2 H2) as [L2 U2].
    pose proof (Zdigits2_pos m1 H1). pose proof (Zdigits2_pos m2 H2).
    assert (Hdq : Zdigits2 m1 + s - Zdigits2 m2 <= Zdigits2 q).
    { pose proof (Zdigits2_nonneg q).
      destruct (Z.le_gt_cases (Zdigits2 m1 + s - Zdigits2 m2) 0) as [|G]; [lia|].
      enough (Zdigits2 m1 + s - Zdigits2 m2 - 1 + 1 <= Zdigits2 q) by lia.
      apply (Zdigits2_ge_pow2 q (Zdigits2 m1 + s - Zdigits2 m2 - 1)); [lia|].
      destruct (Z.le_gt_cases (2 ^ (Zdigits2 m1 + s - Zdigits2 m2 - 1)) q) as [|Hlt];
        [assumption|exfalso].
      assert (Hq1 : q + 1 <= 2 ^ (Zdigits2 m1 + s - Zdigits2 m2 - 1)) by lia.
      assert (Hlow : 2 ^ (Zdigits2 m1 - 1) * 2 ^ s <= m1 * 2 ^ s) by nia.
      assert (Hup : m1 * 2 ^ s < (q + 1) * 2 ^ Zdigits2 m2) by nia.
      assert (Hp : 2 ^ (Zdigits2 m1 + s - Zdigits2 m2 - 1) * 2 ^ Zdigits2 m2
                   = 2 ^ (Zdigits2 m1 - 1) * 2 ^ s).
      { rewrite <- !Z.pow_add_r by lia. f_equal. lia. }
      pose proof (pow2_pos (Zdigits2 m2) ltac:(lia)). nia. }
    assert (HX : X <= Zdigits2 q + e') by (unfold X, s in *; lia).
    unfold e' at 1. rewrite !fexp64_eq. lia.
  - fold s. rewrite <- Hm'. nia.
  - fold s. rewrite <- Hm'. rewrite slack_new_location.
    destruct (Z.eqb_spec r 0), (Z.eqb_spec (q * m2) m'); try reflexivity; lia.
Qed.

(** ** True division of ints *)

(** [a / b] for ints [0 < a <= b]: no overflow, and the quotient is a float
    of value at most 1 (a zero when it underflows). *)
Lemma int_truediv_le_one (a b : Z) :
  0 < a <= b ->
  exists r,
    int_truediv a b = Ok r /\
    (Prim2SF r = S754_zero false \/
     exists m e, Prim2SF r = S754_finite false m e /\ e <= -52 /\ Zpos m <= 2 ^ (- e)).
Proof.
  intros Hab. unfold int_truediv.
  replace (b =? 0) with false by (symmetry; apply Z.eqb_neq; lia).
  replace (a <? 0) with false by (symmetry; apply Z.ltb_ge; lia).
  replace (b <? 0) with false by (symmetry; apply Z.ltb_ge; lia).
  replace (a =? 0) with false by (symmetry; apply Z.eqb_neq; lia).
  cbn [xorb]. rewrite (Z.abs_eq a), (Z.abs_eq b) by lia.
  pose proof (SFdiv_core_pre a 0 b 0 ltac:(lia) ltac:(lia)) as Hpre.
  destruct (SFdiv_core_binary prec emax a 0 b 0) as [[q e'] l].
  destruct Hpre as (Hq & Hcan & He' & Hqb & Hsl).
  pose proof (Zdigits2_mono a b ltac:(lia) ltac:(lia)) as Hd.
  rewrite fexp64_eq in He'.
  assert (He52 : e' <= -53) by lia.
  replace (0 - 0 - e') with (- e') in * by lia.
  pose proof (pow2_pos (- e') ltac:(lia)) as Ps.
  pose proof (round_aux_valid false q e' l Hq Hcan) as V.
  destruct (round_aux_bounded false q e' l one_m (-52)) as [Hz|(m & e & Hf & He & Hv)].
  - exact Hq.
  - lia.
  - change (Zpos one_m) with (2 ^ 52). rewrite <- Z.pow_add_r by lia.
    replace (52 + (-52 - e')) with (- e') by lia. rewrite Hsl.
    destruct (Z.eqb_spec (q * b) (a * 2 ^ (- e'))); nia.
  - reflexivity.
  - rewrite Hz. exists (SF2Prim (S754_zero false)). split; [reflexivity|]. now left.
  - rewrite Hf in *. exists (SF2Prim (S754_finite false m e)). split; [reflexivity|].
    right. exists m, e. rewrite Prim2SF_SF2Prim by exact V.
    split; [reflexivity|]. split; [lia|].
    change (Zpos one_m) with (2 ^ 52) in Hv.
    rewrite <- Z.pow_add_r in Hv by lia.
    replace (52 + (-52 - e')) with ((- e) + (e - e')) in Hv by lia.
    rewrite Z.pow_add_r in Hv by lia.
    assert (0 < 2 ^ (e - e')) by (apply Z.pow_pos_nonneg; lia).
    nia.
Qed.

(** A threshold [(level / height) * width] is at most [width]. *)
Lemma threshold_le_width (level height width : Z) :
  1 <= level <= height -> 1 <= width < 2 ^ 53 ->
  exists r w,
    int_truediv level height = Ok r /\ float_of_int width = Ok w /\
    int_ge_float width (r * w) = true.
Proof.
  intros Hl Hw.
  destruct (int_truediv_le_one level height ltac:(lia)) as (r & Er & Hr).
  destruct (float_of_int_exact width Hw) as (w & b & eb & Ew & Pw & Bw & Heb & Hbv).
  exists r, w. split; [exact Er|]. split; [exact Ew|].
  unfold int_ge_float. rewrite mul_spec, Pw.
  destruct Hr as [->|(m & e & -> & He & Hm)].
  - cbn. apply Z.leb_le. lia.
  - destruct (SFmul_le m e b eb ltac:(lia) Hm Bw) as [Ez|(m' & e' & Ef' & He' & Hm')].
    + rewrite Ez. apply Z.leb_le. lia.
    + rewrite Ef'. cbn [cond_Zopp].
      rewrite Hbv in Hm'.
      assert (P1 : 0 < 2 ^ (- e)) by (apply pow2_pos; lia).
      assert (P2 : 0 < 2 ^ (- eb)) by (apply pow2_pos; lia).
      assert (P3 : 0 < 2 ^ (e' - (e + eb))) by (apply pow2_pos; lia).
      assert (Hkey : Zpos m' <= width * 2 ^ (- e')).
      { assert (E : 2 ^ (- eb) * 2 ^ (- e) = 2 ^ (- e') * 2 ^ (e' - (e + eb))).
        { rewrite <- !Z.pow_add_r by lia. f_equal. lia. }
        assert (Zpos m' * 2 ^ (e' - (e + eb)) <= width * 2 ^ (- e') * 2 ^ (e' - (e + eb)))
          by nia.
        nia. }
      destruct (Z.leb_spec 0 e') as [H0|H0].
      * assert (e' = 0) as -> by lia. cbn [Z.opp Z.pow] in Hkey.
        rewrite Z.shiftl_0_r. apply Z.leb_le. lia.
      * rewrite Z.shiftl_mul_pow2 by lia. apply Z.leb_le. exact Hkey.
Qed.

(** ** Operations whose result is exact *)

Lemma shr_fexp_canonical (b : positive) (eb : Z) :
  bounded prec emax b eb = true ->
  shr_fexp prec emax (Zpos b) eb loc_Exact = (shr_record_of_loc (Zpos b) loc_Exact, eb).
Proof.
  intros Hb. destruct (bounded_canonical b eb Hb) as [C _].
  unfold shr_fexp. fold (fexp64 (Zdigits2 (Zpos b) + eb)). rewrite C, Z.sub_diag.
  reflexivity.
Qed.

(** An integer that is a float, scaled to a smaller exponent, rounds to that
    float. *)
Lemma round_aux_representable (s : bool) (b : positive) (eb e : Z) :
  bounded prec emax b eb = true -> e <= eb ->
  binary_round_aux prec emax s (Zpos b * 2 ^ (eb - e)) e loc_Exact = S754_finite s b eb.
Proof.
  intros Hb He. destruct (bounded_canonical b eb Hb) as [C L].
  assert (Hd : Zdigits2 (Zpos b * 2 ^ (eb - e)) + e = Zdigits2 (Zpos b) + eb).
  { rewrite Zdigits2_mul_pow2 by lia. lia. }
  assert (Hm : 0 <= Zpos b * 2 ^ (eb - e)).
  { pose proof (pow2_pos (eb - e) ltac:(lia)). nia. }
  pose proof (shr_fexp_exact (Zpos b * 2 ^ (eb - e)) e Hm) as S1.
  rewrite Hd, C in S1. specialize (S1 He). cbv zeta in S1.
  unfold binary_round_aux.
  destruct (shr_fexp prec emax (Zpos b * 2 ^ (eb - e)) e loc_Exact) as [mrs1 e1].
  destruct S1 as [-> ->].
  replace (eb - e) with (0 + (eb - e)) at 2 by lia.
  rewrite rne_scale, rne_0 by lia.
  rewrite shr_fexp_canonical by assumption. cbn [shr_record_of_loc shr_m].
  replace (eb <=? emax - prec) with true; [reflexivity|].
  symmetry. apply Z.leb_le. cbn. lia.
Qed.

(** [x / x] is 1 for every finite [x] other than zero. *)
Lemma SFdiv_self (s : bool) (m : positive) (e : Z) :
  SF64div (S754_finite s m e) (S754_finite s m e) = Prim2SF 1.
Proof.
  unfold SF64div, SFdiv, SFdiv_core_binary.
  replace (Zdigits2 (Zpos m) + e - (Zdigits2 (Zpos m) + e)) with 0 by lia.
  replace (e - e) with 0 by lia.
  assert (E : Z.div_eucl (Zpos m * 2 ^ 53) (Zpos m) = (2 ^ 53, 0)).
  { pose proof (Z_div_mod (Zpos m * 2 ^ 53) (Zpos m) ltac:(lia)) as D.
    destruct (Z.div_eucl (Zpos m * 2 ^ 53) (Zpos m)) as [q r]. destruct D as [D B].
    assert (Hr : r = Zpos m * (2 ^ 53 - q)) by lia.
    assert (2 ^ 53 - q = 0) by nia.
    f_equal; nia. }
  match goal with
  | |- context [let '(q, r) := ?t in _] =>
      change t with (Z.div_eucl (Z.shiftl (Zpos m) 53) (Zpos m))
  end.
  rewrite Z.shiftl_mul_pow2, E by lia.
  replace (new_location (Zpos m) 0) with loc_Exact.
  - destruct s; reflexivity.
  - unfold new_location, new_location_even, new_location_odd.
    destruct (Z.even (Zpos m)); reflexivity.
Qed.

Lemma div_self (x : float) :
  is_finite x = true -> (x =? 0)%float = false -> (x / x)%float = 1%float.
Proof.
  intros Hf Hz. apply Prim2SF_inj. rewrite div_spec.
  destruct (finite_cases x Hf) as [[s E]|(s & m & e & E)].
  - rewrite eqb_spec, E in Hz. destruct s; discriminate Hz.
  - rewrite E. apply SFdiv_self.
Qed.

(** [1 * w] is [w]. *)
Lemma SFmul_one_l (s : bool) (b : positive) (eb : Z) :
  bounded prec emax b eb = true ->
  SF64mul (Prim2SF 1) (S754_finite s b eb) = S754_finite s b eb.
Proof.
  intros Hb. change (Prim2SF 1) with (S754_finite false one_m (-52)).
  unfold SF64mul, SFmul. cbn [xorb].
  replace (Zpos (one_m * b)) with (Zpos b * 2 ^ (eb - (-52 + eb))).
  - apply round_aux_representable; [assumption|lia].
  - replace (eb - (-52 + eb)) with 52 by lia. unfold one_m. lia.
Qed.

Lemma mul_one_l (w : float) : is_finite w = true -> (1 * w)%float = w.
Proof.
  intros Hf. apply Prim2SF_inj. rewrite mul_spec.
  pose proof (Prim2SF_valid w) as V.
  destruct (finite_cases w Hf) as [[s E]|(s & m & e & E)]; rewrite E in *.
  - destruct s; reflexivity.
  - now apply SFmul_one_l.
Qed.

(** [int(float(W))] is [W] for the integers that are floats. *)
Lemma py_int_float_of_int (W : Z) (w : float) :
  1 <= W < 2 ^ 53 -> float_of_int W = Ok w -> py_int w = Ok W /\ is_finite w = true.
Proof.
  intros HW Ew.
  destruct (float_of_int_exact W HW) as (w' & b & eb & Ew' & Pw & Bw & Heb & Hbv).
  rewrite Ew in Ew'. injection Ew' as <-. split.
  - unfold py_int. rewrite Pw. cbn [cond_Zopp]. f_equal.
    rewrite Z.shiftl_div_pow2 by lia. rewrite Hbv. apply Z.div_mul.
    pose proof (pow2_pos (- eb) ltac:(lia)). lia.
  - apply is_finite_intro. rewrite Pw. exact Bw.
Qed.

(** Scaling the maximum itself fills the whole width. *)
Lemma scaled_width_of_max (v : float) (W : Z) :
  (0 <? v)%float = true -> is_finite v = true -> 1 <= W < 2 ^ 53 ->
  scaled_width v W v = Ok W.
Proof.
  intros Hpos Hf HW. unfold scaled_width, float_div.
  rewrite Hpos, (positive_not_zero _ Hpos). cbn [bind].
  destruct (float_of_int_exact W HW) as (w & _ & _ & Ew & _).
  rewrite Ew. cbn [bind].
  destruct (py_int_float_of_int W w HW Ew) as [Ei Hw].
  rewrite div_self by (try assumption; now apply positive_not_zero).
  now rewrite mul_one_l.
Qed.

(** ** The sparkline spans the glyph table *)

Lemma sparkline_glyph_of_min (mn range : float) :
  is_finite mn = true -> (0 <? range)%float = true -> is_finite range = true ->
  sparkline_glyph mn range mn = Ok space.
Proof.
  intros Hf Hpos Hr. unfold sparkline_glyph, float_div.
  rewrite (positive_not_zero _ Hpos), sub_self by assumption. cbn [bind].
  assert (E : (0 / range)%float = 0%float).
  { apply Prim2SF_inj. rewrite div_spec.
    destruct (positive_finite range Hpos Hr) as (m & e & -> & _). reflexivity. }
  rewrite E. reflexivity.
Qed.

Lemma sparkline_glyph_of_max (mn mx : float) :
  (0 <? mx - mn)%float = true -> is_finite (mx - mn) = true ->
  sparkline_glyph mn (mx - mn) mx = Ok full_block.
Proof.
  intros Hpos Hr. unfold sparkline_glyph, float_div.
  rewrite (positive_not_zero _ Hpos). cbn [bind].
  rewrite div_self by (try assumption; now apply positive_not_zero).
  reflexivity.
Qed.

(** In a series of finite, non-negative samples that is not flat, every
    occurrence of the minimum in the window is drawn as the blank and every
    occurrence of the maximum as the full block. *)
Theorem sparkline_spans_glyphs (data : list float) (width height : Z) (mn mx : float) :
  1 <= width ->
  Forall (fun v => (0 <=? v)%float = true /\ is_finite v = true) data ->
  py_min data = Ok mn -> py_max data = Ok mx -> (mx =? mn)%float = false ->
  exists s,
    create_sparkline data width height = Ok s /\
    Forall2 (fun v c => (v = mn -> c = space) /\ (v = mx -> c = full_block))
      (skipn (length data - Z.to_nat width) data) s.
Proof.
  intros Hw Hall Emn Emx Hne. destruct data as [|x xs]; [discriminate Emn|].
  cbn [py_min py_max] in Emn, Emx. injection Emn as <-. injection Emx as <-.
  assert (Hnan : Forall (fun v => is_nan v = false) (x :: xs)).
  { eapply Forall_impl; [|exact Hall]. intros v [_ Hf]. now apply finite_not_nan. }
  destruct (min_from_spec xs x Hnan) as [Imn Lmn].
  destruct (max_from_spec xs x Hnan) as [Imx Lmx].
  rewrite Forall_forall in Hall, Lmn, Lmx.
  destruct (Hall _ Imn) as [Hn0 Hnf]. destruct (Hall _ Imx) as [Hx0 Hxf].
  set (mn := min_from x xs) in *. set (mx := max_from x xs) in *.
  destruct (sub_range mn mx mx Hn0 Hnf Hx0 Hxf Hx0 Hxf (Lmn _ Imx) (Lmx _ Imx))
    as (_ & _ & Hpos & Hfin).
  assert (Er : sparkline_range mn mx = (mx - mn)%float).
  { unfold sparkline_range. now rewrite Hne. }
  assert (E : create_sparkline (x :: xs) width height =
              mapM (sparkline_glyph mn (sparkline_range mn mx))
                (sparkline_window (x :: xs) width)) by reflexivity.
  rewrite E, sparkline_window_last by assumption.
  apply mapM_Forall2_total. apply Forall_forall. intros v Hv. apply In_skipn in Hv.
  destruct (Hall _ Hv) as [Hv0 Hvf].
  destruct (sparkline_glyph_total mn v mx Hn0 Hnf Hv0 Hvf Hx0 Hxf (Lmn _ Hv) (Lmx _ Hv))
    as (c & Ec & _).
  exists c. split; [exact Ec|]. split; intros ->.
  - rewrite sparkline_glyph_of_min in Ec by assumption. now injection Ec.
  - rewrite Er in *. rewrite sparkline_glyph_of_max in Ec by assumption. now injection Ec.
Qed.

Lemma sparkline_spans_glyphs_witness :
  exists s,
    create_sparkline [30; 10; 90; 50]%float 80 8 = Ok s /\
    Forall2 (fun v c => (v = 10%float -> c = space) /\ (v = 90%float -> c = full_block))
      [30; 10; 90; 50]%float s.
Proof.
  apply (sparkline_spans_glyphs [30; 10; 90; 50]%float 80 8 10 90);
    [lia|repeat constructor|reflexivity|reflexivity|reflexivity].
Defined.

(** ** Bars relative to the maximum *)

(** Every row of the chart is defined when the values are finite and not
    negative. *)
Lemma horizontal_bars_lines_total (data : dict float) (max_width : Z) :
  data <> [] ->
  Forall (fun item => is_finite (snd item) = true /\ (0 <=? snd item)%float = true) data ->
  1 <= max_width < 2 ^ 53 ->
  exists max_val lines,
    py_max (values data) = Ok max_val /\
    In max_val (values data) /\
    horizontal_bars_lines data max_width = Ok lines /\
    Forall2
      (fun item line =>
         exists filled,
           scaled_width max_val max_width (snd item) = Ok filled /\
           0 <= filled <= max_width /\
           line = horizontal_row (fst item) (snd item) filled max_width)
      data lines.
Proof.
  intros Hne Hdata Hw.
  destruct data as [|[label0 v0] rest]; [congruence|].
  set (data := (label0, v0) :: rest) in *.
  set (max_val := max_from v0 (values rest)).
  assert (Hnan : Forall (fun v => is_nan v = false) (values data)).
  { unfold values. rewrite Forall_map. eapply Forall_impl; [|exact Hdata].
    intros item [Hf _]. now apply finite_not_nan. }
  destruct (max_from_spec (values rest) v0 Hnan) as [Hin Hmax].
  fold max_val in Hin, Hmax.
  assert (Hmaxfin : is_finite max_val = true).
  { change (v0 :: values rest) with (values data) in Hin. unfold values in Hin.
    apply in_map_iff in Hin. destruct Hin as (item & <- & Hitem).
    rewrite Forall_forall in Hdata. now apply Hdata. }
  exists max_val.
  assert (Hrows : Forall (fun item => exists line,
              horizontal_bar_line max_val max_width item = Ok line /\
              exists filled,
                scaled_width max_val max_width (snd item) = Ok filled /\
                0 <= filled <= max_width /\
                line = horizontal_row (fst item) (snd item) filled max_width) data).
  { rewrite Forall_forall in *. intros [label value] Hitem.
    destruct (Hdata _ Hitem) as [Hf H0]. cbn [fst snd] in *.
    assert (Hle : (value <=? max_val)%float = true).
    { apply Hmax. change (v0 :: values rest) with (values data).
      unfold values. apply in_map_iff. now exists (label, value). }
    destruct (scaled_width_bounded max_val value max_width Hmaxfin H0 Hle Hw)
      as (filled & Ef & Hfilled).
    exists (horizontal_row label value filled max_width). split.
    - unfold horizontal_bar_line. rewrite Ef. cbn [bind].
      unfold horizontal_row, bar. now rewrite !str_mul_char.
    - exists filled. auto. }
  apply mapM_Forall2_total in Hrows. destruct Hrows as (lines & Elines & Flines).
  exists lines. split; [reflexivity|]. split; [exact Hin|]. split; [exact Elines|exact Flines].
Qed.

(** The entries that hold the maximum get a bar of full width, whatever the
    size of the maximum, as long as it is positive: the bars show shares of
    the largest value, not absolute percentages. *)
Theorem horizontal_bars_maximum_is_full (data : dict float) (max_width : Z) (max_val : float) :
  Forall (fun item => is_finite (snd item) = true /\ (0 <=? snd item)%float = true) data ->
  1 <= max_width < 2 ^ 53 ->
  py_max (values data) = Ok max_val -> (0 <? max_val)%float = true ->
  exists lines,
    create_horizontal_bars data max_width
      = Ok (Panel (Str (join [newline] lines)) None (lit "green") None) /\
    Forall2
      (fun item line =>
         snd item = max_val ->
         line = ljust (fst item) 6 ++ lit " " ++ repeat full_block (Z.to_nat max_width)
                  ++ lit " " ++ rjust (fmt_float_1f max_val) 5 ++ lit "%")
      data lines.
Proof.
  intros Hdata Hw Emax Hpos.
  assert (Hne : data <> []) by (intros ->; discriminate Emax).
  destruct (horizontal_bars_lines_total data max_width Hne Hdata Hw)
    as (mx & lines & Emx & Hin & El & Fl).
  rewrite Emax in Emx. injection Emx as <-.
  assert (Hfin : is_finite max_val = true).
  { unfold values in Hin. apply in_map_iff in Hin. destruct Hin as (item & <- & Hitem).
    rewrite Forall_forall in Hdata. now apply Hdata. }
  exists lines. split.
  - destruct data as [|item rest]; [congruence|].
    unfold create_horizontal_bars. rewrite El. reflexivity.
  - eapply Forall2_impl; [|exact Fl]. cbn beta.
    intros [label v] line (filled & Ef & _ & ->) Ev. cbn [fst snd] in *. subst v.
    rewrite scaled_width_of_max in Ef by assumption. injection Ef as <-.
    unfold horizontal_row, bar. rewrite Z.sub_diag. cbn [Z.to_nat repeat].
    now rewrite app_nil_r.
Qed.

Lemma horizontal_bars_maximum_is_full_witness :
  exists lines,
    create_horizontal_bars [(lit "UPLOAD", 2%float); (lit "DOWNLOAD", 1%float)] 40
      = Ok (Panel (Str (join [newline] lines)) None (lit "green") None) /\
    Forall2
      (fun item line =>
         snd item = 2%float ->
         line = ljust (fst item) 6 ++ lit " " ++ repeat full_block (Z.to_nat 40)
                  ++ lit " " ++ rjust (fmt_float_1f 2) 5 ++ lit "%")
      [(lit "UPLOAD", 2%float); (lit "DOWNLOAD", 1%float)] lines.
Proof.
  apply (horizontal_bars_maximum_is_full
           [(lit "UPLOAD", 2%float); (lit "DOWNLOAD", 1%float)] 40 2);
    [repeat constructor|split; [lia|reflexivity]|reflexivity|reflexivity].
Defined.

(** ** Fixed-width bars *)

(** [_create_mini_bar]: for a percentage within [0, 100] the bar has exactly
    [width] cells, the filled ones first; whatever the percentage, a bar that
    is returned is never shorter than [width] (a percentage out of range is
    not clipped, it lengthens the bar). *)
Theorem mini_bar_width (percentage : float) (width : Z) :
  1 <= width < 2 ^ 53 ->
  (percent_ok percentage ->
   exists filled,
     0 <= filled <= width /\
     _create_mini_bar percentage width
       = Ok (repeat full_block (Z.to_nat filled)
               ++ repeat light_shade (Z.to_nat (width - filled))) /\
     len (repeat full_block (Z.to_nat filled)
            ++ repeat light_shade (Z.to_nat (width - filled))) = width) /\
  (forall s, _create_mini_bar percentage width = Ok s -> width <= len s).
Proof.
  intros Hw. split.
  - intros Hp. destruct (mini_bar_defined percentage width Hp Hw) as (filled & E & Hf).
    exists filled. split; [exact Hf|]. split; [exact E|]. now apply len_bar.
  - intros s. unfold _create_mini_bar.
    destruct (float_of_int width) as [w|e]; cbn [bind]; [|discriminate].
    destruct (py_int (percentage / 100 * w)) as [filled|e]; cbn [bind]; [|discriminate].
    intros E. injection E as <-. rewrite !str_mul_char. unfold len.
    rewrite length_app, !repeat_length. lia.
Qed.

Lemma mini_bar_width_witness :
  (exists filled,
     0 <= filled <= 10 /\
     _create_mini_bar 25 10
       = Ok (repeat full_block (Z.to_nat filled)
               ++ repeat light_shade (Z.to_nat (10 - filled))) /\
     len (repeat full_block (Z.to_nat filled)
            ++ repeat light_shade (Z.to_nat (10 - filled))) = 10) /\
  _create_mini_bar 250 10 = Ok (repeat full_block 25).
Proof.
  split; [|reflexivity].
  apply (mini_bar_width 25 10); [split; [lia|reflexivity]|split; reflexivity].
Defined.

(** One gauge line, as [_create_gauge] writes it. *)
Definition gauge_markup (label : str) (percentage : float) (filled width : Z) : Renderable :=
  Markup (lit "[bold]" ++ label ++ lit ":[/bold] " ++ bar filled width ++ lit " "
            ++ rjust (fmt_float_1f percentage) 5 ++ lit "%").

Lemma gauge_defined (percentage : float) (label : str) (width : Z) :
  percent_ok percentage -> 1 <= width < 2 ^ 53 ->
  exists filled,
    _create_gauge percentage label width = Ok (gauge_markup label percentage filled width) /\
    0 <= filled <= width.
Proof.
  intros [H0 H100] Hw.
  destruct (fill_bounded percentage 100 width H0 H100 eq_refl eq_refl Hw)
    as (w & k & Ew & Ek & Hk).
  exists k. unfold _create_gauge. rewrite Ew. cbn [bind]. rewrite Ek. cbn [bind].
  unfold gauge_markup, bar. now rewrite !str_mul_char.
Qed.

(** [create_system_gauges]: at every console width, and for percentages
    within [0, 100], the panel holds the gauges CPU, MEM and DSK in this
    order; the three bars have the same width, [console_width // 4] clamped
    to [15, 30], so the gauges line up. *)
Theorem system_gauges_panel (cpu_info : CpuInfo.t) (memory_info : MemoryInfo.t)
  (disk_info : DiskInfo.t) (console_width : Z) :
  percent_ok (CpuInfo.percent cpu_info) ->
  percent_ok (MemoryInfo.percent memory_info) ->
  percent_ok (DiskInfo.percent disk_info) ->
  exists gauge_width c m d,
    gauge_width = Z.max 15 (Z.min 30 (console_width / 4)) /\
    15 <= gauge_width <= 30 /\
    0 <= c <= gauge_width /\ 0 <= m <= gauge_width /\ 0 <= d <= gauge_width /\
    len (bar c gauge_width) = gauge_width /\
    len (bar m gauge_width) = gauge_width /\
    len (bar d gauge_width) = gauge_width /\
    create_system_gauges cpu_info memory_info disk_info console_width
    = Ok (Panel (Group [ gauge_markup (lit "CPU") (CpuInfo.percent cpu_info) c gauge_width;
                         gauge_markup (lit "MEM") (MemoryInfo.percent memory_info) m gauge_width;
                         gauge_markup (lit "DSK") (DiskInfo.percent disk_info) d gauge_width ])
            None (lit "cyan") None).
Proof.
  intros Hc Hm Hd. set (gw := Z.max 15 (Z.min 30 (console_width / 4))).
  assert (Hgw : 15 <= gw <= 30) by (unfold gw; lia).
  assert (Hgw' : 1 <= gw < 2 ^ 53).
  { split; [lia|]. apply Z.le_lt_trans with 30; [lia|reflexivity]. }
  destruct (gauge_defined _ (lit "CPU") gw Hc Hgw') as (c & Ec & Hfc).
  destruct (gauge_defined _ (lit "MEM") gw Hm Hgw') as (m & Em & Hfm).
  destruct (gauge_defined _ (lit "DSK") gw Hd Hgw') as (d & Ed & Hfd).
  exists gw, c, m, d. repeat (split; [first [reflexivity|lia|now apply len_bar]|]).
  unfold create_system_gauges. fold gw. rewrite Ec, Em, Ed. reflexivity.
Qed.

Lemma system_gauges_panel_witness :
  exists c m d,
    create_system_gauges {| CpuInfo.percent := 50; CpuInfo.percent_per_core := [] |}
      {| MemoryInfo.percent := 25; MemoryInfo.used := 1; MemoryInfo.total := 4 |}
      {| DiskInfo.percent := 100 |} 80
    = Ok (Panel (Group [ gauge_markup (lit "CPU") 50 c 20;
                         gauge_markup (lit "MEM") 25 m 20;
                         gauge_markup (lit "DSK") 100 d 20 ])
            None (lit "cyan") None).
Proof.
  destruct (system_gauges_panel
              {| CpuInfo.percent := 50; CpuInfo.percent_per_core := [] |}
              {| MemoryInfo.percent := 25; MemoryInfo.used := 1; MemoryInfo.total := 4 |}
              {| DiskInfo.percent := 100 |} 80)
    as (gw & c & m & d & -> & _ & _ & _ & _ & _ & _ & _ & E);
    [split; reflexivity|split; reflexivity|split; reflexivity|].
  exists c, m, d. exact E.
Defined.

(** ** Shares and capped values *)

Lemma percent_ok_finite (p : float) : percent_ok p -> is_finite p = true.
Proof.
  intros [H0 H100]. apply is_finite_intro.
  destruct (nonneg_cases p H0) as [[s E]|[(m & e & E & B)|E]]; rewrite E.
  - reflexivity.
  - exact B.
  - rewrite leb_spec, E in H100. discriminate H100.
Qed.

(** Rounding keeps the sign. *)
Lemma binary_round_aux_sign (s : bool) (m e : Z) (l : location) :
  0 <= m ->
  (binary_round_aux prec emax s m e l = S754_zero s) \/
  (exists m' e', binary_round_aux prec emax s m e l = S754_finite s m' e') \/
  (binary_round_aux prec emax s m e l = S754_infinity s).
Proof.
  intros Hm. unfold binary_round_aux.
  pose proof (shr_fexp_spec m e l Hm) as S1.
  destruct (shr_fexp prec emax m e l) as [mrs1 e1].
  destruct S1 as (_ & (Hm1 & _ & _) & _).
  pose proof (round_nearest_even_bounds (shr_m mrs1) (loc_of_shr_record mrs1)) as Hr.
  pose proof (shr_fexp_spec (round_nearest_even (shr_m mrs1) (loc_of_shr_record mrs1))
                e1 loc_Exact ltac:(lia)) as S2.
  destruct (shr_fexp prec emax (round_nearest_even (shr_m mrs1) (loc_of_shr_record mrs1))
              e1 loc_Exact) as [mrs2 e2].
  destruct S2 as (_ & (Hm2 & _ & _) & _).
  destruct (shr_m mrs2) as [|p|p]; [now left| |lia].
  destruct (e2 <=? emax - prec); right; [left; eauto|now right].
Qed.

(** [min(x * 10, 100)] lies within [0, 100] for every [x] that is not
    negative, the infinity included. *)
Lemma activity_percent (x : float) :
  (0 <=? x)%float = true -> percent_ok (activity x).
Proof.
  intros H0. unfold activity.
  assert (Hy : (0 <=? x * 10)%float = true).
  { rewrite leb_spec, mul_spec. change (Prim2SF 0) with (S754_zero false).
    change (Prim2SF 10) with (S754_finite false 5629499534213120 (-49)).
    destruct (nonneg_cases x H0) as [[s E]|[(m & e & E & B)|E]]; rewrite E.
    - destruct s; reflexivity.
    - unfold SF64mul, SFmul. cbn [xorb].
      destruct (binary_round_aux_sign false (Zpos (m * 5629499534213120)) (e + -49)
                  loc_Exact ltac:(lia)) as [E'|[(m' & e' & E')|E']]; rewrite E'; reflexivity.
    - reflexivity. }
  destruct (100 <? x * 10)%float eqn:Hlt.
  - split; reflexivity.
  - split; [exact Hy|]. apply ltb_false_leb; [reflexivity| |exact Hlt].
    apply is_nan_false. intros N. rewrite leb_spec, N in Hy. discriminate Hy.
Qed.

(** A share of a total, scaled by [w], is at most [w]. *)
Lemma share_le (v d w : float) :
  (0 <=? v)%float = true -> (v <=? d)%float = true ->
  (0 <? d)%float = true -> is_finite d = true ->
  (0 <? w)%float = true -> is_finite w = true ->
  (0 <=? v / d * w)%float = true /\ (v / d * w <=? w)%float = true.
Proof.
  intros Hv Hvd Hd Hfin Hw Hwf.
  destruct (positive_finite d Hd Hfin) as (md & ed & Pd & Bd).
  destruct (positive_finite w Hw Hwf) as (b & eb & Pw & Bw).
  rewrite !leb_spec, mul_spec, div_spec, Pw, Pd.
  rewrite leb_spec, Pd in Hvd. change (Prim2SF 0) with (S754_zero false).
  destruct (nonneg_cases v Hv) as [[s Pv]|[(mv & ev & Pv & Bv)|Pv]]; rewrite Pv in *.
  - destruct s; split; reflexivity.
  - pose proof (SFcompare_ord (S754_finite false mv ev) (S754_finite false md ed)) as Ho.
    unfold SFleb in Hvd.
    assert (Hord : ev < ed \/ (ev = ed /\ (mv <= md)%positive)).
    { unfold ord_lt, ord_eq in Ho. cbn [ord1 ord2 ord3] in Ho.
      destruct (SFcompare (S754_finite false mv ev) (S754_finite false md ed)) as [[]|];
        try discriminate; lia. }
    destruct (SFdiv_le_one mv md ev ed Bv Bd Hord) as [Ez|(m & e & Ef & He & Hm)].
    + rewrite Ez. split; reflexivity.
    + rewrite Ef.
      destruct (SFmul_le m e b eb ltac:(lia) Hm Bw) as [Ez|(m' & e' & Ef' & He' & Hm')].
      * rewrite Ez. split; reflexivity.
      * rewrite Ef'. split; [reflexivity|]. unfold SFleb. cbn [SFcompare].
        destruct (Z.compare_spec e' eb) as [->|Hlt|Hgt]; [|reflexivity|lia].
        replace (eb - (e + eb)) with (- e) in Hm' by lia.
        assert (0 < 2 ^ (- e)) by (apply Z.pow_pos_nonneg; lia).
        assert (Hle : (m' <= b)%positive) by nia.
        change (Pos.compare_cont Eq m' b) with (Pos.compare m' b).
        destruct (Pos.compare_spec m' b); try reflexivity. lia.
  - discriminate.
Qed.

(** The difference of two non-negative floats [y <= x] lies between 0 and
    [x]. *)
Lemma sub_le_self (x y : float) :
  (0 <=? x)%float = true -> is_finite x = true ->
  (0 <=? y)%float = true -> is_finite y = true ->
  (y <=? x)%float = true ->
  (0 <=? x - y)%float = true /\ (x - y <=? x)%float = true.
Proof.
  intros Hx0 Hxf Hy0 Hyf Hyx.
  pose proof (nonneg_finite_valid x Hx0 Hxf) as Vx.
  pose proof (nonneg_finite_valid y Hy0 Hyf) as Vy.
  rewrite leb_spec in Hyx. apply (val_leb _ _ Vy Vx) in Hyx.
  pose proof (SFsub_val _ _ Vx Vy Hyx) as S1. rewrite <- sub_spec in S1.
  assert (V1 : valid_nonneg (Prim2SF (x - y)) = true).
  { apply valid_nonneg_of_float.
    destruct S1 as [(s & E & _)|(m & e & E & _)]; [left|right]; eauto. }
  rewrite !leb_spec. split.
  - apply val_leb; [reflexivity|assumption|apply val_nonneg].
  - apply val_leb; [assumption|assumption|].
    destruct S1 as [(s & E & _)|(m & e & E & R & P)]; rewrite E.
    + apply val_nonneg.
    + rewrite R. pose proof (val_nonneg (Prim2SF y)).
      destruct (Prim2SF x) as [sx|sx| |[] mx ex] eqn:Ex; try discriminate;
        cbn [val] in *; try lia.
      rewrite <- (rnd_val mx ex) at 2 by exact Vx.
      apply rnd_mono; lia.
Qed.

(** ** True division of an int by a power of two *)

Lemma new_location_exact (n : Z) : new_location n 0 = loc_Exact.
Proof.
  unfold new_location, new_location_even, new_location_odd.
  destruct (Z.even n); reflexivity.
Qed.

(** [a / 2**j] is exact for an int [a] below [2^53]: the result is the float
    of value [a * 2^-j]. *)
Lemma int_truediv_pow2 (a j : Z) :
  0 < a < 2 ^ 53 -> 0 <= j <= 1000 ->
  exists x b eb,
    int_truediv a (2 ^ j) = Ok x /\ Prim2SF x = S754_finite false b eb /\
    bounded prec emax b eb = true /\
    val (S754_finite false b eb) = a * 2 ^ (1074 - j).
Proof.
  intros Ha Hj.
  pose proof (pow2_pos j ltac:(lia)) as Pj.
  pose proof (Zdigits2_bounds a ltac:(lia)) as [La Ua].
  assert (Hd : 1 <= Zdigits2 a <= 53).
  { pose proof (Zdigits2_nonneg a).
    split.
    - destruct (Z.le_gt_cases 1 (Zdigits2 a)) as [|G]; [assumption|].
      replace (Zdigits2 a) with 0 in Ua by lia. cbn in Ua. lia.
    - destruct (Z.le_gt_cases (Zdigits2 a) 53) as [|Hgt]; [assumption|].
      assert (2 ^ 53 <= 2 ^ (Zdigits2 a - 1)) by (apply Z.pow_le_mono_r; lia).
      lia. }
  set (d := Zdigits2 a) in *.
  assert (Hb0 : 0 < a * 2 ^ (53 - d)).
  { pose proof (pow2_pos (53 - d) ltac:(lia)). nia. }
  set (b := Z.to_pos (a * 2 ^ (53 - d))).
  assert (Eb : Zpos b = a * 2 ^ (53 - d)) by (unfold b; now rewrite Z2Pos.id).
  set (eb := d - 53 - j).
  assert (Bb : bounded prec emax b eb = true).
  { apply bounded_intro; [|unfold eb; lia].
    rewrite Eb, Zdigits2_mul_pow2 by lia. fold d. rewrite fexp64_eq. unfold eb. lia. }
  exists (SF2Prim (S754_finite false b eb)), b, eb.
  rewrite Prim2SF_SF2Prim by exact Bb.
  split; [|split; [reflexivity|split; [exact Bb|]]].
  - unfold int_truediv.
    replace (2 ^ j =? 0) with false by (symmetry; apply Z.eqb_neq; lia).
    replace (a <? 0) with false by (symmetry; apply Z.ltb_ge; lia).
    replace (2 ^ j <? 0) with false by (symmetry; apply Z.ltb_ge; lia).
    replace (a =? 0) with false by (symmetry; apply Z.eqb_neq; lia).
    cbn [xorb]. rewrite (Z.abs_eq a), (Z.abs_eq (2 ^ j)) by lia.
    unfold SFdiv_core_binary. fold d.
    assert (Ed2 : Zdigits2 (2 ^ j) = j + 1).
    { replace (2 ^ j) with (1 * 2 ^ j) by lia. rewrite Zdigits2_mul_pow2 by lia.
      change (Zdigits2 1) with 1. lia. }
    rewrite Ed2. fold (fexp64 (d + 0 - (j + 1 + 0))). rewrite fexp64_eq.
    replace (Z.min (Z.max (d + 0 - (j + 1 + 0) - 53) (-1074)) (0 - 0))
      with (d - j - 54) by lia.
    replace (0 - 0 - (d - j - 54)) with (j + (54 - d)) by lia.
    assert (Hs : 0 < j + (54 - d)) by lia.
    destruct (j + (54 - d)) as [|p|p] eqn:Es; try lia.
    rewrite Z.shiftl_mul_pow2, <- Es by lia.
    assert (E : Z.div_eucl (a * 2 ^ (j + (54 - d))) (2 ^ j) = (a * 2 ^ (54 - d), 0)).
    { pose proof (Z_div_mod (a * 2 ^ (j + (54 - d))) (2 ^ j) ltac:(lia)) as D.
      destruct (Z.div_eucl (a * 2 ^ (j + (54 - d))) (2 ^ j)) as [q r].
      destruct D as [D B]. rewrite Z.pow_add_r in D by lia.
      assert (Hr : r = 2 ^ j * (a * 2 ^ (54 - d) - q)) by lia.
      assert (a * 2 ^ (54 - d) - q = 0) by nia.
      f_equal; nia. }
    rewrite E, new_location_exact.
    replace (a * 2 ^ (54 - d)) with (Zpos b * 2 ^ (eb - (d - j - 54))).
    + rewrite round_aux_representable by (try assumption; unfold eb; lia).
      reflexivity.
    + rewrite Eb. unfold eb. replace (d - 53 - j - (d - j - 54)) with 1 by lia.
      rewrite <- Z.mul_assoc, <- Z.pow_add_r by lia. do 2 f_equal. lia.
  - cbn [val]. rewrite Eb. unfold eb.
    rewrite <- Z.mul_assoc, <- Z.pow_add_r by lia. do 2 f_equal. lia.
Qed.

Lemma int_truediv_zero (b : Z) : b <> 0 -> 0 <= b -> int_truediv 0 b = Ok 0%float.
Proof.
  intros Hb H0. unfold int_truediv.
  replace (b =? 0) with false by (symmetry; apply Z.eqb_neq; lia).
  replace (b <? 0) with false by (symmetry; apply Z.ltb_ge; lia).
  reflexivity.
Qed.

(** The same, with the zero included: the result is a float that is not
    negative, and the division preserves the order of the dividends. *)
Lemma int_truediv_pow2_nonneg (a j : Z) :
  0 <= a < 2 ^ 53 -> 0 <= j <= 1000 ->
  exists x,
    int_truediv a (2 ^ j) = Ok x /\ valid_nonneg (Prim2SF x) = true /\
    val (Prim2SF x) = a * 2 ^ (1074 - j).
Proof.
  intros Ha Hj. destruct (Z.eq_dec a 0) as [->|N].
  - exists 0%float. pose proof (pow2_pos j ltac:(lia)).
    rewrite int_truediv_zero by lia. repeat split.
  - destruct (int_truediv_pow2 a j ltac:(lia) Hj) as (x & b & eb & E & P & B & V).
    exists x. rewrite P. auto.
Qed.

Lemma valid_nonneg_leb (x : float) :
  valid_nonneg (Prim2SF x) = true -> (0 <=? x)%float = true.
Proof.
  intros V. rewrite leb_spec. apply val_leb; [reflexivity|exact V|apply val_nonneg].
Qed.

(** ** The rows of the horizontal bars *)

(** Modelled from the spec: [round_down], the largest integer that is not
    above the finite float [(-1)^s * m * 2^e]; the quotient of [Z] rounds
    down. It is given the value 0 on the floats that are not finite. *)
Definition round_down (x : float) : Z :=
  match Prim2SF x with
  | S754_finite s m e => (cond_Zopp s (Zpos m) * 2 ^ Z.max 0 e) / 2 ^ Z.max 0 (- e)
  | _ => 0
  end.

(** The float [x] is the integer [n], with no rounding error. *)
Definition exactly (x : float) (n : Z) : Prop :=
  match Prim2SF x with
  | S754_zero _ => n = 0
  | S754_finite s m e => cond_Zopp s (Zpos m) * 2 ^ Z.max 0 e = n * 2 ^ Z.max 0 (- e)
  | _ => False
  end.

(** [int()] rounds toward zero, [round_down] toward minus infinity. *)
Example round_down_below_zero :
  round_down (-0.5) = -1 /\ py_int (-0.5) = Ok 0 /\
  round_down 2.75 = 2 /\ py_int 2.75 = Ok 2.
Proof. repeat split; reflexivity. Qed.

(** On the floats that are not negative the two agree. *)
Lemma py_int_round_down (x : float) :
  (0 <=? x)%float = true -> is_finite x = true -> py_int x = Ok (round_down x).
Proof.
  intros H0 Hf. unfold py_int, round_down.
  destruct (nonneg_cases x H0) as [[s E]|[(m & e & E & B)|E]].
  - rewrite E. reflexivity.
  - rewrite E. f_equal. cbn [cond_Zopp].
    destruct (Z.leb_spec 0 e) as [He|He].
    + rewrite Z.shiftl_mul_pow2 by lia.
      rewrite (Z.max_r 0 e), (Z.max_l 0 (- e)) by lia.
      change (2 ^ 0) with 1. now rewrite Z.div_1_r.
    + replace e with (- (- e)) at 1 by lia.
      rewrite Z.shiftl_opp_r, Z.shiftr_div_pow2 by lia.
      rewrite (Z.max_l 0 e), (Z.max_r 0 (- e)) by lia.
      change (2 ^ 0) with 1. now rewrite Z.mul_1_r.
  - destruct (finite_cases x Hf) as [[s E']|(s & m & e & E')]; congruence.
Qed.

Lemma float_of_int_exactly (W : Z) :
  1 <= W < 2 ^ 53 ->
  exists w,
    float_of_int W = Ok w /\ exactly w W /\
    (0 <? w)%float = true /\ is_finite w = true.
Proof.
  intros HW. destruct (float_of_int_exact W HW) as (w & b & eb & Ew & Pw & Bw & Heb & Hbv).
  exists w. split; [exact Ew|]. split; [|split].
  - unfold exactly. rewrite Pw. cbn [cond_Zopp].
    rewrite (Z.max_l 0 eb), (Z.max_r 0 (- eb)) by lia.
    change (2 ^ 0) with 1. lia.
  - rewrite ltb_spec, Pw. reflexivity.
  - apply is_finite_intro. rewrite Pw. exact Bw.
Qed.

(** The number of solid cells is the floor of the float product. *)
Lemma scaled_width_round_down (max_val value w : float) (max_width filled : Z) :
  is_finite max_val = true ->
  (0 <=? value)%float = true -> (value <=? max_val)%float = true ->
  float_of_int max_width = Ok w -> (0 <? w)%float = true -> is_finite w = true ->
  scaled_width max_val max_width value = Ok filled ->
  filled = if (0 <? max_val)%float then round_down (value / max_val * w) else 0.
Proof.
  intros Hfin H0 Hle Ew Hw Hwf. unfold scaled_width, float_div.
  destruct (0 <? max_val)%float eqn:Hpos; [|congruence].
  rewrite (positive_not_zero _ Hpos). cbn [bind]. rewrite Ew. cbn [bind].
  destruct (share_le value max_val w H0 Hle Hpos Hfin Hw Hwf) as [Hs0 Hsw].
  rewrite py_int_round_down; [congruence|exact Hs0|].
  apply is_finite_intro.
  destruct (nonneg_cases _ Hs0) as [[s E]|[(m & e & E & B)|E]]; rewrite E.
  - reflexivity.
  - exact B.
  - destruct (positive_finite w Hw Hwf) as (b & eb & Pw & _).
    rewrite leb_spec, E, Pw in Hsw. discriminate Hsw.
Qed.

Lemma Forall2_Forall_l {A B} (Q : A -> Prop) (P : A -> B -> Prop) (l : list A) (r : list B) :
  Forall Q l -> Forall2 P l r -> Forall2 (fun a b => Q a /\ P a b) l r.
Proof.
  intros HQ HP. induction HP as [|a b l r Hab HP IH]; [constructor|].
  inversion HQ; subst. constructor; auto.
Qed.

(** C8, the rows as the code draws them. For a non-empty mapping of finite
    values that are not negative and a width from 1 up to [2^53], the call
    returns one row per entry, in the order of the mapping. A row is the
    label in a field of 6, a space, [filled] solid blocks, [max_width - filled]
    light blocks, a space, the value to one decimal in a field of 5, and a
    percent sign. [filled] is the floor of the float product
    [(value / max_val) * max_width] when the maximum [max_val] of the values
    is positive, and 0 otherwise; it lies in [[0, max_width]], and it is 0 in
    every row when all values are 0. *)
Theorem horizontal_bars_rows (data : dict float) (max_width : Z) :
  data <> [] ->
  Forall (fun item => is_finite (snd item) = true /\ (0 <=? snd item)%float = true) data ->
  1 <= max_width < 2 ^ 53 ->
  exists max_val w lines,
    In max_val (values data) /\
    Forall (fun v => (v <=? max_val)%float = true) (values data) /\
    exactly w max_width /\
    create_horizontal_bars data max_width
      = Ok (Panel (Str (join [newline] lines)) None (lit "green") None) /\
    Forall2
      (fun item line =>
         let filled :=
           if (0 <? max_val)%float then round_down (snd item / max_val * w) else 0 in
         0 <= filled <= max_width /\
         line = horizontal_row (fst item) (snd item) filled max_width)
      data lines /\
    (Forall (fun item => (snd item =? 0)%float = true) data ->
     Forall2 (fun item line => line = horizontal_row (fst item) (snd item) 0 max_width)
       data lines).
Proof.
  intros Hne Hdata Hw.
  destruct (horizontal_bars_lines_total data max_width Hne Hdata Hw)
    as (max_val & lines & Emax & Hin & El & Fl).
  destruct (float_of_int_exactly max_width Hw) as (w & Ew & Xw & Pw & Fw).
  assert (Hmax : Forall (fun v => (v <=? max_val)%float = true) (values data)).
  { destruct data as [|[label0 v0] rest]; [congruence|].
    assert (Hnan : Forall (fun v => is_nan v = false) (values ((label0, v0) :: rest))).
    { unfold values. rewrite Forall_map. eapply Forall_impl; [|exact Hdata].
      intros item [Hf _]. now apply finite_not_nan. }
    change (py_max (values ((label0, v0) :: rest)))
      with (Ok (max_from v0 (values rest))) in Emax.
    injection Emax as <-. apply (max_from_spec (values rest) v0 Hnan). }
  assert (Hmaxfin : is_finite max_val = true).
  { unfold values in Hin. apply in_map_iff in Hin. destruct Hin as (item & <- & Hitem).
    rewrite Forall_forall in Hdata. now apply Hdata. }
  assert (Hitems : Forall (fun item => (0 <=? snd item)%float = true /\
                                        (snd item <=? max_val)%float = true) data).
  { rewrite Forall_forall in *. intros item Hitem. split; [now apply Hdata|].
    apply Hmax. unfold values. now apply in_map. }
  pose proof (Forall2_Forall_l _ _ _ _ Hitems Fl) as Fl'.
  assert (Frows : Forall2
      (fun item line =>
         let filled :=
           if (0 <? max_val)%float then round_down (snd item / max_val * w) else 0 in
         0 <= filled <= max_width /\
         line = horizontal_row (fst item) (snd item) filled max_width)
      data lines).
  { eapply Forall2_impl; [|exact Fl'].
    intros item line ([H0 Hle] & filled & Ef & Hf & ->). cbv zeta.
    rewrite <- (scaled_width_round_down max_val (snd item) w max_width filled
                  Hmaxfin H0 Hle Ew Pw Fw Ef).
    split; [exact Hf|reflexivity]. }
  exists max_val, w, lines.
  split; [exact Hin|]. split; [exact Hmax|]. split; [exact Xw|]. split; [|split].
  - unfold create_horizontal_bars. destruct data; [congruence|].
    rewrite El. reflexivity.
  - exact Frows.
  - intros Hzero.
    assert (Hmz : (0 <? max_val)%float = false).
    { apply (eqb_class_not_ltb 0); [reflexivity|].
      unfold values in Hin. apply in_map_iff in Hin. destruct Hin as (item & <- & Hitem).
      rewrite Forall_forall in Hzero. now apply Hzero. }
    rewrite Hmz in Frows. eapply Forall2_impl; [|exact Frows].
    intros item line [_ E]. exact E.
Qed.

Lemma horizontal_bars_rows_witness :
  exists lines,
    create_horizontal_bars [(lit "USED", 25%float); (lit "FREE", 75%float)] 35
    = Ok (Panel (Str (join [newline] lines)) None (lit "green") None) /\
    length lines = 2%nat.
Proof.
  destruct (horizontal_bars_rows [(lit "USED", 25%float); (lit "FREE", 75%float)] 35)
    as (max_val & w & lines & _ & _ & _ & E & F & _).
  - discriminate.
  - repeat constructor.
  - split; [lia|reflexivity].
  - exists lines. split; [exact E|]. apply Forall2_length in F. now rewrite <- F.
Defined.

(** C8, counterexample to the claim as stated. With the values 50 and 100
    and a width of 4 the first row is the label [A] in its field of 6, then
    the bar of two solid and two light cells, then the value: the row does
    not start with the bar, the label does not follow it. And a value that is
    not negative need not be finite: on a mapping that holds an infinity the
    call raises [ValueError], where the claim promises a row. *)
Lemma horizontal_bars_label_first :
  let row_a := lit "A      " ++ [full_block; full_block; light_shade; light_shade]
                 ++ lit "  50.0%" in
  let row_b := lit "B      " ++ [full_block; full_block; full_block; full_block]
                 ++ lit " 100.0%" in
  create_horizontal_bars [(lit "A", 50%float); (lit "B", 100%float)] 4
    = Ok (Panel (Str (row_a ++ [newline] ++ row_b)) None (lit "green") None) /\
  firstn 4 row_a <> bar 2 4 /\
  firstn 6 row_a = ljust (lit "A") 6 /\
  (0 <=? infinity)%float = true /\
  create_horizontal_bars [(lit "A", infinity)] 4 = Raise ValueError.
Proof.
  cbv zeta. split; [vm_compute; reflexivity|]. split; [vm_compute; discriminate|].
  repeat split; vm_compute; reflexivity.
Qed.

(** The bound on the width is where [float(max_width)] stops being exact:
    [2^53 + 3] becomes [2^53 + 4], and the bar of the maximum would have one
    solid cell more than the width. *)
Example scaled_width_beyond_exact_widths :
  scaled_width 1 (2 ^ 53 + 3) 1 = Ok (2 ^ 53 + 4).
Proof. vm_compute. reflexivity. Qed.

(** ** The two-row charts *)

Definition half_width (console_width : Z) : Z := Z.max 15 (Z.min 70 (console_width / 2)).

Lemma half_width_range (console_width : Z) :
  15 <= half_width console_width <= 70 /\ 1 <= half_width console_width < 2 ^ 53.
Proof.
  unfold half_width. split; [lia|]. split; [lia|].
  apply Z.le_lt_trans with 70; [lia|reflexivity].
Qed.

(** A chart of two percentages. *)
Lemma two_row_chart (l1 l2 : str) (v1 v2 : float) (max_width : Z) :
  percent_ok v1 -> percent_ok v2 -> 1 <= max_width < 2 ^ 53 ->
  exists f1 f2,
    0 <= f1 <= max_width /\ 0 <= f2 <= max_width /\
    create_horizontal_bars [(l1, v1); (l2, v2)] max_width
    = Ok (Panel (Str (join [newline] [ horizontal_row l1 v1 f1 max_width;
                                       horizontal_row l2 v2 f2 max_width ]))
            None (lit "green") None).
Proof.
  intros H1 H2 Hw.
  destruct (horizontal_bars_lines_total [(l1, v1); (l2, v2)] max_width)
    as (mx & lines & _ & _ & El & Fl).
  - discriminate.
  - repeat constructor; cbn [snd];
      first [now apply percent_ok_finite | apply H1 | apply H2].
  - exact Hw.
  - inversion Fl as [|i1 r1 t1 rs1 (f1 & _ & Hf1 & E1) Fl1]; subst.
    inversion Fl1 as [|i2 r2 t2 rs2 (f2 & _ & Hf2 & E2) Fl2]; subst.
    inversion Fl2; subst. cbn [fst snd] in *.
    exists f1, f2. split; [exact Hf1|]. split; [exact Hf2|].
    unfold create_horizontal_bars. rewrite El. reflexivity.
Qed.

(** [create_network_visualization]: for byte counters from 0 up to [2^53]
    the chart is returned; it has the rows UPLOAD and DOWNLOAD, in this
    order, each value being the counter in MiB times 10, capped at 100, and
    each bar within the width [console_width // 2] clamped to [15, 70]. *)
Theorem network_visualization_panel (network_info : NetworkInfo.t) (console_width : Z) :
  0 <= NetworkInfo.bytes_sent network_info < 2 ^ 53 ->
  0 <= NetworkInfo.bytes_recv network_info < 2 ^ 53 ->
  exists sent_mb recv_mb up down,
    int_truediv (NetworkInfo.bytes_sent network_info) (1024 * 1024) = Ok sent_mb /\
    int_truediv (NetworkInfo.bytes_recv network_info) (1024 * 1024) = Ok recv_mb /\
    percent_ok (activity sent_mb) /\ percent_ok (activity recv_mb) /\
    0 <= up <= half_width console_width /\ 0 <= down <= half_width console_width /\
    create_network_visualization network_info console_width
    = Ok (Panel (Str (join [newline]
                        [ horizontal_row (lit "UPLOAD") (activity sent_mb) up
                            (half_width console_width);
                          horizontal_row (lit "DOWNLOAD") (activity recv_mb) down
                            (half_width console_width) ]))
            None (lit "green") None).
Proof.
  intros Hs Hr.
  change (1024 * 1024) with (2 ^ 20).
  destruct (int_truediv_pow2_nonneg _ 20 Hs ltac:(lia)) as (sent_mb & Es & Vs & _).
  destruct (int_truediv_pow2_nonneg _ 20 Hr ltac:(lia)) as (recv_mb & Er & Vr & _).
  pose proof (activity_percent sent_mb (valid_nonneg_leb _ Vs)) as Pu.
  pose proof (activity_percent recv_mb (valid_nonneg_leb _ Vr)) as Pd.
  destruct (half_width_range console_width) as [_ Hw].
  destruct (two_row_chart (lit "UPLOAD") (lit "DOWNLOAD") _ _ _ Pu Pd Hw)
    as (up & down & Hu & Hd & E).
  exists sent_mb, recv_mb, up, down.
  repeat (split; [assumption|]).
  unfold create_network_visualization. change (1024 * 1024) with (2 ^ 20).
  rewrite Es, Er. cbn [bind]. exact E.
Qed.

Lemma network_visualization_panel_witness :
  exists sent_mb recv_mb up down,
    int_truediv (5 * 1024 * 1024) (1024 * 1024) = Ok sent_mb /\
    int_truediv (50 * 1024 * 1024) (1024 * 1024) = Ok recv_mb /\
    activity sent_mb = 50%float /\ activity recv_mb = 100%float /\
    create_network_visualization
      {| NetworkInfo.bytes_sent := 5 * 1024 * 1024;
         NetworkInfo.bytes_recv := 50 * 1024 * 1024 |} 80
    = Ok (Panel (Str (join [newline]
                        [ horizontal_row (lit "UPLOAD") (activity sent_mb) up (half_width 80);
                          horizontal_row (lit "DOWNLOAD") (activity recv_mb) down
                            (half_width 80) ]))
            None (lit "green") None).
Proof.
  destruct (network_visualization_panel
              {| NetworkInfo.bytes_sent := 5 * 1024 * 1024;
                 NetworkInfo.bytes_recv := 50 * 1024 * 1024 |} 80)
    as (sent_mb & recv_mb & up & down & Es & Er & _ & _ & _ & _ & E);
    [split; [vm_compute; discriminate|reflexivity]
    |split; [vm_compute; discriminate|reflexivity]|].
  exists sent_mb, recv_mb, up, down. cbn [NetworkInfo.bytes_sent NetworkInfo.bytes_recv] in *.
  split; [exact Es|]. split; [exact Er|].
  assert (sent_mb = 5%float) as -> by (vm_compute in Es; now injection Es).
  assert (recv_mb = 50%float) as -> by (vm_compute in Er; now injection Er).
  split; [reflexivity|]. split; [reflexivity|]. exact E.
Defined.

(** [create_memory_breakdown]: when [0 <= used <= total] and [total] is
    positive (and below [2^53] bytes) the chart is returned; it has the rows
    USED and FREE, both shares lie within [0, 100], and each bar is within
    the width [console_width // 2] clamped to [15, 70]. *)
Theorem memory_breakdown_panel (memory_info : MemoryInfo.t) (console_width : Z) :
  0 <= MemoryInfo.used memory_info <= MemoryInfo.total memory_info ->
  0 < MemoryInfo.total memory_info < 2 ^ 53 ->
  exists used_gb total_gb u f,
    int_truediv (MemoryInfo.used memory_info) (1024 ^ 3) = Ok used_gb /\
    int_truediv (MemoryInfo.total memory_info) (1024 ^ 3) = Ok total_gb /\
    let used_share := (used_gb / total_gb * 100)%float in
    let free_share := ((total_gb - used_gb) / total_gb * 100)%float in
    percent_ok used_share /\ percent_ok free_share /\
    0 <= u <= half_width console_width /\ 0 <= f <= half_width console_width /\
    create_memory_breakdown memory_info console_width
    = Ok (Panel (Str (join [newline]
                        [ horizontal_row (lit "USED") used_share u (half_width console_width);
                          horizontal_row (lit "FREE") free_share f
                            (half_width console_width) ]))
            None (lit "green") None).
Proof.
  intros Hu Ht. change (1024 ^ 3) with (2 ^ 30).
  destruct (int_truediv_pow2_nonneg (MemoryInfo.used memory_info) 30 ltac:(lia) ltac:(lia))
    as (used_gb & Eu & Vu & Lu).
  destruct (int_truediv_pow2_nonneg (MemoryInfo.total memory_info) 30 ltac:(lia) ltac:(lia))
    as (total_gb & Et & Vt & Lt).
  assert (P : 0 < 2 ^ (1074 - 30)) by (apply pow2_pos; lia).
  assert (Hle : (used_gb <=? total_gb)%float = true).
  { rewrite leb_spec. apply val_leb; try assumption. rewrite Lu, Lt. nia. }
  assert (Hpos : (0 <? total_gb)%float = true).
  { rewrite ltb_spec. change (Prim2SF 0) with (S754_zero false).
    destruct (Prim2SF total_gb) as [s|s| |[] m e]; try discriminate; try reflexivity.
    cbn [val] in Lt. nia. }
  pose proof (is_finite_intro _ Vt) as Ft. pose proof (is_finite_intro _ Vu) as Fu.
  pose proof (valid_nonneg_leb _ Vt) as Nt. pose proof (valid_nonneg_leb _ Vu) as Nu.
  destruct (sub_le_self total_gb used_gb Nt Ft Nu Fu Hle) as [Hf0 Hf1].
  pose proof (share_le used_gb total_gb 100 Nu Hle Hpos Ft eq_refl eq_refl) as Pu.
  pose proof (share_le (total_gb - used_gb) total_gb 100 Hf0 Hf1 Hpos Ft eq_refl eq_refl)
    as Pf.
  destruct (half_width_range console_width) as [_ Hw].
  destruct (two_row_chart (lit "USED") (lit "FREE") _ _ _ Pu Pf Hw) as (u & f & Hfu & Hff & E).
  exists used_gb, total_gb, u, f. cbv zeta.
  repeat (split; [assumption|]).
  unfold create_memory_breakdown. change (1024 ^ 3) with (2 ^ 30).
  rewrite Eu, Et. cbn [bind]. unfold float_div.
  rewrite (positive_not_zero _ Hpos). cbn [bind]. exact E.
Qed.

Lemma memory_breakdown_panel_witness :
  exists u f,
    create_memory_breakdown
      {| MemoryInfo.percent := 25; MemoryInfo.used := 2 * 1024 ^ 3;
         MemoryInfo.total := 8 * 1024 ^ 3 |} 80
    = Ok (Panel (Str (join [newline]
                        [ horizontal_row (lit "USED") 25 u (half_width 80);
                          horizontal_row (lit "FREE") 75 f (half_width 80) ]))
            None (lit "green") None).
Proof.
  destruct (memory_breakdown_panel
              {| MemoryInfo.percent := 25; MemoryInfo.used := 2 * 1024 ^ 3;
                 MemoryInfo.total := 8 * 1024 ^ 3 |} 80)
    as (used_gb & total_gb & u & f & Eu & Et & _ & _ & _ & _ & E);
    [split; vm_compute; discriminate|split; [reflexivity|reflexivity]|].
  cbn [MemoryInfo.used MemoryInfo.total] in *.
  assert (used_gb = 2%float) as -> by (vm_compute in Eu; now injection Eu).
  assert (total_gb = 8%float) as -> by (vm_compute in Et; now injection Et).
  exists u, f. exact E.
Defined.

Section DashboardFrames.

Context {M : Type} `{DataProvider M}.

Import Dashboard.

(** The tree [render] returns: the tree of [_make_layout] with a renderable
    in each of the seven leaves. *)
Definition filled_layout (header footer gauges cores memory network processes : Renderable)
  : Layout.t :=
  let leaf (n : string) size ratio r :=
    Layout.Node (Some (lit n)) size ratio (Some r) Layout.ColumnSplitter [] in
  Layout.Node None None 1 None Layout.ColumnSplitter
    [ leaf "header"%string (Some 3) 1 header;
      region "body" None 1 Layout.ColumnSplitter
        [ region "top" None 2 Layout.RowSplitter
            [ leaf "gauges"%string None 1 gauges; leaf "cores"%string None 1 cores ];
          region "middle" None 1 Layout.RowSplitter
            [ leaf "memory"%string None 1 memory; leaf "network"%string None 1 network ];
          leaf "processes"%string None 2 processes ];
      leaf "footer"%string (Some 3) 1 footer ].

(** The panels of one frame, computed from the monitor alone. *)
Definition cpu_panel (m : M) : result Renderable :=
  let cpu := get_cpu_info m in
  spark <- create_sparkline (get_cpu_history m) 80 6 ;;
  cores <- create_cpu_core_visualization cpu 80 ;;
  Ok (Panel (Group [Text (lit "CPU Usage: " ++ fmt_float_1f (CpuInfo.percent cpu) ++ lit "%") None;
                    Str spark; cores])
        (Some (lit "CPU Cores")) (lit "red") None).

Definition memory_panel (m : M) : result Renderable :=
  let mem := get_memory_info m in
  spark <- create_sparkline (get_memory_history m) 80 5 ;;
  breakdown <- create_memory_breakdown mem 80 ;;
  Ok (Panel (Group [Text (lit "Memory: " ++ fmt_float_1f (MemoryInfo.percent mem) ++ lit "%") None;
                    Str spark; breakdown])
        (Some (lit "Memory & Swap")) (lit "green") None).

Definition frame (self : t M) : result Layout.t :=
  let m := monitor self in
  gauges <- create_system_gauges (get_cpu_info m) (get_memory_info m) (get_disk_info m) 80 ;;
  cores <- cpu_panel m ;;
  memory <- memory_panel m ;;
  network <- create_network_visualization (get_network_info m) 80 ;;
  processes <- create_mini_process_table (visible_processes self) 12 80 ;;
  Ok (filled_layout _create_header _create_footer gauges cores memory network processes).

Ltac run_updates :=
  repeat
    match goal with
    | |- context [update_at ?p ?r ?t] =>
        let x := fresh "r" in
        remember r as x;
        let v := eval vm_compute in (update_at p x t) in
        change (update_at p x t) with v;
        cbv beta iota zeta delta [fst snd]
    end.

Lemma render_regions_frame (self : t M) :
  layout self = fresh_layout -> fst (render_regions self) = frame self.
Proof.
  destruct self as [h m lay srt]. cbn [layout]. intros ->.
  unfold frame, cpu_panel, memory_panel, render_regions.
  cbv [bindM update_region read lift ret set_layout with_layout layout monitor
       console_height sort_processes_by _create_system_gauges _create_cpu_cores
       _create_memory_visual _create_network_visual _create_processes_visual].
  cbn [monitor].
  run_updates.
  destruct (create_system_gauges (get_cpu_info m) (get_memory_info m) (get_disk_info m) 80)
    as [g|e]; cbn [bind]; [|reflexivity].
  run_updates.
  destruct (create_sparkline (get_cpu_history m) 80 6) as [s1|e]; cbn [bind]; [|reflexivity].
  destruct (create_cpu_core_visualization (get_cpu_info m) 80) as [c|e]; cbn [bind];
    [|reflexivity].
  run_updates.
  destruct (create_sparkline (get_memory_history m) 80 5) as [s2|e]; cbn [bind];
    [|reflexivity].
  destruct (create_memory_breakdown (get_memory_info m) 80) as [b|e]; cbn [bind];
    [|reflexivity].
  run_updates.
  destruct (create_network_visualization (get_network_info m) 80) as [n|e]; cbn [bind];
    [|reflexivity].
  run_updates.
  unfold visible_processes. cbn [console_height monitor sort_processes_by].
  match goal with
  | |- context [create_mini_process_table ?a ?b ?c] =>
      destruct (create_mini_process_table a b c) as [p|e]; cbn [bind]; [|reflexivity]
  end.
  run_updates. subst. reflexivity.
Qed.

End DashboardFrames.

(** ** Vertical bars *)

Lemma mapM_map {A B} (f : A -> result B) (g : A -> B) (l : list A) :
  (forall a, In a l -> f a = Ok (g a)) -> mapM f l = Ok (map g l).
Proof.
  induction l as [|a l IH]; cbn [mapM map]; intros E; [reflexivity|].
  rewrite (E a) by now left. cbn [bind].
  rewrite IH by (intros; apply E; now right). reflexivity.
Qed.

Lemma Forall2_exists_map {A B C} (f : C -> B) (P : A -> C -> Prop) (l1 : list A)
  (l2 : list B) :
  Forall2 (fun a b => exists c, b = f c /\ P a c) l1 l2 ->
  exists l3, l2 = map f l3 /\ Forall2 P l1 l3.
Proof.
  induction 1 as [|a b l1 l2 (c & -> & Hc) _ (l3 & -> & F3)].
  - exists []. split; [reflexivity|constructor].
  - exists (c :: l3). split; [reflexivity|now constructor].
Qed.

Lemma Forall2_compose {A B C} (P : A -> B -> Prop) (Q : B -> C -> Prop)
  (R : A -> C -> Prop) (l1 : list A) (l2 : list B) (l3 : list C) :
  (forall a b c, P a b -> Q b c -> R a c) ->
  Forall2 P l1 l2 -> Forall2 Q l2 l3 -> Forall2 R l1 l3.
Proof.
  intros H F1. revert l3. induction F1 as [|a b l1 l2 Hab _ IH]; intros l3 F2.
  - inversion F2. constructor.
  - inversion F2 as [|b' c l2' l3' Hbc F2']; subst. constructor; eauto.
Qed.

Lemma In_range_down (n level : Z) : In level (range_down n) -> 1 <= level <= n.
Proof.
  unfold range_down. rewrite in_map_iff. intros (k & <- & Hk).
  apply in_seq in Hk. lia.
Qed.

Lemma len_range_down (n : Z) : len (range_down n) = Z.max 0 n.
Proof. unfold range_down, len. rewrite length_map, length_seq. lia. Qed.

(** One cell of a bar row: the glyph and two spaces. *)
Definition vertical_cell (filled : bool) : str :=
  (if filled then full_block else space) :: lit "  ".

Definition vertical_row (flags : list bool) : str := concat (map vertical_cell flags).

Lemma len_vertical_row (flags : list bool) : len (vertical_row flags) = 3 * len flags.
Proof.
  unfold vertical_row, len. induction flags as [|b flags IH]; [reflexivity|].
  cbn [map concat]. rewrite length_app.
  change (length (vertical_cell b)) with 3%nat. cbn [length]. lia.
Qed.

Lemma vertical_bars_line_total (height width : Z) (bar_widths : list Z) (level : Z) :
  1 <= level <= height -> 1 <= width < 2 ^ 53 ->
  exists flags,
    vertical_bars_line height width bar_widths level = Ok (vertical_row flags) /\
    Forall2 (fun bar_width flag => bar_width = width -> flag = true) bar_widths flags.
Proof.
  intros Hl Hw.
  destruct (threshold_le_width level height width Hl Hw) as (r & w & Er & Ew & Hge).
  exists (map (fun bar_width => int_ge_float bar_width (r * w)) bar_widths). split.
  - unfold vertical_bars_line, vertical_row.
    rewrite (mapM_map _ (fun bar_width => vertical_cell (int_ge_float bar_width (r * w)))).
    + cbn [bind]. now rewrite map_map.
    + intros bw _. rewrite Er, Ew. reflexivity.
  - induction bar_widths as [|bw bws IH]; cbn [map]; constructor; [|exact IH].
    now intros ->.
Qed.

Lemma len_label_cell (label : str) : len (ljust (slice_to label 8) 8 ++ lit "  ") = 10.
Proof.
  unfold ljust, len. rewrite !length_app, repeat_length.
  assert (H : len (slice_to label 8) <= 8).
  { rewrite len_slice_to by lia. lia. }
  unfold len in H. change (length (lit "  ")) with 2%nat. lia.
Qed.

Lemma len_vertical_bars_label_line (labels : list str) :
  len (vertical_bars_label_line labels) = 10 * len labels.
Proof.
  unfold vertical_bars_label_line. induction labels as [|l ls IH]; [reflexivity|].
  cbn [map concat]. unfold len in *. rewrite length_app.
  pose proof (len_label_cell l) as Hc. unfold len in Hc. cbn [length]. lia.
Qed.

(** The chart of [create_vertical_bars], row by row. *)
Lemma vertical_bars_chart (data : dict float) (height width : Z) (max_val : float) :
  Forall (fun item => is_finite (snd item) = true /\ (0 <=? snd item)%float = true) data ->
  1 <= height -> 1 <= width < 2 ^ 53 ->
  py_max (values data) = Ok max_val ->
  exists rows : list (list bool),
    create_vertical_bars data height width
      = Ok (Panel (Str (join [newline]
                          (map vertical_row rows ++ [vertical_bars_label_line (keys data)])))
              None (lit "blue") None) /\
    len rows = height /\
    Forall (fun flags =>
              len (vertical_row flags) = 3 * len data /\
              ((0 <? max_val)%float = true ->
               Forall2 (fun v flag => v = max_val -> flag = true) (values data) flags))
      rows /\
    len (vertical_bars_label_line (keys data)) = 10 * len data.
Proof.
  intros Hdata Hh Hw Emax.
  destruct data as [|[label0 v0] rest]; [discriminate Emax|].
  set (data := (label0, v0) :: rest) in *.
  assert (Emax' : max_from v0 (values rest) = max_val).
  { change (py_max (values data)) with (Ok (max_from v0 (values rest))) in Emax.
    now injection Emax. }
  clear Emax. rename Emax' into Emax.
  assert (Hnan : Forall (fun v => is_nan v = false) (values data)).
  { unfold values. rewrite Forall_map. eapply Forall_impl; [|exact Hdata].
    intros item [Hf _]. now apply finite_not_nan. }
  destruct (max_from_spec (values rest) v0 Hnan) as [Hin Hmax].
  rewrite Emax in Hin, Hmax.
  change (v0 :: values rest) with (values data) in Hin, Hmax.
  assert (Hmaxfin : is_finite max_val = true).
  { unfold values in Hin.
    apply in_map_iff in Hin. destruct Hin as (item & <- & Hitem).
    rewrite Forall_forall in Hdata. now apply Hdata. }
  destruct (mapM_Forall2_total (scaled_width max_val width)
              (fun v bw => 0 <= bw <= width /\
                           ((0 <? max_val)%float = true -> v = max_val -> bw = width))
              (values data)) as (bws & Ebws & Fbws).
  { apply Forall_forall. intros v Hv.
    assert (Hle : (v <=? max_val)%float = true).
    { rewrite Forall_forall in Hmax. now apply Hmax. }
    unfold values in Hv. apply in_map_iff in Hv. destruct Hv as (item & <- & Hitem).
    rewrite Forall_forall in Hdata. destruct (Hdata _ Hitem) as [Hf H0].
    destruct (scaled_width_bounded max_val (snd item) width Hmaxfin H0 Hle Hw)
      as (filled & Ef & Hfilled).
    exists filled. split; [exact Ef|]. split; [exact Hfilled|].
    intros Hpos Ev. rewrite Ev, scaled_width_of_max in Ef by assumption. congruence. }
  destruct (mapM_Forall2_total (vertical_bars_line height width bws)
              (fun level line => exists flags, line = vertical_row flags /\
                 Forall2 (fun bar_width flag => bar_width = width -> flag = true) bws flags)
              (range_down height)) as (lines & Elines & Flines).
  { apply Forall_forall. intros level Hlevel. apply In_range_down in Hlevel.
    destruct (vertical_bars_line_total height width bws level Hlevel Hw) as (flags & E & F).
    exists (vertical_row flags). split; [exact E|]. now exists flags. }
  apply Forall2_exists_map in Flines. destruct Flines as (rows & -> & Frows).
  exists rows. split; [|split; [|split]].
  - change (create_vertical_bars data height width)
      with (chart <- (bar_widths <- mapM (scaled_width (max_from v0 (values rest)) width)
                                      (values data) ;;
                      lines <- mapM (vertical_bars_line height width bar_widths)
                                 (range_down height) ;;
                      Ok (lines ++ [vertical_bars_label_line (keys data)])) ;;
            Ok (Panel (Str (join [newline] chart)) None (lit "blue") None)).
    rewrite Emax, Ebws. cbn [bind]. rewrite Elines. reflexivity.
  - apply Forall2_length in Frows. unfold len. rewrite <- Frows.
    pose proof (len_range_down height) as Hl. unfold len in Hl. lia.
  - assert (Hlen : length bws = length data).
    { apply Forall2_length in Fbws. unfold values in Fbws. rewrite length_map in Fbws.
      lia. }
    clear Elines. induction Frows as [|level flags levels rows Hflags _ IH];
      constructor; [|exact IH].
    split.
    + rewrite len_vertical_row. apply Forall2_length in Hflags. unfold len. lia.
    + intros Hpos. eapply Forall2_compose; [|exact Fbws|exact Hflags].
      cbn beta. intros v bw flag (_ & Hv) Hbw Ev. apply Hbw. now apply Hv.
  - rewrite len_vertical_bars_label_line. unfold keys, len. now rewrite length_map.
Qed.

(** [create_vertical_bars]: for finite, non-negative values, a height of at
    least 1 and a width from 1 up to [2^53], the chart is returned; it has
    [height] bar rows of three characters per entry and, below them, the
    label row of ten characters per entry (labels cut to 8). When the maximum
    is positive the bar of every entry that holds it is drawn in every row,
    the top one included. *)
Theorem vertical_bars_shape (data : dict float) (height width : Z) (max_val : float) :
  Forall (fun item => is_finite (snd item) = true /\ (0 <=? snd item)%float = true) data ->
  1 <= height -> 1 <= width < 2 ^ 53 ->
  py_max (values data) = Ok max_val ->
  exists rows : list (list bool),
    create_vertical_bars data height width
      = Ok (Panel (Str (join [newline]
                          (map vertical_row rows ++ [vertical_bars_label_line (keys data)])))
              None (lit "blue") None) /\
    len rows = height /\
    Forall (fun flags =>
              len (vertical_row flags) = 3 * len data /\
              ((0 <? max_val)%float = true ->
               Forall2 (fun v flag => v = max_val -> flag = true) (values data) flags))
      rows /\
    len (vertical_bars_label_line (keys data)) = 10 * len data.
Proof.
  apply vertical_bars_chart.
Qed.

Lemma vertical_bars_shape_witness :
  exists rows,
    create_vertical_bars [(lit "C00", 10%float); (lit "C01", 90%float)] 8 20
      = Ok (Panel (Str (join [newline]
                          (map vertical_row rows
                             ++ [vertical_bars_label_line [lit "C00"; lit "C01"]])))
              None (lit "blue") None) /\
    len rows = 8 /\
    Forall (fun flags =>
              len (vertical_row flags) = 3 * 2 /\
              ((0 <? 90)%float = true ->
               Forall2 (fun v flag => v = 90%float -> flag = true) [10; 90]%float flags))
      rows.
Proof.
  destruct (vertical_bars_shape [(lit "C00", 10%float); (lit "C01", 90%float)] 8 20 90)
    as (rows & E & Hl & Hr & _);
    [repeat constructor|lia|split; [lia|reflexivity]|reflexivity|].
  exists rows. auto.
Defined.

(** ** Decimal labels *)

(** The number that a string of decimal digits spells. *)
Fixpoint digits_value_from (acc : N) (s : str) : N :=
  match s with
  | [] => acc
  | c :: s' => digits_value_from (10 * acc + (c - 48)) s'
  end.

Definition digits_value (s : str) : N := digits_value_from 0 s.

Lemma digits_value_acc (d : Decimal.uint) (acc : positive) :
  digits_value_from (Npos acc) (lit (NilEmpty.string_of_uint d))
  = Npos (Pos.of_uint_acc d acc).
Proof.
  revert acc. induction d as [|d IH|d IH|d IH|d IH|d IH|d IH|d IH|d IH|d IH|d IH];
    intros acc; [reflexivity|..];
    cbn [NilEmpty.string_of_uint Pos.of_uint_acc];
    change (lit (String ?c ?s)) with (N_of_ascii c :: lit s);
    cbn [digits_value_from]; rewrite <- IH; f_equal;
    match goal with |- context [N_of_ascii ?c] =>
      let v := eval vm_compute in (N_of_ascii c) in change (N_of_ascii c) with v
    end; lia.
Qed.

Lemma digits_value_uint (d : Decimal.uint) :
  digits_value (lit (NilEmpty.string_of_uint d)) = Pos.of_uint d.
Proof.
  unfold digits_value.
  induction d as [|d IH|d IH|d IH|d IH|d IH|d IH|d IH|d IH|d IH|d IH];
    [reflexivity|exact IH|..];
    cbn [NilEmpty.string_of_uint Pos.of_uint];
    change (lit (String ?c ?s)) with (N_of_ascii c :: lit s);
    cbn [digits_value_from]; rewrite <- digits_value_acc; reflexivity.
Qed.

(** Reading back what [fmt_int] writes. *)
Lemma digits_value_fmt_int (n : Z) : 0 <= n -> digits_value (fmt_int n) = Z.to_N n.
Proof.
  intros Hn. unfold fmt_int. destruct n as [|p|p]; [reflexivity| |lia].
  cbn [Z.to_int NilZero.string_of_int]. unfold NilZero.string_of_uint.
  pose proof (DecimalPos.Unsigned.to_uint_nonnil p) as Hnn.
  destruct (Pos.to_uint p) eqn:E; try contradiction; rewrite <- E;
    rewrite digits_value_uint, DecimalPos.Unsigned.of_to; reflexivity.
Qed.

Lemma digits_value_zeros (k : nat) (s : str) :
  digits_value (repeat 48%N k ++ s) = digits_value s.
Proof. unfold digits_value. induction k as [|k IH]; [reflexivity|exact IH]. Qed.

Lemma core_label_inj (i j : Z) : 0 <= i -> 0 <= j -> core_label i = core_label j -> i = j.
Proof.
  intros Hi Hj E. unfold core_label, fmt_int_zero_pad in E.
  replace (i <? 0) with false in E by (symmetry; apply Z.ltb_ge; lia).
  replace (j <? 0) with false in E by (symmetry; apply Z.ltb_ge; lia).
  rewrite !Z.abs_eq in E by lia. cbn [app] in E.
  change (lit "C") with [67%N] in E. cbn [app] in E. injection E as E.
  apply (f_equal digits_value) in E.
  rewrite !digits_value_zeros, !digits_value_fmt_int in E by assumption. lia.
Qed.

(** ** One column per core *)

Lemma dict_set_fresh {V} (d : dict V) (k : str) (v : V) :
  ~ In k (keys d) -> dict_set d k v = d ++ [(k, v)].
Proof.
  induction d as [|[k' v'] d IH]; cbn [dict_set keys map fst app In]; intros Hk;
    [reflexivity|].
  unfold str_eqb. destruct (list_eq_dec N.eq_dec k' k) as [->|N]; [tauto|].
  f_equal. apply IH. unfold keys. tauto.
Qed.

Lemma core_data_from (cores : list float) (start : nat) (d : dict float) :
  (forall k, In k (keys d) -> exists i, 0 <= i < Z.of_nat start /\ k = core_label i) ->
  fold_left (fun d '(i, core_percent) => dict_set d (core_label i) core_percent)
    (combine (map Z.of_nat (seq start (length cores))) cores) d
  = d ++ combine (map (fun i => core_label (Z.of_nat i)) (seq start (length cores))) cores.
Proof.
  revert start d. induction cores as [|c cores IH]; intros start d Hd.
  - cbn. now rewrite app_nil_r.
  - cbn [length seq map combine fold_left].
    rewrite dict_set_fresh.
    + rewrite IH.
      * rewrite <- app_assoc. reflexivity.
      * intros k Hk. unfold keys in Hk. rewrite map_app in Hk. apply in_app_iff in Hk.
        destruct Hk as [Hk|[<-|[]]].
        -- destruct (Hd k Hk) as (i & Hi & ->). exists i. split; [lia|reflexivity].
        -- exists (Z.of_nat start). split; [lia|reflexivity].
    + intros Hk. destruct (Hd _ Hk) as (i & Hi & E).
      apply core_label_inj in E; lia.
Qed.

(** The mapping built from the per-core readings has one entry per core, in
    core order: the labels are pairwise distinct, so no reading overwrites
    another. *)
Lemma core_data_entries (cores : list float) :
  core_data cores
  = combine (map (fun i => core_label (Z.of_nat i)) (seq 0 (length cores))) cores.
Proof.
  unfold core_data, enumerate. rewrite core_data_from; [reflexivity|].
  intros k [].
Qed.

Lemma values_core_data (cores : list float) : values (core_data cores) = cores.
Proof.
  rewrite core_data_entries. unfold values.
  assert (H : forall (l1 : list str) (l2 : list float),
             length l1 = length l2 -> map snd (combine l1 l2) = l2).
  { induction l1 as [|a l1 IH]; intros [|b l2] E; try discriminate; [reflexivity|].
    cbn. f_equal. apply IH. now injection E. }
  apply H. now rewrite length_map, length_seq.
Qed.

Lemma keys_core_data (cores : list float) :
  keys (core_data cores) = map (fun i => core_label (Z.of_nat i)) (seq 0 (length cores)).
Proof.
  rewrite core_data_entries. unfold keys.
  assert (H : forall (l1 : list str) (l2 : list float),
             length l1 = length l2 -> map fst (combine l1 l2) = l1).
  { induction l1 as [|a l1 IH]; intros [|b l2] E; try discriminate; [reflexivity|].
    cbn. f_equal. apply IH. now injection E. }
  apply H. now rewrite length_map, length_seq.
Qed.

Lemma len_core_data (cores : list float) : len (core_data cores) = len cores.
Proof.
  unfold len. rewrite <- (values_core_data cores) at 2. unfold values.
  now rewrite length_map.
Qed.

(** [create_cpu_core_visualization], for any number of cores: with finite,
    non-negative readings the chart is returned at every console width; it
    has eight bar rows and the label row, with one column per core, in core
    order, labelled [C00], [C01], ... (no core is lost to a label clash), and
    the bar of a core that holds the positive maximum is drawn in all eight
    rows. *)
Theorem cpu_core_visualization_columns (cpu_info : CpuInfo.t) (console_width : Z)
  (max_val : float) :
  let cores := CpuInfo.percent_per_core cpu_info in
  Forall (fun v => is_finite v = true /\ (0 <=? v)%float = true) cores ->
  py_max cores = Ok max_val ->
  exists rows : list (list bool),
    let labels := map (fun i => core_label (Z.of_nat i)) (seq 0 (length cores)) in
    create_cpu_core_visualization cpu_info console_width
      = Ok (Panel (Str (join [newline]
                          (map vertical_row rows ++ [vertical_bars_label_line labels])))
              None (lit "blue") None) /\
    len rows = 8 /\
    Forall (fun flags =>
              len (vertical_row flags) = 3 * len cores /\
              ((0 <? max_val)%float = true ->
               Forall2 (fun v flag => v = max_val -> flag = true) cores flags))
      rows /\
    len (vertical_bars_label_line labels) = 10 * len cores /\
    NoDup labels.
Proof.
  cbv zeta. remember (CpuInfo.percent_per_core cpu_info) as cores eqn:Ec.
  intros Hcores Emax.
  assert (Hw : 1 <= core_bar_width console_width < 2 ^ 53).
  { unfold core_bar_width. split; [lia|].
    apply Z.le_lt_trans with 40; [lia|reflexivity]. }
  destruct (vertical_bars_chart (core_data cores) 8 (core_bar_width console_width) max_val)
    as (rows & E & Hl & Hr & Hlab).
  - rewrite <- (values_core_data cores) in Hcores. unfold values in Hcores.
    now rewrite Forall_map in Hcores.
  - lia.
  - exact Hw.
  - now rewrite values_core_data.
  - rewrite keys_core_data, values_core_data, len_core_data in *.
    exists rows. cbv zeta. split; [|split; [exact Hl|split; [exact Hr|split; [exact Hlab|]]]].
    + unfold create_cpu_core_visualization. rewrite <- Ec.
      destruct cores as [|c cs]; [discriminate Emax|exact E].
    + apply NoDup_map_NoDup_ForallPairs; [|apply seq_NoDup].
      intros i j _ _ Eij. apply core_label_inj in Eij; lia.
Qed.

Lemma cpu_core_visualization_columns_witness :
  exists rows : list (list bool),
    create_cpu_core_visualization
      {| CpuInfo.percent := 40; CpuInfo.percent_per_core := [10; 90; 20; 40]%float |} 200
      = Ok (Panel (Str (join [newline]
                          (map vertical_row rows
                             ++ [vertical_bars_label_line
                                   [lit "C00"; lit "C01"; lit "C02"; lit "C03"]])))
              None (lit "blue") None) /\
    len rows = 8.
Proof.
  destruct (cpu_core_visualization_columns
              {| CpuInfo.percent := 40; CpuInfo.percent_per_core := [10; 90; 20; 40]%float |}
              200 90)
    as (rows & E & Hl & _); [repeat constructor|reflexivity|].
  exists rows. split; [exact E|exact Hl].
Defined.

(** ** The difference of two distinct floats is not zero *)

Lemma canonical_unique (m m' : positive) (e e' : Z) :
  bounded prec emax m e = true -> bounded prec emax m' e' = true ->
  Zpos m * 2 ^ (e + 1074) = Zpos m' * 2 ^ (e' + 1074) -> m = m' /\ e = e'.
Proof.
  intros B B' E.
  pose proof (val_lt_lex m m' e e' B B') as L1.
  pose proof (val_lt_lex m' m e' e B' B) as L2.
  destruct (Z.lt_trichotomy e e') as [H|[H|H]].
  - specialize (L1 (or_introl H)). lia.
  - destruct (Pos.lt_total m m') as [G|[G|G]].
    + specialize (L1 (or_intror (conj H G))). lia.
    + auto.
    + specialize (L2 (or_intror (conj (eq_sym H) G))). lia.
  - specialize (L2 (or_introl H)). lia.
Qed.

Lemma sub_nonzero (x y : float) :
  (x =? y)%float = false -> (x - y =? 0)%float = false.
Proof.
  rewrite !eqb_spec, sub_spec. change (Prim2SF 0) with (S754_zero false).
  pose proof (Prim2SF_valid x) as Vx. pose proof (Prim2SF_valid y) as Vy.
  destruct (Prim2SF x) as [sx|sx| |sx mx ex], (Prim2SF y) as [sy|sy| |sy my ey];
    try (destruct sx, sy; cbn; intros; reflexivity || discriminate);
    try (destruct sx; cbn; intros; reflexivity || discriminate);
    try (destruct sy; cbn; intros; reflexivity || discriminate);
    try (cbn; intros; reflexivity || discriminate).
  unfold valid_binary in Vx, Vy. cbn [SpecFloat.valid_binary] in Vx, Vy.
  destruct (canonical_digits mx ex Vx) as (_ & _ & Hex).
  destruct (canonical_digits my ey Vy) as (_ & _ & Hey).
  intros Hne. unfold SF64sub, SFsub.
  set (ez := Z.min ex ey).
  rewrite !shl_align_val by (unfold ez; lia).
  assert (Hz : -1074 <= ez) by (unfold ez; lia).
  pose proof (pow2_pos (ex - ez) ltac:(unfold ez; lia)) as Px.
  pose proof (pow2_pos (ey - ez) ltac:(unfold ez; lia)) as Py.
  destruct (cond_Zopp sx (Zpos mx * 2 ^ (ex - ez)) - cond_Zopp sy (Zpos my * 2 ^ (ey - ez)))
    as [|p|p] eqn:Ez; cbn [binary_normalize].
  - exfalso.
    assert (Hs : sx = sy /\ Zpos mx * 2 ^ (ex - ez) = Zpos my * 2 ^ (ey - ez)).
    { destruct sx, sy; cbn [cond_Zopp] in Ez; split; try reflexivity; nia. }
    destruct Hs as [-> Hv].
    destruct (canonical_unique mx my ex ey Vx Vy) as [-> ->].
    + assert (0 <= ex - ez /\ 0 <= ey - ez) as [Gx Gy] by (unfold ez; lia).
      replace (ex + 1074) with ((ex - ez) + (ez + 1074)) by lia.
      replace (ey + 1074) with ((ey - ez) + (ez + 1074)) by lia.
      rewrite (Z.pow_add_r 2 (ex - ez)), (Z.pow_add_r 2 (ey - ez)) by lia.
      rewrite !Z.mul_assoc, Hv. reflexivity.
    + unfold SFeqb in Hne. rewrite SFcompare_refl in Hne by discriminate.
      discriminate Hne.
  - pose proof (binary_round_exact false p ez Hz) as HX.
    destruct (binary_round prec emax false p ez) as [s|[]| |[] m e];
      try reflexivity; destruct HX.
  - pose proof (binary_round_exact true p ez Hz) as HX.
    destruct (binary_round prec emax true p ez) as [s|[]| |[] m e];
      try reflexivity; destruct HX.
Qed.

(** ** What the arithmetic of the renderers can raise *)

(** [r] raises no exception but those of [allowed]. The exceptions meant
    are those of the model: the ones of the arithmetic and of the lookup in
    the layout. *)

Definition raises_only (allowed : list exn) {A} (r : result A) : Prop :=
  forall e, r = Raise e -> In e allowed.

Lemma raises_only_ok (allowed : list exn) {A} (a : A) : raises_only allowed (Ok a).
Proof. intros e E. discriminate E. Qed.

Lemma raises_only_bind (allowed : list exn) {A B} (r : result A) (k : A -> result B) :
  raises_only allowed r -> (forall a, r = Ok a -> raises_only allowed (k a)) ->
  raises_only allowed (bind r k).
Proof.
  intros Hr Hk e. destruct r as [a|e']; cbn [bind].
  - exact (Hk a eq_refl e).
  - intros E. injection E as <-. now apply Hr.
Qed.

Lemma raises_only_mapM (allowed : list exn) {A B} (f : A -> result B) (l : list A) :
  (forall a, In a l -> raises_only allowed (f a)) -> raises_only allowed (mapM f l).
Proof.
  induction l as [|a l IH]; intros Hf; cbn [mapM]; [apply raises_only_ok|].
  apply raises_only_bind; [apply Hf; now left|]. intros b _.
  apply raises_only_bind; [apply IH; intros; apply Hf; now right|].
  intros bs _. apply raises_only_ok.
Qed.

Lemma raises_only_raise (allowed : list exn) {A B} (e : exn) :
  raises_only allowed (@Raise A e) -> raises_only allowed (@Raise B e).
Proof. intros Hr e' E. injection E as <-. now apply Hr. Qed.

Lemma raises_only_incl (l l' : list exn) {A} (r : result A) :
  incl l l' -> raises_only l r -> raises_only l' r.
Proof. intros Hi Hr e E. apply Hi. now apply Hr. Qed.

(** The exceptions of [int()] and [float()]. *)
Definition arithmetic : list exn := [ValueError; OverflowError].

Lemma float_of_int_raises (n : Z) : raises_only arithmetic (float_of_int n).
Proof.
  intros e. unfold float_of_int.
  destruct (binary_normalize prec emax n 0 false); intros E; try discriminate E.
  injection E as <-. now right; left.
Qed.

Lemma py_int_raises (x : float) : raises_only arithmetic (py_int x).
Proof.
  intros e. unfold py_int.
  destruct (Prim2SF x); intros E; try discriminate E; injection E as <-;
    [now right; left|now left].
Qed.

Lemma int_truediv_raises (a b : Z) : b <> 0 -> raises_only arithmetic (int_truediv a b).
Proof.
  intros Hb e. unfold int_truediv.
  replace (b =? 0) with false by (symmetry; now apply Z.eqb_neq).
  destruct (a =? 0); [discriminate|].
  destruct (SFdiv_core_binary prec emax (Z.abs a) 0 (Z.abs b) 0) as [[q e'] l].
  destruct (binary_round_aux prec emax (xorb (a <? 0) (b <? 0)) q e' l);
    intros E; try discriminate E.
  injection E as <-. now right; left.
Qed.

Lemma scaled_width_raises (max_val : float) (width : Z) (v : float) :
  raises_only arithmetic (scaled_width max_val width v).
Proof.
  unfold scaled_width. destruct (0 <? max_val)%float eqn:Hpos; [|apply raises_only_ok].
  unfold float_div. rewrite (positive_not_zero _ Hpos). cbn [bind].
  apply raises_only_bind; [apply float_of_int_raises|]. intros w _. apply py_int_raises.
Qed.

Lemma fill_raises (percentage : float) (width : Z) {A} (k : Z -> result A) :
  (forall filled, raises_only arithmetic (k filled)) ->
  raises_only arithmetic
    (w <- float_of_int width ;; filled <- py_int (percentage / 100 * w) ;; k filled).
Proof.
  intros Hk. apply raises_only_bind; [apply float_of_int_raises|]. intros w _.
  apply raises_only_bind; [apply py_int_raises|]. intros filled _. apply Hk.
Qed.

Lemma sparkline_range_nonzero (min_val max_val : float) :
  (sparkline_range min_val max_val =? 0)%float = false.
Proof.
  unfold sparkline_range. destruct (max_val =? min_val)%float eqn:E; cbn [negb].
  - reflexivity.
  - now apply sub_nonzero.
Qed.

Lemma create_sparkline_raises (data : list float) (width height : Z) :
  raises_only arithmetic (create_sparkline data width height).
Proof.
  destruct data as [|x xs]; [apply raises_only_ok|].
  change (create_sparkline (x :: xs) width height)
    with (mapM (sparkline_glyph (min_from x xs)
                  (sparkline_range (min_from x xs) (max_from x xs)))
            (sparkline_window (x :: xs) width)).
  apply raises_only_mapM. intros v _. unfold sparkline_glyph, float_div.
  rewrite sparkline_range_nonzero. cbn [bind].
  apply raises_only_bind; [apply float_of_int_raises|]. intros n _.
  apply raises_only_bind; [apply py_int_raises|]. intros i _. apply raises_only_ok.
Qed.

Lemma py_max_values_raises (data : dict float) :
  raises_only arithmetic
    (match values data with [] => Ok 1%float | vs => py_max vs end).
Proof. destruct data as [|[l v] rest]; apply raises_only_ok. Qed.

Lemma create_horizontal_bars_raises (data : dict float) (max_width : Z) :
  raises_only arithmetic (create_horizontal_bars data max_width).
Proof.
  unfold create_horizontal_bars. destruct data as [|item rest]; [apply raises_only_ok|].
  apply raises_only_bind; [|intros; apply raises_only_ok].
  unfold horizontal_bars_lines.
  apply raises_only_bind; [apply py_max_values_raises|]. intros max_val _.
  apply raises_only_mapM. intros [label value] _. unfold horizontal_bar_line.
  apply raises_only_bind; [apply scaled_width_raises|]. intros; apply raises_only_ok.
Qed.

Lemma create_vertical_bars_raises (data : dict float) (height width : Z) :
  raises_only arithmetic (create_vertical_bars data height width).
Proof.
  unfold create_vertical_bars. destruct data as [|item rest]; [apply raises_only_ok|].
  apply raises_only_bind; [|intros; apply raises_only_ok].
  unfold vertical_bars_text.
  apply raises_only_bind; [apply py_max_values_raises|]. intros max_val _.
  apply raises_only_bind; [apply raises_only_mapM; intros; apply scaled_width_raises|].
  intros bar_widths _.
  apply raises_only_bind; [|intros; apply raises_only_ok].
  apply raises_only_mapM. intros level Hlevel. apply In_range_down in Hlevel.
  unfold vertical_bars_line.
  apply raises_only_bind; [|intros; apply raises_only_ok].
  apply raises_only_mapM. intros bar_width _.
  apply raises_only_bind; [apply int_truediv_raises; lia|]. intros r _.
  apply raises_only_bind; [apply float_of_int_raises|]. intros; apply raises_only_ok.
Qed.

Lemma create_mini_process_table_raises (processes : list Process) (limit console_width : Z) :
  raises_only arithmetic (create_mini_process_table processes limit console_width).
Proof.
  unfold create_mini_process_table. destruct processes as [|p ps]; [apply raises_only_ok|].
  apply raises_only_bind; [|intros; apply raises_only_ok].
  unfold process_table_rows. apply raises_only_mapM. intros proc _.
  unfold process_row, _create_mini_bar.
  apply raises_only_bind; [apply fill_raises; intros; apply raises_only_ok|]. intros c _.
  apply raises_only_bind; [apply fill_raises; intros; apply raises_only_ok|]. intros m _.
  apply raises_only_ok.
Qed.

Lemma create_system_gauges_raises (cpu_info : CpuInfo.t) (memory_info : MemoryInfo.t)
  (disk_info : DiskInfo.t) (console_width : Z) :
  raises_only arithmetic (create_system_gauges cpu_info memory_info disk_info console_width).
Proof.
  unfold create_system_gauges, _create_gauge.
  repeat (apply raises_only_bind; [apply fill_raises; intros; apply raises_only_ok|];
          intros ? _).
  apply raises_only_ok.
Qed.

Lemma create_network_visualization_raises (network_info : NetworkInfo.t)
  (console_width : Z) :
  raises_only arithmetic (create_network_visualization network_info console_width).
Proof.
  unfold create_network_visualization.
  apply raises_only_bind; [apply int_truediv_raises; discriminate|]. intros sent_mb _.
  apply raises_only_bind; [apply int_truediv_raises; discriminate|]. intros recv_mb _.
  apply create_horizontal_bars_raises.
Qed.

Lemma create_cpu_core_visualization_raises (cpu_info : CpuInfo.t) (console_width : Z) :
  raises_only arithmetic (create_cpu_core_visualization cpu_info console_width).
Proof.
  unfold create_cpu_core_visualization.
  destruct (CpuInfo.percent_per_core cpu_info); [apply raises_only_ok|].
  apply create_vertical_bars_raises.
Qed.

Lemma create_memory_breakdown_raises (memory_info : MemoryInfo.t) (console_width : Z) :
  raises_only (ZeroDivisionError :: arithmetic)
    (create_memory_breakdown memory_info console_width).
Proof.
  unfold create_memory_breakdown.
  apply raises_only_bind.
  { eapply raises_only_incl; [|apply int_truediv_raises; discriminate].
    intros e He. now right. }
  intros used_gb _. apply raises_only_bind.
  { eapply raises_only_incl; [|apply int_truediv_raises; discriminate].
    intros e He. now right. }
  intros total_gb _. unfold float_div. destruct (total_gb =? 0)%float; cbn [bind].
  - intros e E. injection E as <-. now left.
  - eapply raises_only_incl; [|apply create_horizontal_bars_raises].
    intros e He. now right.
Qed.

Lemma format_bytes_raises (bytes_value : Z) :
  raises_only [OverflowError] (format_bytes bytes_value).
Proof.
  intros e. unfold format_bytes, float_of_int.
  destruct (binary_normalize prec emax bytes_value 0 false); cbn [bind]; intros E;
    try discriminate E.
  injection E as <-. now left.
Qed.

Lemma arithmetic_not_zero_division {A} (r : result A) :
  raises_only arithmetic r -> r <> Raise ZeroDivisionError.
Proof. intros Hr E. destruct (Hr _ E) as [G|[G|[]]]; discriminate G. Qed.

(** No chart but the memory breakdown divides by zero, whatever its
    arguments. The range of a sparkline is never zero, not even when the
    extremes differ by less than the smallest normal float; the bar charts
    divide by their maximum only when it is positive; and a bar chart of
    height 0 has no row to divide for. *)
Theorem charts_never_divide_by_zero :
  (forall data width height,
     create_sparkline data width height <> Raise ZeroDivisionError) /\
  (forall data height width,
     create_vertical_bars data height width <> Raise ZeroDivisionError) /\
  (forall data max_width,
     create_horizontal_bars data max_width <> Raise ZeroDivisionError) /\
  (forall processes limit console_width,
     create_mini_process_table processes limit console_width <> Raise ZeroDivisionError) /\
  (forall cpu_info memory_info disk_info console_width,
     create_system_gauges cpu_info memory_info disk_info console_width
     <> Raise ZeroDivisionError) /\
  (forall network_info console_width,
     create_network_visualization network_info console_width <> Raise ZeroDivisionError) /\
  (forall cpu_info console_width,
     create_cpu_core_visualization cpu_info console_width <> Raise ZeroDivisionError).
Proof.
  repeat split; intros; apply arithmetic_not_zero_division.
  - apply create_sparkline_raises.
  - apply create_vertical_bars_raises.
  - apply create_horizontal_bars_raises.
  - apply create_mini_process_table_raises.
  - apply create_system_gauges_raises.
  - apply create_network_visualization_raises.
  - apply create_cpu_core_visualization_raises.
Qed.

(** ** The memory breakdown divides by zero exactly when the total is zero *)

Lemma int_truediv_pow2_nonzero (a j : Z) (x : float) :
  a <> 0 -> 0 <= j <= 1000 -> int_truediv a (2 ^ j) = Ok x -> (x =? 0)%float = false.
Proof.
  intros Ha Hj. pose proof (pow2_pos j ltac:(lia)) as Pj.
  unfold int_truediv.
  replace (2 ^ j =? 0) with false by (symmetry; apply Z.eqb_neq; lia).
  replace (a =? 0) with false by (symmetry; now apply Z.eqb_neq).
  rewrite (Z.abs_eq (2 ^ j)) by lia.
  set (s := xorb (a <? 0) (2 ^ j <? 0)).
  assert (Habs : 0 < Z.abs a) by lia.
  pose proof (SFdiv_core_pre (Z.abs a) 0 (2 ^ j) 0 Habs Pj) as Hpre.
  destruct (SFdiv_core_binary prec emax (Z.abs a) 0 (2 ^ j) 0) as [[q e'] l].
  destruct Hpre as (Hq & Hcan & He' & Hqb & _).
  assert (Ed2 : Zdigits2 (2 ^ j) = j + 1).
  { replace (2 ^ j) with (1 * 2 ^ j) by lia. rewrite Zdigits2_mul_pow2 by lia.
    change (Zdigits2 1) with 1. lia. }
  rewrite Ed2, fexp64_eq in He'.
  pose proof (Zdigits2_bounds (Z.abs a) Habs) as [La _].
  pose proof (Zdigits2_pos (Z.abs a) Habs) as Hd.
  replace (0 - 0 - e') with (- e') in Hqb by lia.
  assert (He0 : -1074 <= e' <= 0) by lia.
  pose proof (pow2_pos (- e') ltac:(lia)) as Pe.
  assert (Hq1 : 1 <= q).
  { assert (Hge : 2 ^ j <= Z.abs a * 2 ^ (- e')).
    { destruct (Z.le_gt_cases (Zdigits2 (Z.abs a) - j - 54) 0) as [Hle|Hgt].
      - assert (Ee : - e' = (j + 54 - Zdigits2 (Z.abs a))) by lia. rewrite Ee.
        assert (Hp : 2 ^ (Zdigits2 (Z.abs a) - 1) * 2 ^ (j + 54 - Zdigits2 (Z.abs a))
                     = 2 ^ j * 2 ^ 53).
        { rewrite <- !Z.pow_add_r by lia. f_equal. lia. }
        pose proof (pow2_pos (j + 54 - Zdigits2 (Z.abs a)) ltac:(lia)).
        assert (2 ^ j * 2 ^ 53
                <= Z.abs a * 2 ^ (j + 54 - Zdigits2 (Z.abs a))) by (rewrite <- Hp; nia).
        assert (1 <= 2 ^ 53) by (change (2 ^ 53) with 9007199254740992; lia).
        nia.
      - pose proof (Z.pow_le_mono_r 2 j (Zdigits2 (Z.abs a) - 1) ltac:(lia) ltac:(lia)).
        nia. }
    nia. }
  pose proof (Zdigits2_pos q ltac:(lia)) as Hdq.
  pose proof (round_aux_valid s q e' l Hq Hcan) as V.
  pose proof (round_aux_nonzero s q e' l ltac:(lia) Hcan ltac:(lia)) as Hnz.
  destruct (binary_round_aux prec emax s q e' l) as [z|i| |sr m e] eqn:Er;
    intros E; try discriminate E;
    match type of E with Ok ?v = _ => replace x with v by congruence end;
    rewrite eqb_spec, Prim2SF_SF2Prim by exact V.
  - exfalso. now apply (Hnz z).
  - reflexivity.
  - now destruct sr.
Qed.

Lemma memory_breakdown_zero_division (memory_info : MemoryInfo.t) (console_width : Z) :
  (create_memory_breakdown memory_info console_width = Raise ZeroDivisionError ->
   MemoryInfo.total memory_info = 0) /\
  (MemoryInfo.total memory_info = 0 ->
   create_memory_breakdown memory_info console_width = Raise ZeroDivisionError \/
   create_memory_breakdown memory_info console_width = Raise OverflowError).
Proof.
  unfold create_memory_breakdown. change (1024 ^ 3) with (2 ^ 30). split.
  - intros E. destruct (Z.eq_dec (MemoryInfo.total memory_info) 0) as [|N]; [assumption|].
    exfalso.
    destruct (int_truediv (MemoryInfo.used memory_info) (2 ^ 30)) as [used_gb|e] eqn:Eu;
      cbn [bind] in E.
    + destruct (int_truediv (MemoryInfo.total memory_info) (2 ^ 30)) as [total_gb|e] eqn:Et;
        cbn [bind] in E.
      * unfold float_div in E.
        rewrite (int_truediv_pow2_nonzero _ 30 total_gb N ltac:(lia) Et) in E.
        cbn [bind] in E.
        destruct (create_horizontal_bars_raises _ _ _ E) as [G|[G|[]]]; discriminate G.
      * destruct (int_truediv_raises _ (2 ^ 30) ltac:(discriminate) _ Et) as [G|[G|[]]];
          congruence.
    + destruct (int_truediv_raises _ (2 ^ 30) ltac:(discriminate) _ Eu) as [G|[G|[]]];
        congruence.
  - intros ->.
    destruct (int_truediv (MemoryInfo.used memory_info) (2 ^ 30)) as [used_gb|e] eqn:Eu;
      cbn [bind].
    + left. reflexivity.
    + right. f_equal. revert Eu. unfold int_truediv.
      change (2 ^ 30 =? 0) with false. cbv iota.
      destruct (MemoryInfo.used memory_info =? 0); [discriminate|].
      destruct (SFdiv_core_binary prec emax (Z.abs (MemoryInfo.used memory_info)) 0
                  (Z.abs (2 ^ 30)) 0) as [[q e'] l].
      destruct (binary_round_aux prec emax _ q e' l); intros E;
        try discriminate E. now injection E.
Qed.

(** [create_memory_breakdown] raises [ZeroDivisionError] only for a total of
    0 bytes; and for a total of 0 it returns nothing: it raises
    [ZeroDivisionError], or [OverflowError] when [used] is beyond the range
    of the floats. *)
Theorem memory_breakdown_divides_by_zero_iff (memory_info : MemoryInfo.t)
  (console_width : Z) :
  (create_memory_breakdown memory_info console_width = Raise ZeroDivisionError ->
   MemoryInfo.total memory_info = 0) /\
  (MemoryInfo.total memory_info = 0 ->
   create_memory_breakdown memory_info console_width = Raise ZeroDivisionError \/
   create_memory_breakdown memory_info console_width = Raise OverflowError).
Proof. apply memory_breakdown_zero_division. Qed.

(** ** Frames of the dashboard *)

Section DashboardBehaviour.

Context {M : Type} `{DataProvider M}.

Import Dashboard.

Lemma create_system_gauges_pure (self : t M) :
  fst (_create_system_gauges self)
  = create_system_gauges (get_cpu_info (monitor self)) (get_memory_info (monitor self))
      (get_disk_info (monitor self)) 80.
Proof. reflexivity. Qed.

Lemma create_cpu_cores_pure (self : t M) :
  fst (_create_cpu_cores self) = cpu_panel (monitor self).
Proof.
  unfold _create_cpu_cores, cpu_panel, bindM, read, lift, ret. cbn [fst snd].
  destruct (create_sparkline (get_cpu_history (monitor self)) 80 6); [|reflexivity].
  cbn [bind]. destruct (create_cpu_core_visualization (get_cpu_info (monitor self)) 80);
    reflexivity.
Qed.

Lemma create_memory_visual_pure (self : t M) :
  fst (_create_memory_visual self) = memory_panel (monitor self).
Proof.
  unfold _create_memory_visual, memory_panel, bindM, read, lift, ret. cbn [fst snd].
  destruct (create_sparkline (get_memory_history (monitor self)) 80 5); [|reflexivity].
  cbn [bind]. destruct (create_memory_breakdown (get_memory_info (monitor self)) 80);
    reflexivity.
Qed.

Lemma create_network_visual_pure (self : t M) :
  fst (_create_network_visual self)
  = create_network_visualization (get_network_info (monitor self)) 80.
Proof. reflexivity. Qed.

Lemma create_processes_visual_pure (self : t M) :
  fst (_create_processes_visual self)
  = create_mini_process_table (visible_processes self) 12 80.
Proof. reflexivity. Qed.

(** The state in which [render] calls the panel builders: the monitor has
    been advanced, and the layout plays no part in them. *)
Definition advanced (self : t M) : t M :=
  with_monitor self (update_history (monitor self)).

Lemma render_frame (self : t M) : fst (render self) = frame (advanced self).
Proof.
  rewrite render_unfold, render_regions_frame by reflexivity. reflexivity.
Qed.

(** A method that ends by returning [self.layout]. *)
Definition returns_layout (m : @method M Layout.t) : Prop :=
  forall self l, fst (m self) = Ok l -> layout (snd (m self)) = l.

Lemma returns_layout_bind {A} (m : @method M A) (k : A -> @method M Layout.t) :
  (forall a, returns_layout (k a)) -> returns_layout (bindM m k).
Proof.
  intros Hk self l. unfold bindM. destruct (m self) as [[a|e] self']; [apply Hk|].
  discriminate.
Qed.

Lemma render_returns_layout : returns_layout render.
Proof.
  unfold render.
  repeat (apply returns_layout_bind; intros ?).
  intros self l E. cbn in *. now injection E.
Qed.

(** [render]: when it returns, the layout it returns is the tree of
    [_make_layout] holding, region by region, the header, the footer and the
    panels that the five builders return for the monitor advanced by one
    [update_history]; it is also the layout left in [self.layout]. *)
Theorem render_fills_every_region (self : t M) (l : Layout.t) :
  fst (render self) = Ok l ->
  exists gauges cores memory network processes,
    fst (_create_system_gauges (advanced self)) = Ok gauges /\
    fst (_create_cpu_cores (advanced self)) = Ok cores /\
    fst (_create_memory_visual (advanced self)) = Ok memory /\
    fst (_create_network_visual (advanced self)) = Ok network /\
    fst (_create_processes_visual (advanced self)) = Ok processes /\
    l = filled_layout _create_header _create_footer gauges cores memory network processes /\
    layout (snd (render self)) = l.
Proof.
  intros E. pose proof (render_returns_layout self l E) as Hl.
  rewrite render_frame in E. unfold frame in E.
  rewrite create_system_gauges_pure, create_cpu_cores_pure, create_memory_visual_pure,
    create_network_visual_pure, create_processes_visual_pure.
  destruct (create_system_gauges _ _ _ 80) as [g|e]; [|discriminate E]. cbn [bind] in E.
  destruct (cpu_panel _) as [c|e]; [|discriminate E]. cbn [bind] in E.
  destruct (memory_panel _) as [m|e]; [|discriminate E]. cbn [bind] in E.
  destruct (create_network_visualization _ 80) as [n|e]; [|discriminate E]. cbn [bind] in E.
  destruct (create_mini_process_table _ 12 80) as [p|e]; [|discriminate E]. cbn [bind] in E.
  injection E as <-. exists g, c, m, n, p. repeat (split; [reflexivity|]). exact Hl.
Qed.

Lemma cpu_panel_raises (m : M) : raises_only arithmetic (cpu_panel m).
Proof.
  unfold cpu_panel.
  apply raises_only_bind; [apply create_sparkline_raises|]. intros spark _.
  apply raises_only_bind; [apply create_cpu_core_visualization_raises|].
  intros; apply raises_only_ok.
Qed.

Lemma frame_raises (self : t M) :
  raises_only (ZeroDivisionError :: arithmetic) (frame self) /\
  (frame self = Raise ZeroDivisionError ->
   MemoryInfo.total (get_memory_info (monitor self)) = 0) /\
  (MemoryInfo.total (get_memory_info (monitor self)) = 0 ->
   forall l, frame self <> Ok l).
Proof.
  assert (Hweak : forall A (r : result A),
             raises_only arithmetic r -> raises_only (ZeroDivisionError :: arithmetic) r).
  { intros A r. apply raises_only_incl. intros e He. now right. }
  assert (Hnz : forall A (r : result A),
             raises_only arithmetic r -> r <> Raise ZeroDivisionError).
  { intros A r Hr E. destruct (Hr _ E) as [G|[G|[]]]; discriminate G. }
  pose proof (create_system_gauges_raises (get_cpu_info (monitor self))
                (get_memory_info (monitor self)) (get_disk_info (monitor self)) 80) as Rg.
  pose proof (cpu_panel_raises (monitor self)) as Rc.
  pose proof (create_sparkline_raises (get_memory_history (monitor self)) 80 5) as Rs.
  pose proof (create_memory_breakdown_raises (get_memory_info (monitor self)) 80) as Rb.
  pose proof (memory_breakdown_zero_division (get_memory_info (monitor self)) 80)
    as [Hz1 Hz2].
  pose proof (create_network_visualization_raises (get_network_info (monitor self)) 80)
    as Rn.
  pose proof (create_mini_process_table_raises (visible_processes self) 12 80) as Rp.
  unfold frame, memory_panel.
  destruct (create_system_gauges _ _ _ 80) as [g|e] eqn:Eg; cbn [bind].
  2:{ split; [exact (raises_only_raise _ e (Hweak _ _ Rg))|].
      split; [intros E; injection E as ->; now apply Hnz in Rg|discriminate]. }
  destruct (cpu_panel _) as [c|e] eqn:Ec; cbn [bind].
  2:{ split; [exact (raises_only_raise _ e (Hweak _ _ Rc))|].
      split; [intros E; injection E as ->; now apply Hnz in Rc|discriminate]. }
  destruct (create_sparkline _ 80 5) as [s|e] eqn:Es; cbn [bind].
  2:{ split; [exact (raises_only_raise _ e (Hweak _ _ Rs))|].
      split; [intros E; injection E as ->; now apply Hnz in Rs|discriminate]. }
  destruct (create_memory_breakdown _ 80) as [b|e] eqn:Eb; cbn [bind].
  2:{ split; [exact (raises_only_raise _ e Rb)|].
      split; [intros E; injection E as ->; now apply Hz1|discriminate]. }
  assert (Ht : MemoryInfo.total (get_memory_info (monitor self)) <> 0).
  { intros Z0. destruct (Hz2 Z0) as [G|G]; discriminate G. }
  destruct (create_network_visualization _ 80) as [n|e] eqn:En; cbn [bind].
  2:{ split; [exact (raises_only_raise _ e (Hweak _ _ Rn))|].
      split; [intros E; injection E as ->; now apply Hnz in Rn|discriminate]. }
  destruct (create_mini_process_table _ 12 80) as [p|e] eqn:Ep; cbn [bind].
  2:{ split; [exact (raises_only_raise _ e (Hweak _ _ Rp))|].
      split; [intros E; injection E as ->; now apply Hnz in Rp|discriminate]. }
  split; [apply raises_only_ok|]. split; [discriminate|]. intros Z0. contradiction.
Qed.

(** [render] never raises [KeyError]: every region it names is in the tree
    that [_make_layout] builds. It raises [ZeroDivisionError] only when the
    monitor, after the update of the history, reports a total memory of 0
    bytes, and with such a monitor it never returns a frame. *)
Theorem render_raises (self : t M) :
  let memory := get_memory_info (update_history (monitor self)) in
  fst (render self) <> Raise KeyError /\
  (fst (render self) = Raise ZeroDivisionError -> MemoryInfo.total memory = 0) /\
  (MemoryInfo.total memory = 0 -> forall l, fst (render self) <> Ok l).
Proof.
  cbv zeta. rewrite render_frame.
  destruct (frame_raises (advanced self)) as (H1 & H2 & H3).
  split; [|split; [exact H2|exact H3]].
  intros E. destruct (H1 _ E) as [G|[G|[G|[]]]]; discriminate G.
Qed.

(** A frame owes nothing to the frame before it: [render] starts from a new
    layout, so rendering again gives what a first [render] gives on the
    monitor advanced once, whatever the earlier call left in [self.layout],
    and also when the earlier call raised half-way. *)
Theorem render_again (self : t M) :
  fst (render (snd (render self))) = fst (render (advanced self)) /\
  monitor (snd (render (snd (render self))))
  = update_history (update_history (monitor self)).
Proof.
  split.
  - rewrite !render_frame. rewrite render_unfold.
    destruct (layout_only_render_regions
                (with_monitor (with_layout self fresh_layout)
                   (update_history (monitor self)))) as [l El].
    rewrite El. reflexivity.
  - now rewrite !render_monitor.
Qed.

(** The states a dashboard goes through: it is created, then rendered and
    re-sorted in any order. The list holds the arguments of the calls of
    [set_process_sort] so far, oldest first. *)
Inductive reachable (height : Z) (m0 : M) : list str -> t M -> Prop :=
| reachable_init : reachable height m0 [] (init height m0)
| reachable_render (requested : list str) (self : t M) :
    reachable height m0 requested self ->
    reachable height m0 requested (snd (render self))
| reachable_sort (requested : list str) (self : t M) (sort_by : str) :
    reachable height m0 requested self ->
    reachable height m0 (requested ++ [sort_by]) (snd (set_process_sort sort_by self)).

(** [sort_by in ("cpu", "memory")] *)
Definition is_sort_key (sort_by : str) : bool :=
  str_eqb sort_by (lit "cpu") || str_eqb sort_by (lit "memory").

Lemma is_sort_key_cases (sort_by : str) :
  is_sort_key sort_by = true -> sort_by = lit "cpu" \/ sort_by = lit "memory".
Proof.
  unfold is_sort_key, str_eqb.
  destruct (list_eq_dec N.eq_dec sort_by (lit "cpu")) as [->|Nc]; [now left|].
  destruct (list_eq_dec N.eq_dec sort_by (lit "memory")) as [->|Nm]; [now right|].
  discriminate.
Qed.

(** In every state the dashboard reaches, the sort key is the last of the
    requested keys that was [cpu] or [memory], and [cpu] when there was
    none: any other string is ignored, and [render] never touches the key.
    So the key is always one of the two. *)
Theorem sort_key_invariant (height : Z) (m0 : M) (requested : list str) (self : t M) :
  reachable height m0 requested self ->
  sort_processes_by self = last (filter is_sort_key requested) (lit "cpu") /\
  (sort_processes_by self = lit "cpu" \/ sort_processes_by self = lit "memory").
Proof.
  induction 1 as [|requested self Hr [IHs IHk]|requested self sort_by Hr [IHs IHk]].
  - split; [reflexivity|now left].
  - rewrite render_keeps_sort. split; [exact IHs|exact IHk].
  - rewrite filter_app. cbn [filter]. unfold set_process_sort.
    fold (is_sort_key sort_by).
    destruct (is_sort_key sort_by) eqn:Ek.
    + rewrite last_last. split; [reflexivity|].
      now apply is_sort_key_cases.
    + rewrite app_nil_r. split; [exact IHs|exact IHk].
Qed.

End DashboardBehaviour.

Lemma sort_key_invariant_witness :
  let d := snd (Dashboard.set_process_sort (lit "name")
                  (snd (Dashboard.render
                          (snd (Dashboard.set_process_sort (lit "memory")
                                  sample_dashboard))))) in
  Dashboard.sort_processes_by d = lit "memory" /\
  (Dashboard.sort_processes_by d = lit "cpu" \/ Dashboard.sort_processes_by d = lit "memory").
Proof.
  apply (sort_key_invariant 24 Snapshot.host [lit "memory"; lit "name"]).
  apply (reachable_sort 24 Snapshot.host [lit "memory"]), reachable_render.
  apply (reachable_sort 24 Snapshot.host []), reachable_init.
Defined.

Lemma render_fills_every_region_witness :
  exists l gauges cores memory network processes,
    fst (Dashboard.render sample_dashboard) = Ok l /\
    l = filled_layout Dashboard._create_header Dashboard._create_footer
          gauges cores memory network processes.
Proof.
  destruct (fst (Dashboard.render sample_dashboard)) as [l|e] eqn:E;
    [|vm_compute in E; discriminate E].
  destruct (render_fills_every_region sample_dashboard l E)
    as (g & c & m & n & p & _ & _ & _ & _ & _ & El & _).
  exists l, g, c, m, n, p. split; [reflexivity|exact El].
Defined.

(** ** Units of [format_bytes] *)

Lemma val_ltb (x y : spec_float) :
  valid_nonneg x = true -> valid_nonneg y = true ->
  (SFltb x y = true <-> val x < val y).
Proof.
  intros Hx Hy. pose proof (SFcompare_ord x y) as Ho. unfold SFltb.
  destruct x as [sx|sx| |[] mx ex]; try discriminate;
    destruct y as [sy|sy| |[] my ey]; try discriminate;
    cbn [valid_nonneg] in Hx, Hy.
  - cbn. split; [discriminate|lia].
  - cbn [SFcompare val]. destruct (canonical_digits my ey Hy) as (_ & _ & He).
    pose proof (pow2_pos (ey + 1074) ltac:(lia)). split; [nia|reflexivity].
  - cbn [SFcompare val]. destruct (canonical_digits mx ex Hx) as (_ & _ & He).
    pose proof (pow2_pos (ex + 1074) ltac:(lia)). split; [discriminate|nia].
  - cbn [val]. unfold ord_lt, ord_eq in Ho. cbn [ord1 ord2 ord3] in Ho.
    pose proof (val_lt_lex mx my ex ey Hx Hy) as L1.
    pose proof (val_lt_lex my mx ey ex Hy Hx) as L2.
    destruct (SFcompare (S754_finite false mx ex) (S754_finite false my ey)) as [[]|].
    + destruct Ho as (_ & -> & Em). injection Em as ->. split; [discriminate|lia].
    + split; [intros _|reflexivity].
      assert (ex < ey \/ ex = ey /\ (mx < my)%positive) as G by lia.
      specialize (L1 G). lia.
    + split; [discriminate|]. intros Hlt.
      assert (ey < ex \/ ey = ex /\ (my < mx)%positive) as G by lia.
      specialize (L2 G). lia.
    + destruct Ho; discriminate.
Qed.

(** Dividing a float of at least 1024 by 1024 is exact. *)
Lemma SFdiv_1024 (m : positive) (e : Z) :
  bounded prec emax m e = true -> 1024 * 2 ^ 1074 <= Zpos m * 2 ^ (e + 1074) ->
  SF64div (S754_finite false m e) (Prim2SF 1024) = S754_finite false m (e - 10) /\
  bounded prec emax m (e - 10) = true.
Proof.
  intros Hb Hge. destruct (canonical_digits m e Hb) as (Hd & Hn & He).
  destruct (bounded_canonical m e Hb) as [C _].
  pose proof (Zdigits2_bounds (Zpos m) ltac:(lia)) as [Lo Hi].
  assert (Hp : 2 ^ Zdigits2 (Zpos m) <= 2 ^ 53) by (apply Z.pow_le_mono_r; lia).
  assert (He42 : -43 < e).
  { destruct (Z.le_gt_cases e (-43)) as [Hle|]; [exfalso|lia].
    pose proof (Z.pow_le_mono_r 2 (e + 1074) (-43 + 1074) ltac:(lia) ltac:(lia)) as Hq.
    pose proof (pow2_pos (e + 1074) ltac:(lia)).
    assert (Zpos m * 2 ^ (e + 1074) < 2 ^ 53 * 2 ^ (-43 + 1074)) by nia.
    change (1024 * 2 ^ 1074) with (2 ^ 53 * 2 ^ (-43 + 1074)) in Hge. lia. }
  assert (Ed : Zdigits2 (Zpos m) = 53) by lia.
  assert (Hb' : bounded prec emax m (e - 10) = true).
  { apply bounded_intro; [rewrite Ed, fexp64_eq|]; lia. }
  split; [|exact Hb'].
  change (Prim2SF 1024) with (S754_finite false 4503599627370496 (-42)).
  unfold SF64div, SFdiv, SFdiv_core_binary. cbn [xorb]. rewrite Ed.
  change (Zdigits2 (Zpos 4503599627370496)) with 53.
  fold (fexp64 (53 + e - (53 + -42))). rewrite fexp64_eq.
  replace (Z.min (Z.max (53 + e - (53 + -42) - 53) (-1074)) (e - -42)) with (e - 11) by lia.
  replace (e - -42 - (e - 11)) with 53 by lia.
  assert (E : Z.div_eucl (Zpos m * 2 ^ 53) (Zpos 4503599627370496) = (Zpos m * 2, 0)).
  { pose proof (Z_div_mod (Zpos m * 2 ^ 53) (Zpos 4503599627370496) ltac:(lia)) as D.
    destruct (Z.div_eucl (Zpos m * 2 ^ 53) (Zpos 4503599627370496)) as [q r].
    destruct D as [D B]. change (2 ^ 53) with (4503599627370496 * 2) in D.
    f_equal; lia. }
  match goal with
  | |- context [let '(q, r) := ?t in _] =>
      change t with (Z.div_eucl (Z.shiftl (Zpos m) 53) (Zpos 4503599627370496))
  end.
  rewrite Z.shiftl_mul_pow2, E, new_location_exact by lia.
  replace (Zpos m * 2) with (Zpos m * 2 ^ (e - 10 - (e - 11))).
  - apply round_aux_representable; [exact Hb'|lia].
  - replace (e - 10 - (e - 11)) with 1 by lia. reflexivity.
Qed.

Lemma div_1024 (x : float) :
  valid_nonneg (Prim2SF x) = true -> 1024 * 2 ^ 1074 <= val (Prim2SF x) ->
  valid_nonneg (Prim2SF (x / 1024)) = true /\
  val (Prim2SF (x / 1024)) * 1024 = val (Prim2SF x).
Proof.
  intros V Hge. rewrite div_spec.
  destruct (Prim2SF x) as [s|s| |[] m e]; try discriminate; cbn [val] in Hge; try lia.
  cbn [valid_nonneg] in V.
  destruct (SFdiv_1024 m e V Hge) as [-> Hb]. split; [exact Hb|].
  cbn [val]. destruct (canonical_digits m (e - 10) Hb) as (_ & _ & He).
  replace (e + 1074) with ((e - 10 + 1074) + 10) by lia.
  rewrite (Z.pow_add_r 2 (e - 10 + 1074) 10) by lia. change (2 ^ 10) with 1024. ring.
Qed.

Lemma lt_1024 (x : float) :
  valid_nonneg (Prim2SF x) = true ->
  ((x <? 1024)%float = true <-> val (Prim2SF x) < 1024 * 2 ^ 1074).
Proof.
  intros V. rewrite ltb_spec.
  assert (V' : valid_nonneg (Prim2SF 1024) = true) by reflexivity.
  rewrite (val_ltb _ _ V V'). reflexivity.
Qed.

(** The loop passes the units it has outgrown: after [j] divisions by 1024,
    all of them exact, it goes on with the remaining units. *)
Lemma format_bytes_loop_skip (skipped rest : list str) (x : float) :
  valid_nonneg (Prim2SF x) = true ->
  1024 ^ len skipped * 2 ^ 1074 <= val (Prim2SF x) ->
  exists y,
    format_bytes_loop (skipped ++ rest) x = format_bytes_loop rest y /\
    valid_nonneg (Prim2SF y) = true /\
    val (Prim2SF y) * 1024 ^ len skipped = val (Prim2SF x).
Proof.
  revert x. induction skipped as [|unit skipped IH]; intros x V Hge.
  - exists x. cbn [app]. split; [reflexivity|]. split; [exact V|].
    change (1024 ^ len []) with 1. lia.
  - assert (Hl : len (unit :: skipped) = len skipped + 1) by (unfold len; cbn [length]; lia).
    rewrite Hl in *. pose proof (len_nonneg skipped) as Hn.
    rewrite Z.pow_add_r in * by lia. change (1024 ^ 1) with 1024 in *.
    assert (P : 0 < 1024 ^ len skipped) by (apply Z.pow_pos_nonneg; lia).
    assert (Hx : 1024 * 2 ^ 1074 <= val (Prim2SF x)).
    { assert (0 < 2 ^ 1074) by (apply pow2_pos; lia). nia. }
    destruct (div_1024 x V Hx) as [V' Ev].
    destruct (IH (x / 1024)%float V' ltac:(nia)) as (y & Ey & Vy & Hy).
    exists y. split; [|split; [exact Vy|nia]].
    cbn [app format_bytes_loop].
    replace (x <? 1024)%float with false; [exact Ey|].
    symmetry. apply Bool.not_true_is_false. rewrite (lt_1024 x V). lia.
Qed.

Definition byte_units : list str := [lit "B"; lit "KB"; lit "MB"; lit "GB"; lit "TB"; lit "PB"].

(** [format_bytes], on the sizes from 1 up to [2^53] bytes: the unit is the
    [k]-th of B, KB, MB, GB, TB, PB, where [1024^k <= n < 1024^(k+1)] ([k = 5]
    from [1024^5] on), and the number printed, to one decimal, is the float
    [m * 2^e] that equals [n / 1024^k] exactly: no division of the loop
    rounds. *)
Theorem format_bytes_unit (n k : Z) :
  0 <= k <= 5 -> 1024 ^ k <= n < 2 ^ 53 -> (k < 5 -> n < 1024 ^ (k + 1)) ->
  exists x m e,
    Prim2SF x = S754_finite false m e /\ e <= 0 /\ Zpos m * 1024 ^ k = n * 2 ^ (- e) /\
    format_bytes n
    = Ok (fmt_float_1f x ++ lit " " ++ nth (Z.to_nat k) byte_units []).
Proof.
  intros Hk Hn Hlt.
  assert (Pk : 0 < 1024 ^ k) by (apply Z.pow_pos_nonneg; lia).
  destruct (float_of_int_exact n ltac:(lia)) as (w & b & eb & Ew & Pw & Bw & Heb & Hbv).
  assert (Vw : valid_nonneg (Prim2SF w) = true) by (rewrite Pw; exact Bw).
  assert (Hval : val (Prim2SF w) = n * 2 ^ 1074).
  { rewrite Pw. cbn [val]. rewrite Hbv, <- Z.mul_assoc, <- Z.pow_add_r.
    - do 2 f_equal. lia.
    - lia.
    - destruct (canonical_digits b eb Bw) as (_ & _ & He). lia. }
  assert (P74 : 0 < 2 ^ 1074) by (apply pow2_pos; lia).
  set (units := [lit "B"; lit "KB"; lit "MB"; lit "GB"; lit "TB"]).
  assert (Hsplit : exists skipped rest,
             units = skipped ++ rest /\ len skipped = k /\
             (k < 5 -> exists rest', rest = nth (Z.to_nat k) byte_units [] :: rest') /\
             (k = 5 -> rest = [])).
  { assert (Hc : k = 0 \/ k = 1 \/ k = 2 \/ k = 3 \/ k = 4 \/ k = 5) by lia.
    destruct Hc as [-> | [-> | [-> | [-> | [-> | ->]]]]];
      [ exists [], units
      | exists [lit "B"], [lit "KB"; lit "MB"; lit "GB"; lit "TB"]
      | exists [lit "B"; lit "KB"], [lit "MB"; lit "GB"; lit "TB"]
      | exists [lit "B"; lit "KB"; lit "MB"], [lit "GB"; lit "TB"]
      | exists [lit "B"; lit "KB"; lit "MB"; lit "GB"], [lit "TB"]
      | exists units, [] ];
      (split; [reflexivity|]); (split; [reflexivity|]);
      (split; [intros G; first [lia|now eexists]|intros G; first [lia|reflexivity]]). }
  destruct Hsplit as (skipped & rest & Eu & Hls & Hrest & Hlast).
  destruct (format_bytes_loop_skip skipped rest w Vw) as (y & Ey & Vy & Hy).
  { rewrite Hls, Hval. nia. }
  rewrite Hls, Hval in Hy.
  assert (Hypos : 0 < val (Prim2SF y)) by nia.
  destruct (Prim2SF y) as [s|s| |[] m e] eqn:Py; try discriminate; cbn [val] in Hypos;
    try lia.
  cbn [valid_nonneg val] in Vy, Hy.
  destruct (canonical_digits m e Vy) as (Hd & _ & He).
  assert (He0 : e <= 0).
  { destruct (Z.le_gt_cases e 0) as [|Hgt]; [assumption|exfalso].
    destruct (canonical_digits m e Vy) as (_ & [G|G] & _); [lia|].
    pose proof (Zdigits2_bounds (Zpos m) ltac:(lia)) as [Lo _]. rewrite G in Lo.
    change (2 ^ (53 - 1)) with (2 ^ 52) in Lo.
    pose proof (Z.pow_le_mono_r 2 (1 + 1074) (e + 1074) ltac:(lia) ltac:(lia)) as Hp.
    rewrite Z.pow_add_r in Hp by lia. change (2 ^ 1) with 2 in Hp.
    assert (2 ^ 53 * 2 ^ 1074 <= Zpos m * 2 ^ (e + 1074)).
    { change (2 ^ 53) with (2 ^ 52 * 2). nia. }
    nia. }
  exists y, m, e. split; [exact Py|]. split; [exact He0|]. split.
  - pose proof (pow2_pos (- e) ltac:(lia)) as Pe.
    pose proof (pow2_pos (e + 1074) ltac:(lia)) as Pe'.
    assert (E74 : 2 ^ 1074 = 2 ^ (e + 1074) * 2 ^ (- e)).
    { rewrite <- Z.pow_add_r by lia. f_equal. lia. }
    rewrite E74 in Hy. nia.
  - unfold format_bytes. rewrite Ew. cbn [bind]. fold units. rewrite Eu, Ey. f_equal.
    destruct (Z.eq_dec k 5) as [->|N5].
    + rewrite (Hlast eq_refl). reflexivity.
    + destruct (Hrest ltac:(lia)) as (rest' & ->). cbn [format_bytes_loop].
      replace (y <? 1024)%float with true; [reflexivity|].
      symmetry. apply lt_1024; [rewrite Py; exact Vy|]. rewrite Py. cbn [val].
      specialize (Hlt ltac:(lia)). rewrite Z.pow_add_r in Hlt by lia.
      change (1024 ^ 1) with 1024 in Hlt. nia.
Qed.

Lemma format_bytes_unit_witness :
  exists x m e,
    Prim2SF x = S754_finite false m e /\ e <= 0 /\
    Zpos m * 1024 ^ 2 = (5 * 1024 * 1024 + 1) * 2 ^ (- e) /\
    format_bytes (5 * 1024 * 1024 + 1) = Ok (fmt_float_1f x ++ lit " " ++ lit "MB").
Proof.
  apply (format_bytes_unit (5 * 1024 * 1024 + 1) 2);
    [lia|split; [vm_compute; discriminate|reflexivity]|intros _; reflexivity].
Defined.

Lemma binary_round_valid (s : bool) (m : positive) (e : Z) :
  valid_binary (binary_round prec emax s m e) = true /\
  (binary_round prec emax s m e = S754_zero s \/
   (exists m' e', binary_round prec emax s m e = S754_finite s m' e') \/
   binary_round prec emax s m e = S754_infinity s).
Proof.
  unfold binary_round. fold (fexp64 (Zpos (digits2_pos m) + e)).
  change (Zpos (digits2_pos m)) with (Zdigits2 (Zpos m)).
  pose proof (shl_align_fexp m e) as HA. cbv zeta in HA.
  destruct (shl_align m e (fexp64 (Zdigits2 (Zpos m) + e))) as [m1 e1].
  destruct HA as (H1 & H2 & _). split.
  - apply round_aux_valid; lia.
  - apply binary_round_aux_sign. lia.
Qed.

(** An int of [2^1024] or more has no float. *)
Lemma float_of_int_overflow (n : Z) : 2 ^ 1024 <= n -> float_of_int n = Raise OverflowError.
Proof.
  intros Hn. assert (P : 0 < 2 ^ 1024) by (apply pow2_pos; lia).
  destruct n as [|p|p]; try lia.
  unfold float_of_int. cbn [binary_normalize].
  pose proof (binary_round_exact false p 0 ltac:(lia)) as HX.
  destruct (binary_round_valid false p 0) as [V [Ez|[(m & e & Ef)|Ei]]].
  - rewrite Ez in HX. destruct HX.
  - rewrite Ef in *. exfalso. destruct HX as [He HX].
    unfold valid_binary in V. cbn [SpecFloat.valid_binary] in V.
    destruct (canonical_digits m e V) as (Hd & _ & He').
    pose proof (Zdigits2_bounds (Zpos m) ltac:(lia)) as [_ Hi].
    pose proof (Z.pow_le_mono_r 2 (Zdigits2 (Zpos m)) 53 ltac:(lia) Hd).
    pose proof (Z.pow_le_mono_r 2 (e + 1074) (971 + 1074) ltac:(lia) ltac:(lia)).
    pose proof (pow2_pos (e + 1074) ltac:(lia)).
    assert (Hup : Zpos m * 2 ^ (e + 1074) < 2 ^ 53 * 2 ^ (971 + 1074)) by nia.
    assert (P74 : 0 < 2 ^ (0 + 1074)) by (apply pow2_pos; lia).
    pose proof (rnd_lower (Zpos p * 2 ^ (0 + 1074)) ltac:(nia)) as Hlo.
    rewrite Zdigits2_mul_pow2 in Hlo by lia.
    pose proof (Zdigits2_ge_pow2 (Zpos p) 1024 ltac:(lia) Hn) as Hdp.
    pose proof (Z.pow_le_mono_r 2 (1024 + (0 + 1074))
                  (Zdigits2 (Zpos p) + (0 + 1074) - 1) ltac:(lia) ltac:(lia)) as Hq.
    change (2 ^ 53 * 2 ^ (971 + 1074)) with (2 ^ (1024 + (0 + 1074))) in Hup. lia.
  - rewrite Ei. reflexivity.
Qed.

(** An int of at most [2^1023] has one. *)
Lemma float_of_int_in_range (n : Z) :
  0 <= n <= 2 ^ 1023 -> exists x, float_of_int n = Ok x.
Proof.
  intros Hn. unfold float_of_int. destruct n as [|p|p]; try lia.
  - eexists. reflexivity.
  - cbn [binary_normalize].
    destruct (binary_round_finite p 0 4503599627370496 971) as (m & e & -> & _).
    + lia.
    + reflexivity.
    + change (Zpos 4503599627370496 * 2 ^ (971 + 1074)) with (2 ^ 1023 * 2 ^ (0 + 1074)).
      assert (0 < 2 ^ (0 + 1074)) by (apply pow2_pos; lia). nia.
    + eexists. reflexivity.
Qed.

(** A negative int is a float below 1024. *)
Lemma float_of_int_negative (n : Z) (x : float) :
  n < 0 -> float_of_int n = Ok x -> (x <? 1024)%float = true.
Proof.
  intros Hn. unfold float_of_int. destruct n as [|p|p]; try lia.
  cbn [binary_normalize].
  destruct (binary_round_valid true p 0) as [V [Ez|[(m & e & Ef)|Ei]]].
  - rewrite Ez in *. intros E. replace x with (SF2Prim (S754_zero true)) by congruence.
    reflexivity.
  - rewrite Ef in *. intros E.
    replace x with (SF2Prim (S754_finite true m e)) by congruence.
    rewrite ltb_spec, Prim2SF_SF2Prim by exact V. reflexivity.
  - rewrite Ei. discriminate.
Qed.

(** Five GiB owed rather than held: the loop leaves the unit at B. *)
Example format_bytes_below_zero :
  format_bytes (- (5 * 1024 ^ 3)) = Ok (lit "-5368709120.0 B").
Proof. vm_compute. reflexivity. Qed.

(** [format_bytes] at the ends of its domain. A negative size is never
    scaled: at every magnitude it is printed in bytes. A size of at most
    [2^1023] is formatted, and a size of [2^1024] or more raises
    [OverflowError], which is all [format_bytes] can raise. *)
Theorem format_bytes_edges (n : Z) :
  (n < 0 -> forall x, float_of_int n = Ok x ->
   format_bytes n = Ok (fmt_float_1f x ++ lit " B")) /\
  (0 <= n <= 2 ^ 1023 -> exists s, format_bytes n = Ok s) /\
  (2 ^ 1024 <= n -> format_bytes n = Raise OverflowError) /\
  raises_only [OverflowError] (format_bytes n).
Proof.
  split; [|split; [|split]].
  - intros Hn x Ex. unfold format_bytes. rewrite Ex. cbn [bind format_bytes_loop].
    now rewrite (float_of_int_negative n x Hn Ex).
  - intros Hn. destruct (float_of_int_in_range n Hn) as [x Ex].
    unfold format_bytes. rewrite Ex. cbn [bind]. eauto.
  - intros Hn. unfold format_bytes. now rewrite float_of_int_overflow.
  - apply format_bytes_raises.
Qed.
